(** * Eligibility chatbot: the conversation state machine and the eligibility rule

    A shallow embedding of [app/tools.py], [app/graph.py], of the turn
    entry point of [app/chatbot.py], of the texts of [app/responses.py] and
    of the storage of [app/database.py], with the properties of the
    specification proved about it and further properties of the code.

    Conventions of the embedding:
    - a Python [str] is a list of Unicode code points ([text]);
    - a Python [int] is a [Z];
    - the dictionaries [personal_data] and [car_data] are finite maps from
      key names to Python values ([gmap string pyval]);
    - an exception is an explicit outcome ([Raise]);
    - the language model is an oracle from prompts to replies that may fail;
    - the text shown to the user is kept as the call to the response
      generator that produces it ([response]). *)

From Stdlib Require Import ZArith NArith List Bool Lia String Ascii.
From stdpp Require Import base tactics option list strings gmap pretty.

Local Open Scope N_scope.

(** ** Text *)

(** A Python string, as the sequence of its code points. *)
Abbreviation codepoint := N (only parsing).
Abbreviation text := (list N) (only parsing).

(** Source literals are written as Rocq strings, whose characters are the
    bytes of the UTF-8 encoding; [utf8_decode] turns them into code points. *)
Fixpoint utf8_decode (bs : list N) : text :=
  match bs with
  | [] => []
  | b0 :: r0 =>
    if b0 <? 128 then b0 :: utf8_decode r0
    else match r0 with
    | [] => [b0]
    | b1 :: r1 =>
      if b0 <? 224 then ((b0 - 192) * 64 + (b1 - 128)) :: utf8_decode r1
      else match r1 with
      | [] => [b0; b1]
      | b2 :: r2 =>
        if b0 <? 240
        then ((b0 - 224) * 4096 + (b1 - 128) * 64 + (b2 - 128)) :: utf8_decode r2
        else match r2 with
        | [] => [b0; b1; b2]
        | b3 :: r3 =>
          ((b0 - 240) * 262144 + (b1 - 128) * 4096 + (b2 - 128) * 64 + (b3 - 128))
            :: utf8_decode r3
        end
      end
    end
  end.

Definition bytes_of_string (s : string) : list N :=
  map N_of_ascii (list_ascii_of_string s).

Definition txt (s : string) : text := utf8_decode (bytes_of_string s).

(** [str(n)] for an integer, as used by f-string interpolation. *)
Definition str_of_int (z : Z) : text := txt (pretty z).

(** [str.isspace] on one character: the code points CPython treats as
    whitespace. *)
Definition isspace (c : codepoint) : bool :=
  ((9 <=? c) && (c <=? 13)) || ((28 <=? c) && (c <=? 32))
  || (c =? 133) || (c =? 160) || (c =? 5760)
  || ((8192 <=? c) && (c <=? 8202))
  || (c =? 8232) || (c =? 8233) || (c =? 8239) || (c =? 8287) || (c =? 12288).

(** [s.startswith(p)] *)
Fixpoint startswith (s p : text) {struct p} : bool :=
  match p, s with
  | [], _ => true
  | _ :: _, [] => false
  | x :: p', y :: s' => (x =? y) && startswith s' p'
  end.

(** [needle in hay] for strings. *)
Fixpoint str_in (needle hay : text) : bool :=
  startswith hay needle ||
  match hay with
  | [] => false
  | _ :: hay' => str_in needle hay'
  end.

(** [s.lstrip()], [s.rstrip()], [s.strip()] *)
Fixpoint lstrip (s : text) : text :=
  match s with
  | c :: s' => if isspace c then lstrip s' else s
  | [] => []
  end.

Definition rstrip (s : text) : text := rev (lstrip (rev s)).

Definition strip (s : text) : text := rstrip (lstrip s).

(** [s.split()]: the maximal runs of non-whitespace characters. [cur] is the
    run being read, in reverse. *)
Fixpoint split_go (cur : text) (s : text) : list text :=
  match s with
  | [] => match cur with [] => [] | _ => [rev cur] end
  | c :: s' =>
    if isspace c
    then match cur with [] => split_go [] s' | _ => rev cur :: split_go [] s' end
    else split_go (c :: cur) s'
  end.

Definition split (s : text) : list text := split_go [] s.

(** [sep.join(parts)] *)
Fixpoint join (sep : text) (parts : list text) : text :=
  match parts with
  | [] => []
  | [p] => p
  | p :: ps => p ++ sep ++ join sep ps
  end.

(** [s.split(sep, 1)] for a one-character separator: the text before the
    first separator and, when there is one, the text after it. *)
Fixpoint split_once (sep : codepoint) (s : text) : text * option text :=
  match s with
  | [] => ([], None)
  | c :: s' =>
    if c =? sep then ([], Some s')
    else let '(a, b) := split_once sep s' in (c :: a, b)
  end.

(** [s.replace(c, '')] for a one-character [c]. *)
Definition remove_char (c : codepoint) (s : text) : text :=
  filter (fun x => x ≠ c) s.

(** ** The parts of the Unicode database the code relies on

    Case mapping is a function on whole strings (it can change the length
    and depends on context); word characters and decimal digits outside
    ASCII are tables. Inside ASCII everything is written out. *)
Record unicode := {
  str_lower : text -> text;          (* s.lower() *)
  str_upper : text -> text;          (* s.upper() *)
  str_capitalize : text -> text;     (* s.capitalize() *)
  uni_isword : codepoint -> bool;    (* \w above U+007F *)
  uni_digit : codepoint -> option Z  (* decimal digit value above U+007F *)
}.

Definition in_range (lo hi c : N) : bool := (lo <=? c) && (c <=? hi).

(** The decimal value of a character of category Nd. *)
Definition digit_value (U : unicode) (c : codepoint) : option Z :=
  if c <? 128 then
    if in_range 48 57 c then Some (Z.of_N (c - 48)) else None
  else uni_digit U c.

(** [\d] *)
Definition is_digit (U : unicode) (c : codepoint) : bool :=
  bool_decide (is_Some (digit_value U c)).

(** [\w] *)
Definition is_word (U : unicode) (c : codepoint) : bool :=
  if c <? 128 then
    in_range 48 57 c || in_range 65 90 c || (c =? 95) || in_range 97 122 c
  else uni_isword U c || is_digit U c.

(** [int(s)] on a run of decimal digits; [None] stands for [ValueError]. *)
Definition py_int (U : unicode) (s : text) : option Z :=
  match s with
  | [] => None
  | _ =>
    foldl (fun acc c =>
             match acc, digit_value U c with
             | Some a, Some d => Some (10 * a + d)%Z
             | _, _ => None
             end) (Some 0%Z) s
  end.

(** ** Regular expressions

    The three patterns of [graph.py] are sequences of word boundaries,
    literal alternatives and greedy repetitions of a character class.
    [re.search] tries the start positions from left to right and, at each
    one, the alternatives in order and the longest repetition first. *)
Inductive atom :=
| Boundary                                              (* \b *)
| Alt (alts : list text)                                (* (a|b), x *)
| Rep (cls : codepoint -> bool) (lo : nat) (hi : option nat). (* [..]{lo,hi} *)

Definition at_boundary (U : unicode) (prev next : option codepoint) : bool :=
  negb (eqb (from_option (is_word U) false prev)
            (from_option (is_word U) false next)).

(** The last character read once [m] has been consumed after [prev]. *)
Definition last_read (prev : option codepoint) (m : text) : option codepoint :=
  match last m with Some c => Some c | None => prev end.

(** The first alternative of [xs] on which [f] succeeds. *)
Fixpoint first_some {A B} (f : A -> option B) (xs : list A) : option B :=
  match xs with
  | [] => None
  | x :: xs' => match f x with Some y => Some y | None => first_some f xs' end
  end.

(** The repetition counts a greedy [{lo,hi}] tries, longest first, when
    [avail] characters of the class are available. *)
Definition rep_counts (avail lo : nat) (hi : option nat) : list nat :=
  let top := match hi with Some h => Nat.min h avail | None => avail end in
  rev (seq lo (S top - lo)).

(** The length of the longest prefix of [s] made of characters of [cls]. *)
Fixpoint run_length (cls : codepoint -> bool) (s : text) : nat :=
  match s with
  | c :: s' => if cls c then S (run_length cls s') else O
  | [] => O
  end.

(** Match [re] at the start of [s], [prev] being the character before it;
    the result is the text matched. *)
Fixpoint match_here (U : unicode) (re : list atom)
    (prev : option codepoint) (s : text) : option text :=
  match re with
  | [] => Some []
  | Boundary :: re' =>
    if at_boundary U prev (head s) then match_here U re' prev s else None
  | Alt alts :: re' =>
    first_some (fun lit =>
      if startswith s lit
      then (fun m => lit ++ m) <$>
             match_here U re' (last_read prev lit) (drop (length lit) s)
      else None) alts
  | Rep cls lo hi :: re' =>
    first_some (fun k =>
      (fun m => take k s ++ m) <$>
        match_here U re' (last_read prev (take k s)) (drop k s))
      (rep_counts (run_length cls s) lo hi)
  end.

(** [re.search(re, s).group()], or [None] when there is no match. *)
Fixpoint search_from (U : unicode) (re : list atom)
    (prev : option codepoint) (s : text) : option text :=
  match match_here U re prev s with
  | Some m => Some m
  | None =>
    match s with
    | [] => None
    | c :: s' => search_from U re (Some c) s'
    end
  end.

Definition re_search (U : unicode) (re : list atom) (s : text) : option text :=
  search_from U re None s.

(** [[A-Za-z0-9]] *)
Definition ascii_alnum (c : codepoint) : bool :=
  in_range 65 90 c || in_range 97 122 c || in_range 48 57 c.

Definition one_of (chars : string) (c : codepoint) : bool :=
  bool_decide (c ∈ txt chars).

(** [r'\b(19|20)\d{2}\b'] *)
Definition YEAR_RE (U : unicode) : list atom :=
  [Boundary; Alt [txt "19"; txt "20"]; Rep (is_digit U) 2 (Some 2%nat); Boundary].

(** [r'\b[A-Za-z0-9._%+-]+@[A-Za-z0-9.-]+\.[A-Z|a-z]{2,}\b'] *)
Definition EMAIL_RE : list atom :=
  [Boundary;
   Rep (fun c => ascii_alnum c || one_of "._%+-" c) 1 None;
   Alt [txt "@"];
   Rep (fun c => ascii_alnum c || one_of ".-" c) 1 None;
   Alt [txt "."];
   Rep (fun c => in_range 65 90 c || one_of "|" c || in_range 97 122 c) 2 None;
   Boundary].

(** [r'\b(\d{1,6})\b'] *)
Definition MILEAGE_RE (U : unicode) : list atom :=
  [Boundary; Rep (is_digit U) 1 (Some 6%nat); Boundary].

Local Close Scope N_scope.
Local Open Scope Z_scope.

(** ** Python values, dictionaries and exceptions *)

Inductive pyval :=
| PNone
| PStr (s : text)
| PInt (z : Z).

(** Truth value of an object in a condition ([if v], [not v], [all]). *)
Definition truthy (v : pyval) : bool :=
  match v with
  | PNone => false
  | PStr s => negb (bool_decide (s = []))
  | PInt z => negb (z =? 0)
  end.

(** [str(v)], as interpolated by an f-string. *)
Definition py_str (v : pyval) : text :=
  match v with
  | PNone => txt "None"
  | PStr s => s
  | PInt z => str_of_int z
  end.

Definition of_opt_str (o : option text) : pyval :=
  match o with Some s => PStr s | None => PNone end.

Definition of_opt_int (o : option Z) : pyval :=
  match o with Some z => PInt z | None => PNone end.

Abbreviation pydict := (gmap string pyval) (only parsing).

(** [d.get(k)] and [d.get(k, dflt)] *)
Definition dict_get (d : pydict) (k : string) : pyval := default PNone (d !! k).

Definition dict_get_or (d : pydict) (k : string) (dflt : pyval) : pyval :=
  default dflt (d !! k).

Inductive exn :=
| AttributeError        (* a method of [str] called on [None] or an [int] *)
| IndexError            (* [xs[0]] on an empty list *)
| ValidationError       (* pydantic refuses a field *)
| GraphRecursionError.  (* LangGraph's recursion limit is reached *)

Inductive outcome (A : Type) :=
| Return (a : A)
| Raise (e : exn).

Arguments Return {A} a.
Arguments Raise {A} e.

#[global] Instance outcome_ret : MRet outcome := fun A a => Return a.

#[global] Instance outcome_bind : MBind outcome := fun A B f m =>
  match m with
  | Return a => f a
  | Raise e => Raise e
  end.

(** [v.split()[0]] *)
Definition split_first (v : pyval) : outcome text :=
  match v with
  | PStr s =>
    match split s with
    | w :: _ => Return w
    | [] => Raise IndexError
    end
  | _ => Raise AttributeError
  end.

(** ** [app/models.py] *)

Inductive ConversationState :=
| GREETING
| COLLECTING_PERSONAL_DATA
| CONFIRMING_PERSONAL_DATA
| COLLECTING_CAR_DATA
| CONFIRMING_CAR_DATA
| EVALUATING_ELIGIBILITY
| COMPLETED.

#[global] Instance ConversationState_eq_dec : EqDecision ConversationState.
Proof. solve_decision. Defined.

Record EligibilityResult := {
  is_eligible : bool;
  reasons : list text;
  age : Z;
  car_age_ok : bool;
  mileage_ok : bool
}.

Module PersonalData.
Record t := {
  full_name : option text;
  birth_year : option Z;
  email : option text
}.
(** [PersonalData()] *)
Definition empty : t := {| full_name := None; birth_year := None; email := None |}.
End PersonalData.

Module CarData.
Record t := {
  brand : option text;
  model : option text;
  year : option Z;
  mileage : option Z
}.
(** [CarData()] *)
Definition empty : t :=
  {| brand := None; model := None; year := None; mileage := None |}.
End CarData.

(** ** [app/tools.py] *)

(** The prefix of a reason whose criterion is met. *)
Definition CHECK_MARK : text := Eval vm_compute in txt "✓".

(** [current_year] is [datetime.now().year]. *)
Definition evaluate_eligibility (current_year birth_year car_year mileage : Z)
    : EligibilityResult :=
  let age := current_year - birth_year in
  let age_ok := age >=? 18 in
  let car_age_ok := car_year >=? 2015 in
  let mileage_ok := mileage <? 100000 in
  let is_eligible := age_ok && car_age_ok && mileage_ok in
  let reasons := [] in
  let reasons :=
    if negb age_ok
    then reasons ++ [txt "El cliente tiene " ++ str_of_int age
                       ++ txt " años, debe ser mayor de 18"]
    else reasons ++ [txt "✓ Edad: " ++ str_of_int age
                       ++ txt " años (mayor de 18)"] in
  let reasons :=
    if negb car_age_ok
    then reasons ++ [txt "El auto es del año " ++ str_of_int car_year
                       ++ txt ", debe ser del 2015 o posterior"]
    else reasons ++ [txt "✓ Año del auto: " ++ str_of_int car_year
                       ++ txt " (posterior a 2015)"] in
  let reasons :=
    if negb mileage_ok
    then reasons ++ [txt "El kilometraje es " ++ str_of_int mileage
                       ++ txt " km, debe ser menor a 100,000 km"]
    else reasons ++ [txt "✓ Kilometraje: " ++ str_of_int mileage
                       ++ txt " km (menor a 100,000 km)"] in
  {| is_eligible := is_eligible;
     reasons := reasons;
     age := age;
     car_age_ok := car_age_ok;
     mileage_ok := mileage_ok |}.

(** ** [app/responses.py]

    What the user is told is kept as the call made to the response
    generator, with its arguments: the generator renders it from a template
    or, when [use_llm_responses] is set, through the language model. Every
    rendering is a non-empty string. *)
Module ResponseGenerator.
Inductive call :=
| greeting
| ask_birth_year (first_name : text)
| ask_email
| confirm_personal_data (personal_data : gmap string pyval)
| personal_data_confirmed (first_name : text)
| personal_data_reset
| ask_car_brand (brand : text)
| ask_car_model (brand : pyval) (model : text)
| ask_car_year
| confirm_car_data (car_data : gmap string pyval)
| car_data_reset (first_name : text)
| eligibility_result (result : option EligibilityResult) (first_name : text)
| invalid_name
| invalid_birth_year
| invalid_email
| invalid_car_brand
| invalid_car_model (brand : pyval)
| invalid_car_year
| invalid_mileage
| invalid_confirmation
| invalid_car_confirmation.
End ResponseGenerator.

(** The value of [last_response]: a string written in [graph.py] itself, or
    a call to the response generator. *)
Inductive response :=
| Literal (s : text)
| Generated (c : ResponseGenerator.call).

(** [if response:] *)
Definition response_truthy (r : response) : bool :=
  match r with
  | Literal s => negb (bool_decide (s = []))
  | Generated _ => true
  end.

(** A message of the conversation: [HumanMessage] is role [user],
    [AIMessage] is role [assistant]; the content of the latter is a
    response that was shown. *)
Inductive message :=
| HumanMessage (content : text)
| AIMessage (content : response).

(** ** The language model

    A prompt is one of four templates of [graph.py] filled with the user's
    input (and, for the model of the car, with the brand sentence). The
    provider's [invoke] answers with a content or raises. *)
Inductive prompt :=
| SafetyPrompt (user_input : text)
| FullNamePrompt (user_input : text)
| CarBrandPrompt (user_input : text)
| CarModelPrompt (brand_context : text) (user_input : text).

Inductive llm_reply :=
| LLMContent (content : text)
| LLMFailure.

Record env := {
  llm : prompt -> llm_reply;   (* self.llm.invoke *)
  current_year : Z             (* datetime.now().year *)
}.

(** ** [app/graph.py]: the state

    The step is kept as the member of the enumeration whose value the
    string [current_step] is. The nodes hand back the messages they
    received, which the reducer [add_messages] merges with themselves: a run
    of the graph leaves [messages] as it is. *)

Record GraphState := {
  messages : list message;
  conversation_id : text;
  current_step : ConversationState;
  personal_data : gmap string pyval;
  car_data : gmap string pyval;
  personal_data_confirmed : bool;
  car_data_confirmed : bool;
  eligibility_result : option EligibilityResult;
  last_response : response
}.

(** The updates [{**state, key: value}] the nodes build. *)
Definition set_current_step (v : ConversationState) (st : GraphState) : GraphState :=
  {| messages := messages st; conversation_id := conversation_id st;
     current_step := v; personal_data := personal_data st;
     car_data := car_data st;
     personal_data_confirmed := personal_data_confirmed st;
     car_data_confirmed := car_data_confirmed st;
     eligibility_result := eligibility_result st;
     last_response := last_response st |}.

Definition set_personal_data (v : gmap string pyval) (st : GraphState) : GraphState :=
  {| messages := messages st; conversation_id := conversation_id st;
     current_step := current_step st; personal_data := v;
     car_data := car_data st;
     personal_data_confirmed := personal_data_confirmed st;
     car_data_confirmed := car_data_confirmed st;
     eligibility_result := eligibility_result st;
     last_response := last_response st |}.

Definition set_car_data (v : gmap string pyval) (st : GraphState) : GraphState :=
  {| messages := messages st; conversation_id := conversation_id st;
     current_step := current_step st; personal_data := personal_data st;
     car_data := v;
     personal_data_confirmed := personal_data_confirmed st;
     car_data_confirmed := car_data_confirmed st;
     eligibility_result := eligibility_result st;
     last_response := last_response st |}.

Definition set_personal_data_confirmed (v : bool) (st : GraphState) : GraphState :=
  {| messages := messages st; conversation_id := conversation_id st;
     current_step := current_step st; personal_data := personal_data st;
     car_data := car_data st;
     personal_data_confirmed := v;
     car_data_confirmed := car_data_confirmed st;
     eligibility_result := eligibility_result st;
     last_response := last_response st |}.

Definition set_car_data_confirmed (v : bool) (st : GraphState) : GraphState :=
  {| messages := messages st; conversation_id := conversation_id st;
     current_step := current_step st; personal_data := personal_data st;
     car_data := car_data st;
     personal_data_confirmed := personal_data_confirmed st;
     car_data_confirmed := v;
     eligibility_result := eligibility_result st;
     last_response := last_response st |}.

Definition set_eligibility_result (v : option EligibilityResult) (st : GraphState)
    : GraphState :=
  {| messages := messages st; conversation_id := conversation_id st;
     current_step := current_step st; personal_data := personal_data st;
     car_data := car_data st;
     personal_data_confirmed := personal_data_confirmed st;
     car_data_confirmed := car_data_confirmed st;
     eligibility_result := v;
     last_response := last_response st |}.

Definition set_last_response (v : response) (st : GraphState) : GraphState :=
  {| messages := messages st; conversation_id := conversation_id st;
     current_step := current_step st; personal_data := personal_data st;
     car_data := car_data st;
     personal_data_confirmed := personal_data_confirmed st;
     car_data_confirmed := car_data_confirmed st;
     eligibility_result := eligibility_result st;
     last_response := v |}.

(** ** [app/graph.py]: extraction *)

(** [x if x else None] for an optional string or integer: the value when the
    condition [if x:] holds. *)
Definition if_str (o : option text) : option text :=
  match o with
  | Some s => if truthy (PStr s) then Some s else None
  | None => None
  end.

Definition if_int (o : option Z) : option Z :=
  match o with
  | Some z => if truthy (PInt z) then Some z else None
  | None => None
  end.

Section Extraction.
Context (U : unicode) (E : env).

Definition _extract_with_llm (p : prompt) : option text :=
  match llm E p with
  | LLMContent content =>
    let extracted := strip content in
    let extracted := join (txt " ") (split extracted) in
    if_str (Some extracted)
  | LLMFailure => None
  end.

Definition _validate_input_safety (user_input : text) : bool * option text :=
  match llm E (SafetyPrompt user_input) with
  | LLMContent content =>
    let result := str_upper U (strip content) in
    if startswith result (txt "SEGURO") then (true, None)
    else if startswith result (txt "INSEGURO") then
      let parts := split_once 124%N result in
      let reason :=
        match snd parts with
        | Some r => strip r
        | None => txt "contenido inapropiado detectado"
        end in
      (false, Some reason)
    else (true, None)
  | LLMFailure => (true, None)
  end.

Definition unsafe_message (safety_reason : option text) (what : string) : text :=
  txt "Tu mensaje contiene contenido inapropiado ("
  ++ py_str (of_opt_str safety_reason)
  ++ txt "). Por favor, proporciona solo " ++ txt what ++ txt ".".

Definition _extract_full_name (user_input : text) : option text * option text :=
  let '(is_safe, safety_reason) := _validate_input_safety user_input in
  if negb is_safe then (None, Some (unsafe_message safety_reason "tu nombre completo"))
  else
    match _extract_with_llm (FullNamePrompt user_input) with
    | Some result =>
      if negb (bool_decide (result = txt "NO_VALIDO"))
         && (2 <=? length (split result))%nat
      then (Some result, None)
      else (None, None)
    | None => (None, None)
    end.

Definition _extract_car_brand (user_input : text) : option text * option text :=
  let '(is_safe, safety_reason) := _validate_input_safety user_input in
  if negb is_safe then (None, Some (unsafe_message safety_reason "la marca de tu auto"))
  else
    match _extract_with_llm (CarBrandPrompt user_input) with
    | Some result =>
      if negb (bool_decide (result = txt "NO_VALIDO"))
      then (Some (str_capitalize U result), None)
      else (None, None)
    | None => (None, None)
    end.

Definition _extract_car_model (user_input : text) (brand : pyval)
    : option text * option text :=
  let '(is_safe, safety_reason) := _validate_input_safety user_input in
  if negb is_safe then (None, Some (unsafe_message safety_reason "el modelo de tu auto"))
  else
    let brand_context :=
      if truthy brand
      then txt " La marca del vehículo es " ++ py_str brand ++ txt "."
      else [] in
    match _extract_with_llm (CarModelPrompt brand_context user_input) with
    | Some result =>
      if negb (bool_decide (result = txt "NO_VALIDO"))
      then (Some (strip result), None)
      else (None, None)
    | None => (None, None)
    end.

Definition _extract_year (t : text) : option Z :=
  match re_search U (YEAR_RE U) t with
  | Some m => py_int U m
  | None => None
  end.

Definition _extract_email (t : text) : option text :=
  re_search U EMAIL_RE t.

Definition _extract_mileage (t : text) : option Z :=
  let cleaned := remove_char 44%N (remove_char 46%N t) in
  match re_search U (MILEAGE_RE U) cleaned with
  | Some m => py_int U m
  | None => None
  end.

End Extraction.

(** ** [app/graph.py]: the nodes *)

(** [state["messages"][-1].content] when that message is the user's, the
    empty string otherwise. *)
Definition last_user_input (st : GraphState) : text :=
  match last (messages st) with
  | Some (HumanMessage content) => content
  | _ => []
  end.

(** The condition of the first branch of both confirmation nodes. *)
Definition says_yes (user_input_lower : text) : bool :=
  str_in (txt "sí") user_input_lower
  || str_in (txt "si") user_input_lower
  || str_in (txt "correcto") user_input_lower
  || str_in (txt "yes") user_input_lower
  || str_in (txt "ok") user_input_lower.

(** The condition of their [elif]. *)
Definition says_no (user_input_lower : text) : bool :=
  str_in (txt "no") user_input_lower.

Definition USUARIO : pyval := PStr (txt "Usuario").

Section Nodes.
Context (U : unicode) (E : env).

Definition _router_node (st : GraphState) : GraphState := st.

Definition _route_by_state (st : GraphState) : ConversationState := current_step st.

Definition _greeting_node (st : GraphState) : GraphState :=
  set_last_response (Generated ResponseGenerator.greeting)
    (set_current_step COLLECTING_PERSONAL_DATA st).

Definition _collect_personal_data_node (st : GraphState) : outcome GraphState :=
  if bool_decide (messages st = []) then
    mret (set_last_response
            (Literal (txt "Por favor, proporciona tu nombre completo.")) st)
  else
  let user_input := last_user_input st in
  let personal_data := personal_data st in
  if negb (truthy (dict_get personal_data "full_name")) then
    let '(name, safety_error) := _extract_full_name U E user_input in
    match if_str safety_error with
    | Some safety_error => mret (set_last_response (Literal safety_error) st)
    | None =>
      match if_str name with
      | Some name =>
        let personal_data := <["full_name" := PStr name]> personal_data in
        first_name ← split_first (PStr name);
        mret (set_last_response
                (Generated (ResponseGenerator.ask_birth_year first_name))
                (set_personal_data personal_data st))
      | None =>
        mret (set_last_response (Generated ResponseGenerator.invalid_name) st)
      end
    end
  else if negb (truthy (dict_get personal_data "birth_year")) then
    match if_int (_extract_year U user_input) with
    | Some year =>
      if (1900 <=? year) && (year <=? 2010) then
        let personal_data := <["birth_year" := PInt year]> personal_data in
        mret (set_last_response (Generated ResponseGenerator.ask_email)
                (set_personal_data personal_data st))
      else
        mret (set_last_response (Generated ResponseGenerator.invalid_birth_year) st)
    | None =>
      mret (set_last_response (Generated ResponseGenerator.invalid_birth_year) st)
    end
  else if negb (truthy (dict_get personal_data "email")) then
    match if_str (_extract_email U user_input) with
    | Some email =>
      let personal_data := <["email" := PStr email]> personal_data in
      mret (set_last_response
              (Generated (ResponseGenerator.confirm_personal_data personal_data))
              (set_current_step CONFIRMING_PERSONAL_DATA
                 (set_personal_data personal_data st)))
    | None =>
      mret (set_last_response (Generated ResponseGenerator.invalid_email) st)
    end
  else mret st.

Definition _confirm_personal_data_node (st : GraphState) : outcome GraphState :=
  if bool_decide (messages st = []) then mret st else
  let user_input := last_user_input st in
  let user_input_lower := strip (str_lower U user_input) in
  if says_yes user_input_lower then
    first_name ← split_first (dict_get_or (personal_data st) "full_name" USUARIO);
    mret (set_last_response
            (Generated (ResponseGenerator.personal_data_confirmed first_name))
            (set_current_step COLLECTING_CAR_DATA
               (set_personal_data_confirmed true st)))
  else if says_no user_input_lower then
    mret (set_last_response (Generated ResponseGenerator.personal_data_reset)
            (set_current_step COLLECTING_PERSONAL_DATA
               (set_personal_data ∅ st)))
  else
    mret (set_last_response (Generated ResponseGenerator.invalid_confirmation) st).

Definition _collect_car_data_node (st : GraphState) : outcome GraphState :=
  if bool_decide (messages st = []) then
    mret (set_last_response
            (Literal (txt "Por favor, proporciona la marca de tu auto.")) st)
  else
  let user_input := last_user_input st in
  let car_data := car_data st in
  if negb (truthy (dict_get car_data "brand")) then
    let '(brand, safety_error) := _extract_car_brand U E user_input in
    match if_str safety_error with
    | Some safety_error => mret (set_last_response (Literal safety_error) st)
    | None =>
      match if_str brand with
      | Some brand =>
        let car_data := <["brand" := PStr brand]> car_data in
        mret (set_last_response (Generated (ResponseGenerator.ask_car_brand brand))
                (set_car_data car_data st))
      | None =>
        mret (set_last_response (Generated ResponseGenerator.invalid_car_brand) st)
      end
    end
  else if negb (truthy (dict_get car_data "model")) then
    let brand := dict_get car_data "brand" in
    let '(model, safety_error) := _extract_car_model U E user_input brand in
    match if_str safety_error with
    | Some safety_error => mret (set_last_response (Literal safety_error) st)
    | None =>
      match if_str model with
      | Some model =>
        let car_data := <["model" := PStr model]> car_data in
        mret (set_last_response
                (Generated (ResponseGenerator.ask_car_model brand model))
                (set_car_data car_data st))
      | None =>
        mret (set_last_response
                (Generated (ResponseGenerator.invalid_car_model brand)) st)
      end
    end
  else if negb (truthy (dict_get car_data "year")) then
    match if_int (_extract_year U user_input) with
    | Some year =>
      if (2000 <=? year) && (year <=? 2025) then
        let car_data := <["year" := PInt year]> car_data in
        mret (set_last_response (Generated ResponseGenerator.ask_car_year)
                (set_car_data car_data st))
      else
        mret (set_last_response (Generated ResponseGenerator.invalid_car_year) st)
    | None =>
      mret (set_last_response (Generated ResponseGenerator.invalid_car_year) st)
    end
  else if negb (truthy (dict_get car_data "mileage")) then
    match if_int (_extract_mileage U user_input) with
    | Some mileage =>
      if (0 <=? mileage) && (mileage <=? 500000) then
        let car_data := <["mileage" := PInt mileage]> car_data in
        mret (set_last_response
                (Generated (ResponseGenerator.confirm_car_data car_data))
                (set_current_step CONFIRMING_CAR_DATA (set_car_data car_data st)))
      else
        mret (set_last_response (Generated ResponseGenerator.invalid_mileage) st)
    | None =>
      mret (set_last_response (Generated ResponseGenerator.invalid_mileage) st)
    end
  else mret st.

Definition _confirm_car_data_node (st : GraphState) : outcome GraphState :=
  if bool_decide (messages st = []) then mret st else
  let user_input := last_user_input st in
  let user_input_lower := strip (str_lower U user_input) in
  if says_yes user_input_lower then
    mret (set_current_step EVALUATING_ELIGIBILITY (set_car_data_confirmed true st))
  else if says_no user_input_lower then
    first_name ← split_first (dict_get_or (personal_data st) "full_name" USUARIO);
    mret (set_last_response (Generated (ResponseGenerator.car_data_reset first_name))
            (set_current_step COLLECTING_CAR_DATA (set_car_data ∅ st)))
  else
    mret (set_last_response
            (Generated ResponseGenerator.invalid_car_confirmation) st).

(** The tool checks its arguments against its signature: three integers. *)
Definition invoke_tool (birth_year car_year mileage : pyval)
    : outcome EligibilityResult :=
  match birth_year, car_year, mileage with
  | PInt b, PInt y, PInt m => mret (evaluate_eligibility (current_year E) b y m)
  | _, _, _ => Raise ValidationError
  end.

Definition MISSING_DATA : response :=
  Literal (txt "Error: Faltan datos para evaluar la elegibilidad.").

Definition _evaluate_eligibility_node (st : GraphState) : outcome GraphState :=
  let personal_data := personal_data st in
  let car_data := car_data st in
  let birth_year := dict_get personal_data "birth_year" in
  let car_year := dict_get car_data "year" in
  let mileage := dict_get car_data "mileage" in
  if negb (forallb truthy [birth_year; car_year; mileage]) then
    mret (set_last_response MISSING_DATA st)
  else
    result ← invoke_tool birth_year car_year mileage;
    mret (set_current_step COMPLETED (set_eligibility_result (Some result) st)).

Definition _completed_node (st : GraphState) : outcome GraphState :=
  let eligibility_result := eligibility_result st in
  first_name ← split_first (dict_get_or (personal_data st) "full_name" USUARIO);
  let message := Generated (ResponseGenerator.eligibility_result
                              eligibility_result first_name) in
  mret (set_last_response message st).

(** Decision functions that [_build_graph] leaves unused; they say when a
    section of the data is complete. *)
Definition _should_confirm_personal_data (st : GraphState) : bool :=
  let personal_data := personal_data st in
  truthy (dict_get personal_data "full_name")
  && truthy (dict_get personal_data "birth_year")
  && truthy (dict_get personal_data "email").

Definition _should_confirm_car_data (st : GraphState) : bool :=
  let car_data := car_data st in
  truthy (dict_get car_data "brand") && truthy (dict_get car_data "model")
  && truthy (dict_get car_data "year") && truthy (dict_get car_data "mileage").

(** [true] stands for ["evaluate"], [false] for ["continue"]. *)
Definition _after_confirm_car_data (st : GraphState) : bool :=
  car_data_confirmed st.

(** *** [_build_graph] *)

Inductive node :=
| N_router
| N_greeting
| N_collect_personal_data
| N_confirm_personal_data
| N_collect_car_data
| N_confirm_car_data
| N_evaluate_eligibility
| N_completed
| N_END.

(** [add_node] *)
Definition run_node (n : node) (st : GraphState) : outcome GraphState :=
  match n with
  | N_router => mret (_router_node st)
  | N_greeting => mret (_greeting_node st)
  | N_collect_personal_data => _collect_personal_data_node st
  | N_confirm_personal_data => _confirm_personal_data_node st
  | N_collect_car_data => _collect_car_data_node st
  | N_confirm_car_data => _confirm_car_data_node st
  | N_evaluate_eligibility => _evaluate_eligibility_node st
  | N_completed => _completed_node st
  | N_END => mret st
  end.

(** [add_edge] and [add_conditional_edges]: the node that follows [n], given
    the state [n] has produced. *)
Definition next_node (n : node) (st : GraphState) : node :=
  match n with
  | N_router =>
    match _route_by_state st with
    | GREETING => N_greeting
    | COLLECTING_PERSONAL_DATA => N_collect_personal_data
    | CONFIRMING_PERSONAL_DATA => N_confirm_personal_data
    | COLLECTING_CAR_DATA => N_collect_car_data
    | CONFIRMING_CAR_DATA => N_confirm_car_data
    | EVALUATING_ELIGIBILITY => N_evaluate_eligibility
    | COMPLETED => N_completed
    end
  | N_greeting => N_END
  | N_collect_personal_data => N_END
  | N_confirm_personal_data => N_END
  | N_collect_car_data => N_END
  | N_confirm_car_data =>
    if _after_confirm_car_data st then N_evaluate_eligibility else N_END
  | N_evaluate_eligibility => N_completed
  | N_completed => N_END
  | N_END => N_END
  end.

(** Running the compiled graph from node [n]; [limit] is the number of steps
    LangGraph still allows. *)
Fixpoint run_from (limit : nat) (n : node) (st : GraphState) : outcome GraphState :=
  match n with
  | N_END => mret st
  | _ =>
    match limit with
    | O => Raise GraphRecursionError
    | S limit' =>
      st' ← run_node n st;
      run_from limit' (next_node n st') st'
    end
  end.

(** LangGraph's default [recursion_limit]. *)
Definition RECURSION_LIMIT : nat := 25.

(** [self.graph.invoke(state)], the entry point being the router. *)
Definition invoke (st : GraphState) : outcome GraphState :=
  run_from RECURSION_LIMIT N_router st.

End Nodes.

(** ** [app/chatbot.py]: one turn

    [ChatState] is the record that is stored. Its time stamps are left out:
    no step reads them. *)
Module ChatState.
Record t := {
  conversation_id : text;
  current_step : ConversationState;
  personal_data : PersonalData.t;
  car_data : CarData.t;
  messages : list message;
  personal_data_confirmed : bool;
  car_data_confirmed : bool;
  eligibility_result : option EligibilityResult
}.

(** [ChatState(conversation_id=conversation_id)] *)
Definition fresh (conversation_id : text) : t :=
  {| conversation_id := conversation_id;
     current_step := GREETING;
     personal_data := PersonalData.empty;
     car_data := CarData.empty;
     messages := [];
     personal_data_confirmed := false;
     car_data_confirmed := false;
     eligibility_result := None |}.
End ChatState.

(** [personal_data.model_dump()] and [car_data.model_dump()]: every field is
    a key, an unset field has the value [None]. *)
Definition dump_personal_data (p : PersonalData.t) : gmap string pyval :=
  <["full_name" := of_opt_str (PersonalData.full_name p)]>
    (<["birth_year" := of_opt_int (PersonalData.birth_year p)]>
       (<["email" := of_opt_str (PersonalData.email p)]> ∅)).

Definition dump_car_data (c : CarData.t) : gmap string pyval :=
  <["brand" := of_opt_str (CarData.brand c)]>
    (<["model" := of_opt_str (CarData.model c)]>
       (<["year" := of_opt_int (CarData.year c)]>
          (<["mileage" := of_opt_int (CarData.mileage c)]> ∅))).

(** Validation of one field by pydantic. The nodes only ever store a string
    under a string field and an integer under an integer field, so the
    refusals are never met from a stored record. *)
Definition as_opt_str (v : pyval) : outcome (option text) :=
  match v with
  | PNone => mret None
  | PStr s => mret (Some s)
  | PInt _ => Raise ValidationError
  end.

Definition as_opt_int (v : pyval) : outcome (option Z) :=
  match v with
  | PNone => mret None
  | PInt z => mret (Some z)
  | PStr _ => Raise ValidationError
  end.

(** [PersonalData] and [CarData] built from the keys of a dictionary: a
    missing key leaves the default [None]. *)
Definition load_personal_data (d : gmap string pyval) : outcome PersonalData.t :=
  full_name ← as_opt_str (dict_get d "full_name");
  birth_year ← as_opt_int (dict_get d "birth_year");
  email ← as_opt_str (dict_get d "email");
  mret {| PersonalData.full_name := full_name;
          PersonalData.birth_year := birth_year;
          PersonalData.email := email |}.

Definition load_car_data (d : gmap string pyval) : outcome CarData.t :=
  brand ← as_opt_str (dict_get d "brand");
  model ← as_opt_str (dict_get d "model");
  year ← as_opt_int (dict_get d "year");
  mileage ← as_opt_int (dict_get d "mileage");
  mret {| CarData.brand := brand; CarData.model := model;
          CarData.year := year; CarData.mileage := mileage |}.

Definition _chat_state_to_graph_state (chat_state : ChatState.t) : GraphState :=
  {| messages := ChatState.messages chat_state;
     conversation_id := ChatState.conversation_id chat_state;
     current_step := ChatState.current_step chat_state;
     personal_data := dump_personal_data (ChatState.personal_data chat_state);
     car_data := dump_car_data (ChatState.car_data chat_state);
     personal_data_confirmed := ChatState.personal_data_confirmed chat_state;
     car_data_confirmed := ChatState.car_data_confirmed chat_state;
     eligibility_result := ChatState.eligibility_result chat_state;
     last_response := Literal [] |}.

Definition _graph_state_to_chat_state (graph_state : GraphState)
    : outcome ChatState.t :=
  let messages := messages graph_state in
  personal_data ← load_personal_data (personal_data graph_state);
  car_data ← load_car_data (car_data graph_state);
  let response := last_response graph_state in
  let messages :=
    if response_truthy response then messages ++ [AIMessage response]
    else messages in
  mret {| ChatState.conversation_id := conversation_id graph_state;
          ChatState.current_step := current_step graph_state;
          ChatState.personal_data := personal_data;
          ChatState.car_data := car_data;
          ChatState.messages := messages;
          ChatState.personal_data_confirmed := personal_data_confirmed graph_state;
          ChatState.car_data_confirmed := car_data_confirmed graph_state;
          ChatState.eligibility_result := eligibility_result graph_state |}.

(** [chat_state.messages.append({"role": "user", "content": user_input})] *)
Definition with_user_message (chat_state : ChatState.t) (user_input : text)
    : ChatState.t :=
  {| ChatState.conversation_id := ChatState.conversation_id chat_state;
     ChatState.current_step := ChatState.current_step chat_state;
     ChatState.personal_data := ChatState.personal_data chat_state;
     ChatState.car_data := ChatState.car_data chat_state;
     ChatState.messages :=
       ChatState.messages chat_state ++ [HumanMessage user_input];
     ChatState.personal_data_confirmed :=
       ChatState.personal_data_confirmed chat_state;
     ChatState.car_data_confirmed := ChatState.car_data_confirmed chat_state;
     ChatState.eligibility_result := ChatState.eligibility_result chat_state |}.

(** The state the graph is invoked on in a turn. *)
Definition turn_state (chat_state : ChatState.t) (user_input : text) : GraphState :=
  _chat_state_to_graph_state (with_user_message chat_state user_input).

(** [process_message] between the load and the save of the record: the
    user's message is appended, the graph runs once, and the new record
    comes back with the response of the turn. *)
Definition process_message (U : unicode) (E : env)
    (chat_state : ChatState.t) (user_input : text)
    : outcome (ChatState.t * response) :=
  let graph_state := turn_state chat_state user_input in
  final_graph_state ← invoke U E graph_state;
  updated_chat_state ← _graph_state_to_chat_state final_graph_state;
  mret (updated_chat_state, last_response final_graph_state).

(** ** A Unicode table for closed examples

    [latin1] follows CPython on texts whose code points are below 256, the
    range of the examples; above, it maps every character to itself and
    knows no letter or digit. *)
Definition lower_char (c : N) : N :=
  if (in_range 65 90 c || in_range 192 214 c || in_range 216 222 c)%bool
  then (c + 32)%N else c.

Definition upper_char (c : N) : list N :=
  if (in_range 97 122 c || in_range 224 246 c || in_range 248 254 c)%bool
  then [(c - 32)%N]
  else if (c =? 223)%N then [83; 83]%N
  else if (c =? 255)%N then [376%N]
  else if (c =? 181)%N then [924%N]
  else [c].

Definition title_char (c : N) : list N :=
  if (c =? 223)%N then [83; 115]%N else upper_char c.

Definition latin1_word (c : N) : bool :=
  bool_decide (c ∈ [170; 178; 179; 181; 185; 186; 188; 189; 190]%N)
  || in_range 192 214 c || in_range 216 246 c || in_range 248 255 c.

Definition latin1 : unicode :=
  {| str_lower := map lower_char;
     str_upper := fun s => concat (map upper_char s);
     str_capitalize := fun s =>
       match s with
       | [] => []
       | c :: s' => title_char c ++ map lower_char s'
       end;
     uni_isword := latin1_word;
     uni_digit := fun _ => None |}.

(** ** Closed examples: an environment and records of a conversation *)

(** A language model that finds every input safe, reads the name
    "Juan Pérez", the brand "toyota" and the model "Corolla". *)
Definition demo_env : env :=
  {| llm := fun p =>
       match p with
       | SafetyPrompt _ => LLMContent (txt "SEGURO")
       | FullNamePrompt _ => LLMContent (txt " Juan  Pérez ")
       | CarBrandPrompt _ => LLMContent (txt "toyota")
       | CarModelPrompt _ _ => LLMContent (txt "Corolla")
       end;
     current_year := 2026 |}.

(** A language model that is unreachable. *)
Definition failing_env : env :=
  {| llm := fun _ => LLMFailure; current_year := 2026 |}.

Definition juan : PersonalData.t :=
  {| PersonalData.full_name := Some (txt "Juan Pérez");
     PersonalData.birth_year := Some 1990;
     PersonalData.email := Some (txt "juan@x.com") |}.

Definition corolla : CarData.t :=
  {| CarData.brand := Some (txt "Toyota");
     CarData.model := Some (txt "Corolla");
     CarData.year := Some 2020;
     CarData.mileage := Some 45000 |}.

Definition corolla_without_mileage : CarData.t :=
  {| CarData.brand := Some (txt "Toyota");
     CarData.model := Some (txt "Corolla");
     CarData.year := Some 2020;
     CarData.mileage := None |}.

(** A car that has not run yet: every field is set, the mileage is 0. *)
Definition corolla_zero_mileage : CarData.t :=
  {| CarData.brand := Some (txt "Toyota");
     CarData.model := Some (txt "Corolla");
     CarData.year := Some 2020;
     CarData.mileage := Some 0 |}.

(** Personal data without a name, and with a name made of one space. *)
Definition nameless : PersonalData.t :=
  {| PersonalData.full_name := None;
     PersonalData.birth_year := Some 1990;
     PersonalData.email := Some (txt "juan@x.com") |}.

Definition blank_name : PersonalData.t :=
  {| PersonalData.full_name := Some (txt " ");
     PersonalData.birth_year := Some 1990;
     PersonalData.email := Some (txt "juan@x.com") |}.

(** A stored record at step [step]. *)
Definition record_at (step : ConversationState) (p : PersonalData.t)
    (c : CarData.t) (personal_confirmed car_confirmed : bool)
    (result : option EligibilityResult) : ChatState.t :=
  {| ChatState.conversation_id := txt "c-1";
     ChatState.current_step := step;
     ChatState.personal_data := p;
     ChatState.car_data := c;
     ChatState.messages := [];
     ChatState.personal_data_confirmed := personal_confirmed;
     ChatState.car_data_confirmed := car_confirmed;
     ChatState.eligibility_result := result |}.

(** ** Notions of the specification *)

(** [r.startswith("✓")], the test consumers use to tell the criteria that are
    met from those that are not. *)
Definition has_check_mark (r : text) : bool := startswith r CHECK_MARK.

(** [tok] occurs in [s]. *)
Definition contains (tok s : text) : Prop := ∃ a b, s = a ++ tok ++ b.

(** The affirmative tokens and the negative one. *)
Definition AFFIRMATIVE : list text :=
  [txt "sí"; txt "si"; txt "correcto"; txt "yes"; txt "ok"].

Definition NEGATIVE : text := txt "no".

(** An input is affirmative when its lowercased text contains one of the
    affirmative tokens, negative when it contains none of them and contains
    the negative one. *)
Definition affirmative (U : unicode) (user_input : text) : Prop :=
  ∃ tok, tok ∈ AFFIRMATIVE ∧ contains tok (str_lower U user_input).

Definition negative (U : unicode) (user_input : text) : Prop :=
  ¬ affirmative U user_input ∧ contains NEGATIVE (str_lower U user_input).

(** A field counts as missing when it is unset or holds the empty string or
    zero: this is what [not d.get(key)] tests. *)
Definition missing_str (o : option text) : bool := negb (truthy (of_opt_str o)).

Definition missing_int (o : option Z) : bool := negb (truthy (of_opt_int o)).

(** The fields of the personal data, in the order of the specification. *)
Inductive personal_field := F_full_name | F_birth_year | F_email.

Definition personal_field_missing (p : PersonalData.t) (f : personal_field) : bool :=
  match f with
  | F_full_name => missing_str (PersonalData.full_name p)
  | F_birth_year => missing_int (PersonalData.birth_year p)
  | F_email => missing_str (PersonalData.email p)
  end.

(** The value a field holds, as the dictionary has it. *)
Definition personal_field_value (p : PersonalData.t) (f : personal_field) : pyval :=
  match f with
  | F_full_name => of_opt_str (PersonalData.full_name p)
  | F_birth_year => of_opt_int (PersonalData.birth_year p)
  | F_email => of_opt_str (PersonalData.email p)
  end.

(** The first missing field in the fixed order full name, birth year,
    email. *)
Definition first_missing (p : PersonalData.t) : option personal_field :=
  find (personal_field_missing p) [F_full_name; F_birth_year; F_email].

(** The first name of a stored full name: its first word. *)
Definition first_name_of (p : PersonalData.t) : option text :=
  match PersonalData.full_name p with
  | Some n => head (split n)
  | None => None
  end.

(** The test of [_should_confirm_personal_data] and of
    [_should_confirm_car_data]: each field of the section is truthy, that
    is, set and neither the empty string nor zero. A field that is set to
    zero does not pass it. *)
Definition personal_complete (p : PersonalData.t) : bool :=
  negb (missing_str (PersonalData.full_name p))
  && negb (missing_int (PersonalData.birth_year p))
  && negb (missing_str (PersonalData.email p)).

Definition car_complete (c : CarData.t) : bool :=
  negb (missing_str (CarData.brand c)) && negb (missing_str (CarData.model c))
  && negb (missing_int (CarData.year c)) && negb (missing_int (CarData.mileage c)).

(** Two records that differ at most by their messages. *)
Definition same_data (a b : ChatState.t) : Prop :=
  ChatState.conversation_id a = ChatState.conversation_id b
  ∧ ChatState.current_step a = ChatState.current_step b
  ∧ ChatState.personal_data a = ChatState.personal_data b
  ∧ ChatState.car_data a = ChatState.car_data b
  ∧ ChatState.personal_data_confirmed a = ChatState.personal_data_confirmed b
  ∧ ChatState.car_data_confirmed a = ChatState.car_data_confirmed b
  ∧ ChatState.eligibility_result a = ChatState.eligibility_result b.

(** The shape of a text matched by a pattern: the literals chosen and the
    runs read, atom after atom. *)
Fixpoint shaped (re : list atom) (m : text) : Prop :=
  match re with
  | [] => m = []
  | Boundary :: re' => shaped re' m
  | Alt alts :: re' => ∃ lit m', lit ∈ alts ∧ m = lit ++ m' ∧ shaped re' m'
  | Rep cls lo hi :: re' =>
    ∃ run m',
      m = run ++ m'
      ∧ Forall (λ c, cls c = true) run
      ∧ (lo ≤ length run)%nat
      ∧ (∀ h, hi = Some h → (length run ≤ h)%nat)
      ∧ shaped re' m'
  end.

(** A conversation: the turns on the inputs, one after the other. *)
Fixpoint turns (U : unicode) (E : env) (cs : ChatState.t) (inputs : list string)
    : outcome ChatState.t :=
  match inputs with
  | [] => Return cs
  | user_input :: inputs' =>
    '(cs', _) ← process_message U E cs (txt user_input);
    turns U E cs' inputs'
  end.

(** The records a conversation can reach: a fresh record, and the record a
    turn returns from one that is reached, whatever the user writes and the
    language model answers. *)
Inductive reachable (U : unicode) : ChatState.t → Prop :=
| reachable_fresh (conversation_id : text) :
    reachable U (ChatState.fresh conversation_id)
| reachable_turn (E : env) (cs cs' : ChatState.t)
    (user_input : text) (r : response) :
    reachable U cs →
    process_message U E cs user_input = Return (cs', r) →
    reachable U cs'.

(** The rank of a step in the order of the dialogue. *)
Definition stage (step : ConversationState) : nat :=
  match step with
  | GREETING => 0
  | COLLECTING_PERSONAL_DATA => 1
  | CONFIRMING_PERSONAL_DATA => 2
  | COLLECTING_CAR_DATA => 3
  | CONFIRMING_CAR_DATA => 4
  | EVALUATING_ELIGIBILITY => 5
  | COMPLETED => 6
  end.

(** A stored full name has at least two words. *)
Definition name_ok (o : option text) : Prop :=
  match o with
  | Some name => (2 ≤ length (split name))%nat
  | None => True
  end.

(** What holds of every record a conversation reaches. *)
Definition consistent (cs : ChatState.t) : Prop :=
  let k := stage (ChatState.current_step cs) in
  name_ok (PersonalData.full_name (ChatState.personal_data cs))
  ∧ ((2 ≤ k)%nat → personal_complete (ChatState.personal_data cs) = true)
  ∧ ((4 ≤ k)%nat → car_complete (ChatState.car_data cs) = true)
  ∧ (k = 6%nat → is_Some (ChatState.eligibility_result cs))
  ∧ k ≠ 5%nat
  ∧ ChatState.personal_data_confirmed cs = bool_decide (3 ≤ k)%nat
  ∧ ChatState.car_data_confirmed cs = bool_decide (6 ≤ k)%nat.

(** A word: a non-empty text without whitespace. *)
Definition is_word_text (w : text) : Prop :=
  w ≠ [] ∧ Forall (λ c, isspace c = false) w.

(** The separator of [' '.join]. *)
Definition SPACE : text := Eval vm_compute in txt " ".

(** The decimal digits of the Unicode database have the values 0 to 9. *)
Definition decimal_digits (U : unicode) : Prop :=
  ∀ c d, uni_digit U c = Some d → 0 ≤ d ≤ 9.

(** The steps a turn can lead to from a step. *)
Definition step_allowed (from to : ConversationState) : bool :=
  match from, to with
  | GREETING, COLLECTING_PERSONAL_DATA => true
  | COLLECTING_PERSONAL_DATA, (COLLECTING_PERSONAL_DATA | CONFIRMING_PERSONAL_DATA) => true
  | CONFIRMING_PERSONAL_DATA,
    (CONFIRMING_PERSONAL_DATA | COLLECTING_CAR_DATA | COLLECTING_PERSONAL_DATA) => true
  | COLLECTING_CAR_DATA, (COLLECTING_CAR_DATA | CONFIRMING_CAR_DATA) => true
  | CONFIRMING_CAR_DATA,
    (CONFIRMING_CAR_DATA | EVALUATING_ELIGIBILITY | COMPLETED | COLLECTING_CAR_DATA) => true
  | EVALUATING_ELIGIBILITY, (EVALUATING_ELIGIBILITY | COMPLETED) => true
  | COMPLETED, COMPLETED => true
  | _, _ => false
  end.

(** The language model answers nothing: every call raises. *)
Definition llm_down (E : env) : Prop := ∀ p, llm E p = LLMFailure.

(** The language model flags the input: its reply to the safety prompt,
    trimmed and in upper case, starts with the unsafe marker. *)
Definition flagged (U : unicode) (E : env) (user_input : text) : Prop :=
  ∃ content,
    llm E (SafetyPrompt user_input) = LLMContent content
    ∧ startswith (str_upper U (strip content)) (txt "INSEGURO") = true.

(** A language model that flags every input as an insult. *)
Definition strict_env : env :=
  {| llm := fun p =>
       match p with
       | SafetyPrompt _ => LLMContent (txt "inseguro| insulto ")
       | _ => LLMContent (txt "Juan Pérez")
       end;
     current_year := 2026 |}.

(** The fields of the car data, in the order the node asks for them. *)
Inductive car_field := F_brand | F_model | F_year | F_mileage.

Definition car_field_missing (c : CarData.t) (f : car_field) : bool :=
  match f with
  | F_brand => missing_str (CarData.brand c)
  | F_model => missing_str (CarData.model c)
  | F_year => missing_int (CarData.year c)
  | F_mileage => missing_int (CarData.mileage c)
  end.

Definition first_missing_car (c : CarData.t) : option car_field :=
  find (car_field_missing c) [F_brand; F_model; F_year; F_mileage].

Definition car_field_value (c : CarData.t) (f : car_field) : pyval :=
  match f with
  | F_brand => of_opt_str (CarData.brand c)
  | F_model => of_opt_str (CarData.model c)
  | F_year => of_opt_int (CarData.year c)
  | F_mileage => of_opt_int (CarData.mileage c)
  end.

(** The values a conversation stores are those the nodes accept. *)
Definition valid_personal (p : PersonalData.t) : Prop :=
  name_ok (PersonalData.full_name p)
  ∧ (∀ b, PersonalData.birth_year p = Some b → 1900 ≤ b ≤ 2010)
  ∧ (∀ e, PersonalData.email p = Some e → e ≠ []).

Definition valid_car (c : CarData.t) : Prop :=
  (∀ b, CarData.brand c = Some b → b ≠ [])
  ∧ (∀ m, CarData.model c = Some m → m ≠ [])
  ∧ (∀ y, CarData.year c = Some y → 2000 ≤ y ≤ 2025)
  ∧ (∀ m, CarData.mileage c = Some m → 0 ≤ m ≤ 500000).

(** A result is stored exactly at step COMPLETED, and it is the result of
    the eligibility rule on the stored data, in the year of the evaluation. *)
Definition decided (cs : ChatState.t) : Prop :=
  match ChatState.eligibility_result cs with
  | Some result =>
    ChatState.current_step cs = COMPLETED
    ∧ ∃ year b y m,
        PersonalData.birth_year (ChatState.personal_data cs) = Some b
        ∧ CarData.year (ChatState.car_data cs) = Some y
        ∧ CarData.mileage (ChatState.car_data cs) = Some m
        ∧ result = evaluate_eligibility year b y m
  | None => ChatState.current_step cs ≠ COMPLETED
  end.

Definition valid (cs : ChatState.t) : Prop :=
  valid_personal (ChatState.personal_data cs)
  ∧ valid_car (ChatState.car_data cs)
  ∧ decided cs.

(** The records of a conversation during which the clock shows [year]:
    [datetime.now().year] is [year] at every turn. *)
Inductive reachable_in (U : unicode) (year : Z) : ChatState.t → Prop :=
| reachable_in_fresh (conversation_id : text) :
    reachable_in U year (ChatState.fresh conversation_id)
| reachable_in_turn (E : env) (cs cs' : ChatState.t)
    (user_input : text) (r : response) :
    reachable_in U year cs →
    current_year E = year →
    process_message U E cs user_input = Return (cs', r) →
    reachable_in U year cs'.

(** A result is stored exactly at step COMPLETED, and it is the result of
    the eligibility rule on the stored data for the year [year]. *)
Definition decided_in (year : Z) (cs : ChatState.t) : Prop :=
  match ChatState.eligibility_result cs with
  | Some result =>
    ChatState.current_step cs = COMPLETED
    ∧ ∃ b y m,
        PersonalData.birth_year (ChatState.personal_data cs) = Some b
        ∧ CarData.year (ChatState.car_data cs) = Some y
        ∧ CarData.mileage (ChatState.car_data cs) = Some m
        ∧ result = evaluate_eligibility year b y m
  | None => ChatState.current_step cs ≠ COMPLETED
  end.

(** ** [app/database.py]

    The database is kept as what its queries read: the table
    [conversations] as a map from the primary key to the row, the table
    [messages] as its rows in the order of [message_id], which is the order
    of insertion. The time stamps are left out, as in [ChatState]; the
    column [current_step] holds the member of the enumeration whose value
    the stored string is. The connection never enables foreign keys, so
    replacing a row of [conversations] leaves [messages] alone. *)

#[global] Instance pyval_eq_dec : EqDecision pyval.
Proof. solve_decision. Defined.

(** [model_dump(exclude_none=True)], from [model_dump()]. *)
Definition exclude_none (d : gmap string pyval) : gmap string pyval :=
  filter (λ kv, kv.2 ≠ PNone) d.

(** Truth value of a dictionary and of a column of type TEXT. *)
Definition dict_truthy (d : gmap string pyval) : bool :=
  negb (bool_decide (d = ∅)).

Definition column_truthy (o : option text) : bool :=
  match o with
  | Some s => truthy (PStr s)
  | None => false
  end.

(** The libraries under the database: [json.dumps] and [json.loads] on the
    dictionaries of the data and on the dictionary of a result, the Fernet
    cipher of the key of the database, whose encryption draws an
    initialisation vector, and base 64. [None] stands for an exception.
    Strings and byte strings are both sequences of code points: the
    encodings between them act on ASCII only. *)
Record libraries := {
  json_dumps : gmap string pyval → text;
  json_loads : text → option (gmap string pyval);
  json_dumps_result : EligibilityResult → text;
  json_loads_result : text → option (option EligibilityResult);
  cipher_encrypt : N → text → text;
  cipher_decrypt : text → option text;
  b64encode : text → text;
  b64decode : text → option text
}.

(** [bool(v)] for a column of type INTEGER. *)
Definition bool_of_int (z : Z) : bool := negb (z =? 0)%Z.

Definition option_of_outcome {A} (m : outcome A) : option A :=
  match m with
  | Return a => Some a
  | Raise _ => None
  end.

Module Database.

Record row := {
  current_step : ConversationState;
  encrypted_personal_data : option text;
  encrypted_car_data : option text;
  personal_data_confirmed : Z;
  car_data_confirmed : Z;
  eligibility_result : option text
}.

Record t := {
  conversations : gmap text row;
  messages : list (text * message)
}.

(** The tables [_init_database] creates. *)
Definition empty : t := {| conversations := ∅; messages := [] |}.

(** [SELECT role, content FROM messages WHERE conversation_id = ?
    ORDER BY message_id ASC] *)
Definition messages_of (db : t) (conversation_id : text) : list message :=
  (filter (λ m, m.1 = conversation_id) (messages db)).*2.

Definition _encrypt_pii (L : libraries) (iv : N) (data : gmap string pyval)
    : option text :=
  if negb (dict_truthy data) then None
  else
    let json_data := json_dumps L data in
    let encrypted := cipher_encrypt L iv json_data in
    Some (b64encode L encrypted).

Definition _decrypt_pii (L : libraries) (encrypted_data : option text)
    : option (gmap string pyval) :=
  if negb (column_truthy encrypted_data) then Some ∅
  else
    encrypted_bytes ← b64decode L (default [] encrypted_data);
    decrypted ← cipher_decrypt L encrypted_bytes;
    json_loads L decrypted.

(** [iv_personal] and [iv_car] are what the two encryptions draw. *)
Definition save_conversation (L : libraries) (db : t) (iv_personal iv_car : N)
    (state : ChatState.t) : t :=
  let personal_data_dict :=
    exclude_none (dump_personal_data (ChatState.personal_data state)) in
  let car_data_dict := exclude_none (dump_car_data (ChatState.car_data state)) in
  let encrypted_personal :=
    if dict_truthy personal_data_dict
    then _encrypt_pii L iv_personal personal_data_dict else None in
  let encrypted_car :=
    if dict_truthy car_data_dict
    then _encrypt_pii L iv_car car_data_dict else None in
  let eligibility_json :=
    match ChatState.eligibility_result state with
    | Some result => Some (json_dumps_result L result)
    | None => None
    end in
  let conversations :=
    <[ChatState.conversation_id state :=
        {| current_step := ChatState.current_step state;
           encrypted_personal_data := encrypted_personal;
           encrypted_car_data := encrypted_car;
           personal_data_confirmed :=
             if ChatState.personal_data_confirmed state then 1%Z else 0%Z;
           car_data_confirmed :=
             if ChatState.car_data_confirmed state then 1%Z else 0%Z;
           eligibility_result := eligibility_json |}]> (conversations db) in
  let existing_count :=
    length (messages_of db (ChatState.conversation_id state)) in
  let new_messages := drop existing_count (ChatState.messages state) in
  {| conversations := conversations;
     messages :=
       messages db
       ++ ((λ msg, (ChatState.conversation_id state, msg)) <$> new_messages) |}.

(** What [load_conversation] does: it returns a record, returns [None], or
    lets an exception of the cipher, of the JSON parser or of pydantic
    through. *)
Inductive load_result :=
| Found (state : ChatState.t)
| NotFound
| LoadError.

Definition load_conversation (L : libraries) (db : t) (conversation_id : text)
    : load_result :=
  match conversations db !! conversation_id with
  | None => NotFound
  | Some row =>
    let messages := messages_of db conversation_id in
    let loaded :=
      personal_data ←
        (if column_truthy (encrypted_personal_data row)
         then d ← _decrypt_pii L (encrypted_personal_data row);
              option_of_outcome (load_personal_data d)
         else Some PersonalData.empty);
      car_data ←
        (if column_truthy (encrypted_car_data row)
         then d ← _decrypt_pii L (encrypted_car_data row);
              option_of_outcome (load_car_data d)
         else Some CarData.empty);
      eligibility ←
        (if column_truthy (eligibility_result row)
         then json_loads_result L (default [] (eligibility_result row))
         else Some None);
      Some {| ChatState.conversation_id := conversation_id;
              ChatState.current_step := current_step row;
              ChatState.personal_data := personal_data;
              ChatState.car_data := car_data;
              ChatState.messages := messages;
              ChatState.personal_data_confirmed :=
                bool_of_int (personal_data_confirmed row);
              ChatState.car_data_confirmed :=
                bool_of_int (car_data_confirmed row);
              ChatState.eligibility_result := eligibility |} in
    match loaded with
    | Some state => Found state
    | None => LoadError
    end
  end.

(** The database after the two deletions, and [cursor.rowcount > 0] for
    the second. *)
Definition delete_conversation (db : t) (conversation_id : text) : t * bool :=
  ({| conversations := delete conversation_id (conversations db);
      messages := filter (λ m, m.1 ≠ conversation_id) (messages db) |},
   bool_decide (is_Some (conversations db !! conversation_id))).

End Database.

(** The libraries do what they are for: what is written is read back, and
    a token and the JSON of a result are not the empty string. *)
Definition sound (L : libraries) : Prop :=
  (∀ d, json_loads L (json_dumps L d) = Some d)
  ∧ (∀ result, json_loads_result L (json_dumps_result L result) = Some (Some result))
  ∧ (∀ iv b, cipher_decrypt L (cipher_encrypt L iv b) = Some b)
  ∧ (∀ b, b64decode L (b64encode L b) = Some b)
  ∧ (∀ iv b, b64encode L (cipher_encrypt L iv b) ≠ [])
  ∧ (∀ result, json_dumps_result L result ≠ []).

(** No message is stored for a conversation that has no row. *)
Definition no_orphans (db : Database.t) : Prop :=
  ∀ conversation_id,
    Database.conversations db !! conversation_id = None →
    Database.messages_of db conversation_id = [].

(** Libraries for closed examples: the JSON of a value is its code, the
    cipher puts the initialisation vector in front, base 64 does nothing. *)
#[global] Instance pyval_countable : Countable pyval.
Proof.
  refine (inj_countable'
    (λ v, match v with
          | PNone => inl ()
          | PStr s => inr (inl s)
          | PInt z => inr (inr z)
          end)
    (λ x, match x with
          | inl _ => PNone
          | inr (inl s) => PStr s
          | inr (inr z) => PInt z
          end) _).
  by intros [].
Defined.

#[global] Instance EligibilityResult_eq_dec : EqDecision EligibilityResult.
Proof. solve_decision. Defined.

#[global] Instance EligibilityResult_countable : Countable EligibilityResult.
Proof.
  refine (inj_countable'
    (λ r, (is_eligible r, reasons r, age r, car_age_ok r, mileage_ok r))
    (λ x, let '(e, rs, a, c, m) := x in
          {| is_eligible := e; reasons := rs; age := a;
             car_age_ok := c; mileage_ok := m |}) _).
  by intros [].
Defined.

Definition plain_libraries : libraries :=
  {| json_dumps := λ d, [Npos (encode d)];
     json_loads := λ s, match s with [Npos p] => decode p | _ => None end;
     json_dumps_result := λ r, [Npos (encode r)];
     json_loads_result :=
       λ s, match s with [Npos p] => Some <$> decode p | _ => None end;
     cipher_encrypt := λ iv b, iv :: b;
     cipher_decrypt := λ b, match b with _ :: b' => Some b' | [] => None end;
     b64encode := λ b, b;
     b64decode := λ s, Some s |}.

(** ** [app/responses.py]: the texts

    The generator with its two settings; [llm_provider] is the [invoke] of
    the provider on one message, when there is a provider. A rendering that
    raises ([AttributeError] for the lower case of a number, [ValueError]
    or [TypeError] for the grouping of the thousands of a string or of
    [None]) is [None]. *)
Module Render.

Record generator := {
  use_llm_responses : bool;
  llm_provider : option (text → llm_reply)
}.

Definition NEWLINE : text := [10%N].

(** The prompt of [_generate_with_llm]. *)
Definition generation_prompt (context : text) : text :=
  txt "Eres un asistente virtual amable de KoolKars que ayuda a validar la elegibilidad de autos." ++ NEWLINE ++ txt "Genera una respuesta natural y amigable basada en el siguiente contexto:" ++ NEWLINE ++ NEWLINE ++ context ++ NEWLINE ++ NEWLINE ++ txt "IMPORTANTE: Mantén la respuesta breve, amigable y profesional. No agregues información extra." ++ NEWLINE ++ NEWLINE ++ txt "Respuesta:".

Definition _generate_with_llm (G : generator) (context default_response : text)
    : text :=
  if negb (use_llm_responses G) || negb (bool_decide (is_Some (llm_provider G)))
  then default_response
  else
    match llm_provider G with
    | Some invoke =>
      match invoke (generation_prompt context) with
      | LLMContent content =>
        let generated := strip content in
        if truthy (PStr generated) then generated else default_response
      | LLMFailure => default_response
      end
    | None => default_response
    end.

Definition greeting (G : generator) : text :=
  let default :=
    txt "¡Hola! Soy el asistente virtual de KoolKars. Estoy aquí para ayudarte a validar la elegibilidad de tu auto para nuestro producto. Antes de empezar, ¿podrías darme tu nombre completo?" in
  let context :=
    txt "El usuario acaba de iniciar la conversación. Debes saludarlo, presentarte como asistente de KoolKars, explicar que ayudarás a validar la elegibilidad de su auto, y pedirle su nombre completo." in
  _generate_with_llm G context default.

Definition ask_birth_year (G : generator) (first_name : text) : text :=
  if truthy (PStr first_name) then
    let default :=
      txt "Gracias, " ++ first_name ++ txt ". Ahora, ¿cuál es tu año de nacimiento?" in
    let context :=
      txt "El usuario se llama " ++ first_name ++ txt ". Agradécele y pídele su año de nacimiento." in
    _generate_with_llm G context default
  else
    let default :=
      txt "Ahora, ¿cuál es tu año de nacimiento?" in
    let context :=
      txt "Pídele al usuario su año de nacimiento." in
    _generate_with_llm G context default.

Definition ask_email (G : generator) : text :=
  let default :=
    txt "Entendido. Finalmente, para enviarte el resumen de tu cotización, ¿cuál es tu dirección de correo electrónico?" in
  let context :=
    txt "El usuario ya dio su año de nacimiento. Pídele su correo electrónico para enviarle el resumen de cotización." in
  _generate_with_llm G context default.

Definition confirm_personal_data (G : generator) (personal_data : gmap string pyval)
    : text :=
  let name := dict_get_or personal_data "full_name" (PStr []) in
  let birth_year := dict_get_or personal_data "birth_year" (PStr []) in
  let email := dict_get_or personal_data "email" (PStr []) in
  let default :=
    txt "Perfecto! Entonces tengo: nombre " ++ py_str name ++ txt ", año de nacimiento " ++ py_str birth_year ++ txt " y email " ++ py_str email ++ txt ". Esta todo correcto?" in
  let context :=
    txt "Confirma los datos personales: nombre=" ++ py_str name ++ txt ", año de nacimiento=" ++ py_str birth_year ++ txt ", email=" ++ py_str email ++ txt ". Pregunta si son correctos." in
  _generate_with_llm G context default.

Definition personal_data_confirmed (G : generator) (first_name : text) : text :=
  let default :=
    txt "Perfecto, " ++ first_name ++ txt ". Ya tengo tus datos personales. Ahora necesito información sobre tu vehículo. Para empezar, ¿cuál es la marca de tu auto? (Ejemplo: Toyota, Ford, Nissan)" in
  let context :=
    txt "El usuario " ++ first_name ++ txt " confirmó sus datos personales. Ahora debes pedirle información sobre su vehículo, empezando por la marca del auto." in
  _generate_with_llm G context default.

Definition personal_data_reset : text :=
  txt "De acuerdo, empecemos de nuevo. ¿Cuál es tu nombre completo?".

Definition brand_models : list (text * text) :=
  [(txt "toyota", txt "Corolla, Camry, RAV4");
   (txt "honda", txt "Civic, CR-V, Accord");
   (txt "ford", txt "Focus, Mustang, F-150");
   (txt "chevrolet", txt "Cruze, Spark, Silverado");
   (txt "nissan", txt "Sentra, Versa, Altima");
   (txt "volkswagen", txt "Golf, Jetta, Tiguan");
   (txt "hyundai", txt "Elantra, Tucson, Santa Fe");
   (txt "kia", txt "Rio, Sportage, Sorento");
   (txt "mazda", txt "Mazda3, CX-5, CX-30");
   (txt "bmw", txt "Serie 3, X3, X5");
   (txt "mercedes-benz", txt "Clase C, Clase E, GLC");
   (txt "mercedes", txt "Clase C, Clase E, GLC");
   (txt "audi", txt "A3, A4, Q5");
   (txt "subaru", txt "Impreza, Outback, Forester");
   (txt "jeep", txt "Wrangler, Cherokee, Grand Cherokee");
   (txt "dodge", txt "Charger, Challenger, Durango");
   (txt "ram", txt "1500, 2500, 3500");
   (txt "fiat", txt "500, Cronos, Pulse");
   (txt "renault", txt "Sandero, Duster, Kwid");
   (txt "peugeot", txt "208, 308, 2008");
   (txt "citroen", txt "C3, C4, Berlingo");
   (txt "mitsubishi", txt "Lancer, Outlander, L200");
   (txt "suzuki", txt "Swift, Vitara, Jimny");
   (txt "lexus", txt "IS, ES, RX");
   (txt "infiniti", txt "Q50, Q60, QX50");
   (txt "acura", txt "TLX, MDX, RDX");
   (txt "volvo", txt "S60, XC60, XC90");
   (txt "land rover", txt "Range Rover, Discovery, Defender");
   (txt "porsche", txt "911, Cayenne, Macan");
   (txt "tesla", txt "Model 3, Model Y, Model S");
   (txt "mini", txt "Cooper, Countryman, Clubman");
   (txt "seat", txt "Ibiza, León, Arona")].

(** [d.get(k)] for a dictionary of strings written as its items. *)
Definition items_get (d : list (text * text)) (k : text) : option text :=
  snd <$> find (λ kv, bool_decide (kv.1 = k)) d.

Definition _get_model_examples (U : unicode) (brand : pyval)
    : option (option text) :=
  if truthy brand then
    match brand with
    | PStr s => Some (items_get brand_models (str_lower U s))
    | _ => None
    end
  else Some None.

Definition ask_car_brand (U : unicode) (brand : text) : option text :=
  if truthy (PStr brand) then
    examples ← _get_model_examples U (PStr brand);
    match examples with
    | Some examples =>
      if truthy (PStr examples) then
        Some (txt "¿Y cuál es el modelo exacto de tu " ++ brand ++ txt "? (Ejemplo: " ++ examples ++ txt ")")
      else Some (txt "¿Y cuál es el modelo exacto de tu " ++ brand ++ txt "?")
    | None => Some (txt "¿Y cuál es el modelo exacto de tu " ++ brand ++ txt "?")
    end
  else Some (txt "¿Y cuál es el modelo exacto de tu auto?").

Definition ask_car_model (brand : pyval) (model : text) : text :=
  if truthy (PStr model) then
    txt "Excelente. ¿Qué año es tu " ++ py_str brand ++ txt " " ++ model ++ txt "?"
  else txt "Excelente. ¿Qué año es tu " ++ py_str brand ++ txt "?".

Definition ask_car_year : text :=
  txt "Por último, ¿cuál es el kilometraje aproximado actual de tu vehículo?".

(** [f"{n:,}"] for an integer: the digits in groups of three, from the
    right; [rev_digits] are the digits from the last to the first. *)
Fixpoint group_thousands (rev_digits : text) : text :=
  match rev_digits with
  | a :: b :: c :: (_ :: _) as rest => a :: b :: c :: 44%N :: group_thousands rest
  | _ => rev_digits
  end.

Definition format_thousands (n : Z) : text :=
  (if (n <? 0)%Z then txt "-" else [])
  ++ rev (group_thousands (rev (str_of_int (Z.abs n)))).

(** [s.replace(',', '.')] *)
Definition replace_commas (s : text) : text :=
  (λ c, if (c =? 44)%N then 46%N else c) <$> s.

Definition confirm_car_data (car_data : gmap string pyval) : option text :=
  let brand := dict_get_or car_data "brand" (PStr []) in
  let model := dict_get_or car_data "model" (PStr []) in
  let year := dict_get_or car_data "year" (PStr []) in
  let mileage := dict_get_or car_data "mileage" (PInt 0) in
  match mileage with
  | PInt mileage =>
    let mileage_str := replace_commas (format_thousands mileage) in
    Some (txt "Perfecto! " ++ py_str brand ++ txt " " ++ py_str model ++ txt " del " ++ py_str year ++ txt " con " ++ mileage_str ++ txt "km, correcto?")
  | _ => None
  end.

Definition car_data_reset (first_name : text) : text :=
  txt "De acuerdo, " ++ first_name ++ txt ". Empecemos de nuevo con los datos del auto. ¿Cuál es la marca de tu auto?".

Definition eligibility_result (G : generator) (result : option EligibilityResult)
    (first_name : text) : text :=
  match result with
  | None => txt "Error al evaluar la elegibilidad."
  | Some result =>
    if is_eligible result then
      let default :=
        txt "¡Buenas noticias, " ++ first_name ++ txt "! Basado en los criterios iniciales, eres elegible para nuestro producto!" in
      let context :=
        txt "El usuario " ++ first_name ++ txt " ES ELEGIBLE para el producto. Dale las buenas noticias de forma entusiasta." in
      _generate_with_llm G context default
    else
      let failed_reasons :=
        filter (λ r, ¬ startswith r CHECK_MARK) (reasons result) in
      let default :=
        txt "Lamentablemente, " ++ first_name ++ txt ", no cumples con los criterios de elegibilidad:" ++ NEWLINE in
      let default :=
        foldl (λ default reason, default ++ txt "- " ++ reason ++ NEWLINE)
          default failed_reasons in
      let context :=
        txt "El usuario " ++ first_name ++ txt " NO ES ELEGIBLE. Razones: " ++ join (txt ", ") failed_reasons ++ txt ". Informa de forma empática." in
      _generate_with_llm G context (strip default)
  end.

Definition invalid_name : text :=
  txt "No pude entender tu nombre. ¿Podrías darme tu nombre completo? (Por ejemplo: Juan Pérez)".

Definition invalid_birth_year : text :=
  txt "No pude entender el año. ¿Podrías darme tu año de nacimiento? (Ejemplo: 1995)".

Definition invalid_email : text :=
  txt "No pude entender el email. ¿Podrías darme tu dirección de correo electrónico?".

Definition invalid_car_brand : text :=
  txt "No pude entender la marca. ¿Podrías darme la marca de tu auto? (Ejemplo: Toyota, Ford, Honda)".

Definition invalid_car_model (U : unicode) (brand : pyval) : option text :=
  if truthy brand then
    examples ← _get_model_examples U brand;
    match examples with
    | Some examples =>
      if truthy (PStr examples) then
        Some (txt "No pude entender el modelo. ¿Podrías darme el modelo exacto de tu " ++ py_str brand ++ txt "? (Ejemplo: " ++ examples ++ txt ")")
      else Some (txt "No pude entender el modelo. ¿Podrías darme el modelo exacto de tu " ++ py_str brand ++ txt "?")
    | None => Some (txt "No pude entender el modelo. ¿Podrías darme el modelo exacto de tu " ++ py_str brand ++ txt "?")
    end
  else Some (txt "No pude entender el modelo. ¿Podrías darme el modelo exacto de tu auto?").

Definition invalid_car_year : text :=
  txt "No pude entender el año. ¿Podrías darme el año de tu vehículo? (Ejemplo: 2018)".

Definition invalid_mileage : text :=
  txt "No pude entender el kilometraje. ¿Podrías darme el kilometraje de tu vehículo? (Ejemplo: 45000)".

Definition invalid_confirmation : text :=
  txt "Por favor, responde con 'Sí' o 'No'. ¿Los datos son correctos?".

Definition invalid_car_confirmation : text :=
  txt "Por favor, responde con 'Sí' o 'No'. ¿Los datos del auto son correctos?".

(** The text of a call to the generator. *)
Definition render (U : unicode) (G : generator) (c : ResponseGenerator.call)
    : option text :=
  match c with
  | ResponseGenerator.greeting => Some (greeting G)
  | ResponseGenerator.ask_birth_year first_name => Some (ask_birth_year G first_name)
  | ResponseGenerator.ask_email => Some (ask_email G)
  | ResponseGenerator.confirm_personal_data personal_data =>
    Some (confirm_personal_data G personal_data)
  | ResponseGenerator.personal_data_confirmed first_name =>
    Some (personal_data_confirmed G first_name)
  | ResponseGenerator.personal_data_reset => Some personal_data_reset
  | ResponseGenerator.ask_car_brand brand => ask_car_brand U brand
  | ResponseGenerator.ask_car_model brand model => Some (ask_car_model brand model)
  | ResponseGenerator.ask_car_year => Some ask_car_year
  | ResponseGenerator.confirm_car_data car_data => confirm_car_data car_data
  | ResponseGenerator.car_data_reset first_name => Some (car_data_reset first_name)
  | ResponseGenerator.eligibility_result result first_name =>
    Some (eligibility_result G result first_name)
  | ResponseGenerator.invalid_name => Some invalid_name
  | ResponseGenerator.invalid_birth_year => Some invalid_birth_year
  | ResponseGenerator.invalid_email => Some invalid_email
  | ResponseGenerator.invalid_car_brand => Some invalid_car_brand
  | ResponseGenerator.invalid_car_model brand => invalid_car_model U brand
  | ResponseGenerator.invalid_car_year => Some invalid_car_year
  | ResponseGenerator.invalid_mileage => Some invalid_mileage
  | ResponseGenerator.invalid_confirmation => Some invalid_confirmation
  | ResponseGenerator.invalid_car_confirmation => Some invalid_car_confirmation
  end.

End Render.

(** The generator of the default configuration: templates only. *)
Definition templates : Render.generator :=
  {| Render.use_llm_responses := false; Render.llm_provider := None |}.

(** A generator that answers with its templates: the language model is
    disabled, or there is none, or each of its calls fails or answers with
    whitespace only. *)
Definition silent (G : Render.generator) : Prop :=
  Render.use_llm_responses G = false
  ∨ Render.llm_provider G = None
  ∨ ∃ invoke,
      Render.llm_provider G = Some invoke
      ∧ ∀ p, match invoke p with
             | LLMContent content => strip content = []
             | LLMFailure => True
             end.

(** ** [app/repositories.py] and [app/chatbot.py]: a turn through the repository

    [SQLiteConversationRepository] hands every call over to [Database].
    sqlite3 encodes in UTF-8 every string it is handed as a parameter, and
    a string that holds a surrogate has no encoding: the call raises
    [UnicodeEncodeError], and nothing it wrote is committed.
    [Database.load_conversation] and [Database.save_conversation] above are
    the result and the state of a call whose parameters are encoded; the
    calls of the repository below add the refusal. The limit of sqlite3 on
    the length of a string is not part of the model. *)

(** [s.encode('utf-8')] succeeds: no character of [s] is a surrogate. *)
Definition encodable (s : text) : bool :=
  forallb (λ c, negb (in_range 55296%N 57343%N c)) s.

Module SQLiteConversationRepository.

(** The content of a message as a string: what the user wrote, or what
    the generator [G] of the graph wrote for the response. *)
Definition content (U : unicode) (G : Render.generator) (msg : message)
    : option text :=
  match msg with
  | HumanMessage s => Some s
  | AIMessage (Literal s) => Some s
  | AIMessage (Generated c) => Render.render U G c
  end.

(** The row of a message can be inserted. *)
Definition binds (U : unicode) (G : Render.generator) (msg : message) : bool :=
  match content U G msg with
  | Some s => encodable s
  | None => false
  end.

(** The identifier is the parameter of the two queries. *)
Definition load_conversation (L : libraries) (db : Database.t)
    (conversation_id : text) : Database.load_result :=
  if encodable conversation_id
  then Database.load_conversation L db conversation_id
  else Database.LoadError.

(** The parameters are the identifier and, for each message that is
    inserted, its content; the step, the tokens, the JSON of the result and
    the roles are ASCII. [None]: the call raises. *)
Definition save_conversation (U : unicode) (G : Render.generator)
    (L : libraries) (db : Database.t) (iv_personal iv_car : N)
    (state : ChatState.t) : option Database.t :=
  let existing_count :=
    length (Database.messages_of db (ChatState.conversation_id state)) in
  let new_messages := drop existing_count (ChatState.messages state) in
  if encodable (ChatState.conversation_id state)
     && forallb (binds U G) new_messages
  then Some (Database.save_conversation L db iv_personal iv_car state)
  else None.

End SQLiteConversationRepository.

(** [uuid4] is the identifier [uuid.uuid4()] draws, [G] the response
    generator of the graph. The turn returns the response and the
    identifier and leaves the database as the save made it; [None] stands
    for an exception, which leaves the database as it was. *)
Module EligibilityChatbot.

Definition process_message (U : unicode) (E : env) (G : Render.generator)
    (L : libraries) (db : Database.t) (iv_personal iv_car : N) (uuid4 : text)
    (user_input : text) (conversation_id : option text)
    : option (Database.t * response * text) :=
  let conversation_id :=
    if negb (column_truthy conversation_id) then uuid4
    else default [] conversation_id in
  match SQLiteConversationRepository.load_conversation L db conversation_id with
  | Database.LoadError => None
  | loaded =>
    let chat_state :=
      match loaded with
      | Database.Found chat_state => chat_state
      | _ => ChatState.fresh conversation_id
      end in
    match process_message U E chat_state user_input with
    | Return (updated_chat_state, response) =>
      match SQLiteConversationRepository.save_conversation U G L db
              iv_personal iv_car updated_chat_state with
      | Some db' => Some (db', response, conversation_id)
      | None => None
      end
    | Raise _ => None
    end
  end.

End EligibilityChatbot.

(** * Properties *)

(** ** Text *)

Lemma startswith_app_l (a b p : text) :
  startswith a p = true → startswith (a ++ b) p = true.
Proof.
  revert a; induction p as [|x p IH]; intros [|y a]; simpl; try done.
  intros [Hx Hp]%andb_prop. by rewrite Hx, IH.
Qed.

Lemma startswith_app_differ (a b p : text) :
  startswith a p = false → (length p ≤ length a)%nat →
  startswith (a ++ b) p = false.
Proof.
  revert a; induction p as [|x p IH]; intros [|y a]; simpl; try done; try lia.
  intros H Hlen. destruct (N.eqb x y); simpl in *; [|done].
  apply IH; [done | lia].
Qed.

Lemma startswith_spec (s p : text) :
  startswith s p = true ↔ ∃ b, s = p ++ b.
Proof.
  revert s; induction p as [|x p IH]; intros s; simpl.
  - split; [by exists s | done].
  - destruct s as [|y s]; [split; [done | by intros [b Hb]]|].
    rewrite andb_true_iff, N.eqb_eq, IH. split.
    + intros [-> [b ->]]. by exists b.
    + intros [b Hb]. injection Hb as -> ->. eauto.
Qed.

Lemma str_in_spec (tok s : text) : str_in tok s = true ↔ contains tok s.
Proof.
  unfold contains. induction s as [|y s IH]; simpl.
  - rewrite orb_false_r, startswith_spec. split.
    + intros [b Hb]. by exists [], b.
    + intros [a [b Hab]]. symmetry in Hab.
      apply app_eq_nil in Hab as [-> Hab]. eauto.
  - rewrite orb_true_iff, startswith_spec, IH. split.
    + intros [[b Hb] | [a [b Hab]]].
      * by exists [], b.
      * exists (y :: a), b. by rewrite Hab.
    + intros [[|a0 a] [b Hab]]; simpl in Hab.
      * left. eauto.
      * right. injection Hab as -> ->. eauto.
Qed.

Lemma contains_rev (tok s : text) : contains tok s → contains (rev tok) (rev s).
Proof.
  intros [a [b ->]]. exists (rev b), (rev a).
  by rewrite !rev_app_distr, <- app_assoc.
Qed.

Lemma str_in_rev (tok s : text) : str_in (rev tok) (rev s) = str_in tok s.
Proof.
  apply eq_true_iff_eq. rewrite !str_in_spec. split.
  - intros H%contains_rev. by rewrite !rev_involutive in H.
  - apply contains_rev.
Qed.

(** Stripping leading whitespace loses no occurrence of a token that starts
    with a character that is not whitespace. *)
Lemma str_in_lstrip (c : N) (tok s : text) :
  isspace c = false → str_in (c :: tok) (lstrip s) = str_in (c :: tok) s.
Proof.
  intros Hc. induction s as [|y s IH]; [done|].
  cbn [lstrip]. destruct (isspace y) eqn:Hy; [|done].
  rewrite IH. cbn [str_in startswith].
  destruct (N.eqb_spec c y) as [->|]; [congruence | done].
Qed.

Lemma str_in_rstrip (tok : text) (c : N) (s : text) :
  isspace c = false →
  str_in (tok ++ [c]) (rstrip s) = str_in (tok ++ [c]) s.
Proof.
  intros Hc. unfold rstrip.
  rewrite <- (str_in_rev (tok ++ [c]) s).
  rewrite <- (rev_involutive (tok ++ [c])) at 1.
  rewrite str_in_rev, rev_app_distr. cbn [rev app].
  by apply str_in_lstrip.
Qed.

(** [strip] keeps the occurrences of a token whose first and last characters
    are not whitespace. *)
Lemma str_in_strip (c d : N) (mid s : text) :
  isspace c = false → isspace d = false →
  str_in (c :: mid ++ [d]) (strip s) = str_in (c :: mid ++ [d]) s.
Proof.
  intros Hc Hd. unfold strip.
  rewrite (str_in_rstrip (c :: mid) d) by done.
  by apply str_in_lstrip.
Qed.

(** ** The eligibility rule *)

Lemma has_check_mark_app (lit rest : text) :
  startswith lit CHECK_MARK = true → has_check_mark (lit ++ rest) = true.
Proof. apply startswith_app_l. Qed.

Lemma has_no_check_mark_app (lit rest : text) :
  startswith lit CHECK_MARK = false → (1 ≤ length lit)%nat →
  has_check_mark (lit ++ rest) = false.
Proof. intros H Hlen. by apply startswith_app_differ. Qed.

Ltac check_mark :=
  first
    [ rewrite has_check_mark_app by (vm_compute; reflexivity)
    | rewrite has_no_check_mark_app by (vm_compute; first [reflexivity | lia]) ].

(** C1. For all integers, [evaluate_eligibility] answers eligible exactly
    when the age is at least 18, the car is of 2015 or later and the mileage
    is below 100000; its reasons are three, in the order age, car, mileage,
    and the reason of a criterion starts with the check mark exactly when the
    criterion is met. *)
Theorem evaluate_eligibility_correct
    (current_year birth_year car_year mileage : Z) :
  let r := evaluate_eligibility current_year birth_year car_year mileage in
  (is_eligible r = true ↔
     current_year - birth_year >= 18 ∧ car_year >= 2015 ∧ mileage < 100000)
  ∧ ∃ r_age r_car r_mileage,
      reasons r = [r_age; r_car; r_mileage]
      ∧ (has_check_mark r_age = true ↔ current_year - birth_year >= 18)
      ∧ (has_check_mark r_car = true ↔ car_year >= 2015)
      ∧ (has_check_mark r_mileage = true ↔ mileage < 100000).
Proof.
  unfold evaluate_eligibility; cbv zeta.
  destruct (Z.geb_spec (current_year - birth_year) 18) as [Ha|Ha],
           (Z.geb_spec car_year 2015) as [Hc|Hc],
           (Z.ltb_spec mileage 100000) as [Hm|Hm];
    cbn [negb andb app is_eligible reasons];
    (split; [split; [try discriminate; lia | intros; first [reflexivity | lia]] |]);
    eexists _, _, _; (split; [reflexivity |]);
    repeat check_mark;
    repeat split; intros; first [discriminate | reflexivity | lia].
Qed.

(** ** The safety filter *)

(** The two markers exclude each other, so the order of the tests does not
    matter for a reply that starts with the unsafe one. *)
Lemma unsafe_marker_not_safe (result : text) :
  startswith result (txt "INSEGURO") = true →
  startswith result (txt "SEGURO") = false.
Proof.
  intros [b ->]%startswith_spec.
  apply startswith_app_differ; [by vm_compute | vm_compute; lia].
Qed.

(** C7. When the call to the language model raises, the classifier answers
    safe with no reason; it answers the same when the reply, trimmed and in
    upper case, starts with neither marker; and it answers unsafe only when
    that reply starts with the unsafe marker. *)
Theorem validate_input_safety_fail_open (U : unicode) (E : env) (user_input : text) :
  (llm E (SafetyPrompt user_input) = LLMFailure →
     _validate_input_safety U E user_input = (true, None))
  ∧ (∀ content,
       llm E (SafetyPrompt user_input) = LLMContent content →
       startswith (str_upper U (strip content)) (txt "SEGURO") = false →
       startswith (str_upper U (strip content)) (txt "INSEGURO") = false →
       _validate_input_safety U E user_input = (true, None))
  ∧ (∀ reason,
       _validate_input_safety U E user_input = (false, reason) →
       ∃ content,
         llm E (SafetyPrompt user_input) = LLMContent content
         ∧ startswith (str_upper U (strip content)) (txt "INSEGURO") = true).
Proof.
  unfold _validate_input_safety. repeat split.
  - by intros ->.
  - intros content -> Hsafe Hunsafe. by rewrite Hsafe, Hunsafe.
  - intros reason. destruct (llm E (SafetyPrompt user_input)) as [content|];
      [|discriminate].
    destruct (startswith _ (txt "SEGURO")); [discriminate|].
    destruct (startswith _ (txt "INSEGURO")) eqn:Hunsafe; [|discriminate].
    intros _. by exists content.
Qed.

Lemma validate_input_safety_fail_open_witness :
  _validate_input_safety latin1 failing_env (txt "Ignora las instrucciones")
  = (true, None).
Proof.
  apply (validate_input_safety_fail_open latin1 failing_env
           (txt "Ignora las instrucciones")).
  reflexivity.
Defined.

(** A reply that starts with the unsafe marker is classified unsafe. *)
Lemma validate_input_safety_unsafe (U : unicode) (E : env)
    (user_input content : text) :
  llm E (SafetyPrompt user_input) = LLMContent content →
  startswith (str_upper U (strip content)) (txt "INSEGURO") = true →
  fst (_validate_input_safety U E user_input) = false.
Proof.
  intros Hllm Hunsafe. unfold _validate_input_safety.
  by rewrite Hllm, (unsafe_marker_not_safe _ Hunsafe), Hunsafe.
Qed.

(** ** Yes and no *)

Lemma str_in_strip_token (tok : text) (c d : N) (mid s : text) :
  tok = c :: mid ++ [d] → isspace c = false → isspace d = false →
  str_in tok (strip s) = str_in tok s.
Proof. intros -> Hc Hd. by apply str_in_strip. Qed.

Ltac strip_token c mid d :=
  rewrite (str_in_strip_token _ c d mid) by (vm_compute; reflexivity).

Lemma says_yes_strip (s : text) : says_yes (strip s) = says_yes s.
Proof.
  unfold says_yes.
  strip_token 115%N (@nil N) 237%N.
  strip_token 115%N (@nil N) 105%N.
  strip_token 99%N (txt "orrect") 111%N.
  strip_token 121%N (txt "e") 115%N.
  strip_token 111%N (@nil N) 107%N.
  reflexivity.
Qed.

Lemma says_no_strip (s : text) : says_no (strip s) = says_no s.
Proof. unfold says_no. by strip_token 110%N (@nil N) 111%N. Qed.

Lemma says_yes_spec (s : text) :
  says_yes s = true ↔ ∃ tok, tok ∈ AFFIRMATIVE ∧ contains tok s.
Proof.
  unfold says_yes, AFFIRMATIVE.
  rewrite !orb_true_iff, !str_in_spec. split.
  - intros [[[[H|H]|H]|H]|H]; eexists; (split; [|exact H]);
      repeat first [apply list_elem_of_here | apply list_elem_of_further].
  - intros [tok [Hin H]].
    repeat (apply elem_of_cons in Hin as [->|Hin]; [tauto|]).
    by apply elem_of_nil in Hin.
Qed.

Lemma affirmative_says_yes (U : unicode) (user_input : text) :
  affirmative U user_input ↔ says_yes (strip (str_lower U user_input)) = true.
Proof. unfold affirmative. by rewrite says_yes_strip, says_yes_spec. Qed.

Lemma negative_says_no (U : unicode) (user_input : text) :
  negative U user_input ↔
  says_yes (strip (str_lower U user_input)) = false
  ∧ says_no (strip (str_lower U user_input)) = true.
Proof.
  unfold negative. rewrite affirmative_says_yes, says_no_strip.
  unfold says_no, NEGATIVE. rewrite str_in_spec, not_true_iff_false. tauto.
Qed.

Lemma neither_says (U : unicode) (user_input : text) :
  ¬ affirmative U user_input → ¬ contains NEGATIVE (str_lower U user_input) →
  says_yes (strip (str_lower U user_input)) = false
  ∧ says_no (strip (str_lower U user_input)) = false.
Proof.
  rewrite affirmative_says_yes, says_no_strip, not_true_iff_false.
  unfold says_no, NEGATIVE. rewrite <- str_in_spec, not_true_iff_false. tauto.
Qed.

Lemma last_user_input_eq (st : GraphState) (user_input : text) :
  last (messages st) = Some (HumanMessage user_input) →
  last_user_input st = user_input
  ∧ bool_decide (messages st = []) = false.
Proof.
  intros H. unfold last_user_input. rewrite H. split; [done|].
  apply bool_decide_eq_false. by intros Hnil; rewrite Hnil in H.
Qed.

(** C4. In both confirmation nodes an input whose lowercased text contains
    an affirmative token takes the affirmative branch, whether or not it
    also contains "no"; an input that contains "no" and no affirmative token
    takes the negative branch; an input that contains neither only receives
    the request to answer yes or no, the step being unchanged. *)
Theorem confirmation_classification
    (U : unicode) (st : GraphState) (user_input : text) :
  last (messages st) = Some (HumanMessage user_input) →
  (affirmative U user_input →
     _confirm_personal_data_node U st =
       (first_name ←
          split_first (dict_get_or (personal_data st) "full_name" USUARIO);
        mret (set_last_response
                (Generated (ResponseGenerator.personal_data_confirmed first_name))
                (set_current_step COLLECTING_CAR_DATA
                   (set_personal_data_confirmed true st))))
     ∧ _confirm_car_data_node U st =
         mret (set_current_step EVALUATING_ELIGIBILITY
                 (set_car_data_confirmed true st)))
  ∧ (negative U user_input →
       _confirm_personal_data_node U st =
         mret (set_last_response (Generated ResponseGenerator.personal_data_reset)
                 (set_current_step COLLECTING_PERSONAL_DATA
                    (set_personal_data ∅ st)))
       ∧ _confirm_car_data_node U st =
           (first_name ←
              split_first (dict_get_or (personal_data st) "full_name" USUARIO);
            mret (set_last_response
                    (Generated (ResponseGenerator.car_data_reset first_name))
                    (set_current_step COLLECTING_CAR_DATA (set_car_data ∅ st)))))
  ∧ (¬ affirmative U user_input →
     ¬ contains NEGATIVE (str_lower U user_input) →
       ∃ st_personal st_car,
         _confirm_personal_data_node U st = Return st_personal
         ∧ _confirm_car_data_node U st = Return st_car
         ∧ st_personal =
             set_last_response (Generated ResponseGenerator.invalid_confirmation) st
         ∧ st_car =
             set_last_response
               (Generated ResponseGenerator.invalid_car_confirmation) st
         ∧ current_step st_personal = current_step st
         ∧ current_step st_car = current_step st).
Proof.
  intros [Hin Hmsgs]%last_user_input_eq.
  unfold _confirm_personal_data_node, _confirm_car_data_node.
  rewrite Hmsgs, Hin. split; [|split].
  - intros Hyes%affirmative_says_yes. by rewrite Hyes.
  - intros [Hyes Hno]%negative_says_no. by rewrite Hyes, Hno.
  - intros Hyes Hno. destruct (neither_says U user_input Hyes Hno) as [-> ->].
    by eexists _, _.
Qed.

Lemma confirmation_classification_witness :
  _confirm_car_data_node latin1
    (turn_state (record_at CONFIRMING_CAR_DATA juan corolla true false None)
       (txt "No... sí, correcto"))
  = Return
      (set_current_step EVALUATING_ELIGIBILITY
         (set_car_data_confirmed true
            (turn_state (record_at CONFIRMING_CAR_DATA juan corolla true false None)
               (txt "No... sí, correcto")))).
Proof.
  apply (confirmation_classification latin1 _ (txt "No... sí, correcto"));
    [reflexivity|].
  exists (txt "correcto"). split.
  - do 2 apply list_elem_of_further. apply list_elem_of_here.
  - exists (txt "no... sí, "), []. reflexivity.
Defined.

(** ** Patterns *)

Lemma first_some_Some {A B} (f : A → option B) (xs : list A) (y : B) :
  first_some f xs = Some y → ∃ x, x ∈ xs ∧ f x = Some y.
Proof.
  induction xs as [|x xs IH]; simpl; [done|].
  destruct (f x) as [y'|] eqn:Hfx.
  - intros [= ->]. exists x. split; [apply list_elem_of_here | done].
  - intros [x' [Hin Hx']]%IH. exists x'. split; [by apply list_elem_of_further | done].
Qed.

Lemma rep_counts_bounds (avail lo : nat) (hi : option nat) (k : nat) :
  k ∈ rep_counts avail lo hi →
  (lo ≤ k ≤ avail)%nat ∧ (∀ h, hi = Some h → (k ≤ h)%nat).
Proof.
  unfold rep_counts. rewrite list_elem_of_In, <- in_rev, <- list_elem_of_In, elem_of_seq.
  destruct hi as [h|]; intros Hk; (split; [lia|]); intros h' [= <-]; lia.
Qed.

Lemma run_length_take (cls : N → bool) (s : text) (k : nat) :
  (k ≤ run_length cls s)%nat →
  Forall (λ c, cls c = true) (take k s) ∧ length (take k s) = k.
Proof.
  revert k; induction s as [|c s IH]; intros k; simpl.
  - intros Hk. assert (k = 0%nat) as -> by lia. by split.
  - destruct k as [|k]; [by split|].
    destruct (cls c) eqn:Hc; [|lia]. intros Hk.
    destruct (IH k) as [Hall Hlen]; [lia|]. simpl. split; [by constructor | lia].
Qed.

Lemma match_here_shaped (U : unicode) (re : list atom)
    (prev : option N) (s m : text) :
  match_here U re prev s = Some m → shaped re m.
Proof.
  revert prev s m; induction re as [|a re IH]; intros prev s m; simpl.
  - by intros [= <-].
  - destruct a as [|alts|cls lo hi].
    + destruct (at_boundary U prev (head s)); [apply IH | done].
    + intros [lit [Hin Hlit]]%first_some_Some.
      destruct (startswith s lit); [|done].
      apply fmap_Some in Hlit as [m' [Hm' ->]]. exists lit, m'. eauto.
    + intros [k [Hin Hk]]%first_some_Some.
      apply fmap_Some in Hk as [m' [Hm' ->]].
      apply rep_counts_bounds in Hin as [[Hlo Havail] Hhi].
      destruct (run_length_take cls s k Havail) as [Hall Hlen].
      exists (take k s), m'. rewrite Hlen. eauto 10.
Qed.

Lemma re_search_shaped (U : unicode) (re : list atom) (s m : text) :
  re_search U re s = Some m → shaped re m.
Proof.
  unfold re_search. generalize (@None N) as prev. revert m.
  induction s as [|c s IH]; intros m prev; simpl.
  - destruct (match_here U re prev []) eqn:Hm; [|done].
    intros [= <-]. by eapply match_here_shaped.
  - destruct (match_here U re prev (c :: s)) eqn:Hm.
    + intros [= <-]. by eapply match_here_shaped.
    + apply IH.
Qed.

(** [int] reads every non-empty run of decimal digits. *)
Lemma py_int_digits (U : unicode) (s : text) :
  s ≠ [] → Forall (λ c, is_digit U c = true) s → is_Some (py_int U s).
Proof.
  intros Hne Hall. unfold py_int. destruct s as [|c0 s0]; [done|].
  generalize 0%Z as a. clear Hne. revert Hall.
  generalize (c0 :: s0) as s. clear c0 s0.
  induction s as [|c s IH]; intros Hall a; simpl; [by eexists|].
  inversion Hall as [|? ? Hc Hs]; subst.
  unfold is_digit in Hc. apply bool_decide_eq_true in Hc as [d Hd].
  rewrite Hd. by apply IH.
Qed.

(** [int(match.group())] never raises in [_extract_year] and
    [_extract_mileage]: a match is all digits. *)
Lemma extract_year_int (U : unicode) (t m : text) :
  re_search U (YEAR_RE U) t = Some m → is_Some (py_int U m).
Proof.
  intros Hm%re_search_shaped. simpl in Hm.
  destruct Hm as (lit & m' & Hlit & -> & run & m'' & -> & Hrun & Hlen & _ & ->).
  rewrite app_nil_r. apply py_int_digits.
  - apply elem_of_cons in Hlit as [->|Hlit]; [done|].
    apply elem_of_cons in Hlit as [->|Hlit]; [done|].
    by apply elem_of_nil in Hlit.
  - apply Forall_app. split; [|done].
    apply elem_of_cons in Hlit as [->|Hlit]; [by repeat constructor|].
    apply elem_of_cons in Hlit as [->|Hlit]; [by repeat constructor|].
    by apply elem_of_nil in Hlit.
Qed.

Lemma extract_mileage_int (U : unicode) (t m : text) :
  re_search U (MILEAGE_RE U) t = Some m → is_Some (py_int U m).
Proof.
  intros Hm%re_search_shaped. simpl in Hm.
  destruct Hm as (run & m' & -> & Hrun & Hlen & _ & ->).
  rewrite app_nil_r. apply py_int_digits; [|done].
  destruct run; [simpl in Hlen; lia | done].
Qed.

(** An e-mail address that is found is not the empty string. *)
Lemma extract_email_nonempty (U : unicode) (t email : text) :
  _extract_email U t = Some email → email ≠ [].
Proof.
  unfold _extract_email. intros Hm%re_search_shaped. simpl in Hm.
  destruct Hm as (run & m' & -> & _ & Hlen & _).
  destruct run; [simpl in Hlen; lia | done].
Qed.

(** ** The compiled graph *)

Lemma run_from_END (U : unicode) (E : env) (limit : nat) (st : GraphState) :
  run_from U E limit N_END st = Return st.
Proof. by destruct limit. Qed.

Lemma run_from_S (U : unicode) (E : env) (limit : nat) (n : node) (st : GraphState) :
  n ≠ N_END →
  run_from U E (S limit) n st =
  (st' ← run_node U E n st; run_from U E limit (next_node n st') st').
Proof. by destruct n. Qed.

(** One step of the run: the node either raises, and so does the run, or
    hands its state to the node that follows. *)
Ltac graph_step :=
  rewrite run_from_S by done;
  cbv beta iota delta [run_node];
  match goal with
  | |- context [mbind _ (mret _)] => idtac
  | |- context [mbind _ ?m] => destruct m as [?st|]; [|reflexivity]
  end;
  cbv beta iota delta [mbind outcome_bind mret outcome_ret next_node].

(** A run of the graph executes the router, the node of the current step
    and, after the confirmation of the car or the evaluation, the nodes that
    follow; it ends well before the recursion limit. *)
Lemma invoke_unfold (U : unicode) (E : env) (st : GraphState) :
  invoke U E st =
  match current_step st with
  | GREETING => Return (_greeting_node st)
  | COLLECTING_PERSONAL_DATA => _collect_personal_data_node U E st
  | CONFIRMING_PERSONAL_DATA => _confirm_personal_data_node U st
  | COLLECTING_CAR_DATA => _collect_car_data_node U E st
  | CONFIRMING_CAR_DATA =>
    st1 ← _confirm_car_data_node U st;
    if _after_confirm_car_data st1
    then st2 ← _evaluate_eligibility_node E st1; _completed_node st2
    else Return st1
  | EVALUATING_ELIGIBILITY =>
    st1 ← _evaluate_eligibility_node E st; _completed_node st1
  | COMPLETED => _completed_node st
  end.
Proof.
  unfold invoke, RECURSION_LIMIT.
  rewrite run_from_S by done.
  cbv beta iota delta [run_node mbind outcome_bind mret outcome_ret
                       next_node _router_node _route_by_state].
  destruct (current_step st).
  - graph_step. apply run_from_END.
  - graph_step. apply run_from_END.
  - graph_step. apply run_from_END.
  - graph_step. apply run_from_END.
  - graph_step. destruct (_after_confirm_car_data _); [|apply run_from_END].
    graph_step. graph_step. apply run_from_END.
  - graph_step. graph_step. apply run_from_END.
  - graph_step. apply run_from_END.
Qed.

Lemma turn_state_last (cs : ChatState.t) (user_input : text) :
  last (messages (turn_state cs user_input)) = Some (HumanMessage user_input).
Proof. cbn. apply last_snoc. Qed.

Lemma turn_state_input (cs : ChatState.t) (user_input : text) :
  last_user_input (turn_state cs user_input) = user_input
  ∧ bool_decide (messages (turn_state cs user_input) = []) = false.
Proof. apply last_user_input_eq, turn_state_last. Qed.

(** *** Dictionaries and records *)

Lemma dump_personal_full_name (p : PersonalData.t) :
  dict_get (dump_personal_data p) "full_name" = of_opt_str (PersonalData.full_name p).
Proof. reflexivity. Qed.

Lemma dump_personal_full_name_or (p : PersonalData.t) (dflt : pyval) :
  dict_get_or (dump_personal_data p) "full_name" dflt
  = of_opt_str (PersonalData.full_name p).
Proof. reflexivity. Qed.

Lemma dump_personal_birth_year (p : PersonalData.t) :
  dict_get (dump_personal_data p) "birth_year" = of_opt_int (PersonalData.birth_year p).
Proof. reflexivity. Qed.

Lemma dump_personal_email (p : PersonalData.t) :
  dict_get (dump_personal_data p) "email" = of_opt_str (PersonalData.email p).
Proof. reflexivity. Qed.

Lemma dump_car_brand (c : CarData.t) :
  dict_get (dump_car_data c) "brand" = of_opt_str (CarData.brand c).
Proof. reflexivity. Qed.

Lemma dump_car_model (c : CarData.t) :
  dict_get (dump_car_data c) "model" = of_opt_str (CarData.model c).
Proof. reflexivity. Qed.

Lemma dump_car_year (c : CarData.t) :
  dict_get (dump_car_data c) "year" = of_opt_int (CarData.year c).
Proof. reflexivity. Qed.

Lemma dump_car_mileage (c : CarData.t) :
  dict_get (dump_car_data c) "mileage" = of_opt_int (CarData.mileage c).
Proof. reflexivity. Qed.

(** A record survives the passage through its dictionary. *)
Lemma load_dump_personal (p : PersonalData.t) :
  load_personal_data (dump_personal_data p) = Return p.
Proof. by destruct p as [[?|] [?|] [?|]]. Qed.

Lemma load_dump_car (c : CarData.t) :
  load_car_data (dump_car_data c) = Return c.
Proof. by destruct c as [[?|] [?|] [?|] [?|]]. Qed.

Lemma load_personal_full_name (p : PersonalData.t) (name : text) :
  load_personal_data (<["full_name" := PStr name]> (dump_personal_data p))
  = Return {| PersonalData.full_name := Some name;
              PersonalData.birth_year := PersonalData.birth_year p;
              PersonalData.email := PersonalData.email p |}.
Proof. by destruct p as [[?|] [?|] [?|]]. Qed.

Lemma load_personal_birth_year (p : PersonalData.t) (year : Z) :
  load_personal_data (<["birth_year" := PInt year]> (dump_personal_data p))
  = Return {| PersonalData.full_name := PersonalData.full_name p;
              PersonalData.birth_year := Some year;
              PersonalData.email := PersonalData.email p |}.
Proof. by destruct p as [[?|] [?|] [?|]]. Qed.

Lemma load_personal_email (p : PersonalData.t) (email : text) :
  load_personal_data (<["email" := PStr email]> (dump_personal_data p))
  = Return {| PersonalData.full_name := PersonalData.full_name p;
              PersonalData.birth_year := PersonalData.birth_year p;
              PersonalData.email := Some email |}.
Proof. by destruct p as [[?|] [?|] [?|]]. Qed.

Lemma load_car_brand (c : CarData.t) (brand : text) :
  load_car_data (<["brand" := PStr brand]> (dump_car_data c))
  = Return {| CarData.brand := Some brand; CarData.model := CarData.model c;
              CarData.year := CarData.year c; CarData.mileage := CarData.mileage c |}.
Proof. by destruct c as [[?|] [?|] [?|] [?|]]. Qed.

Lemma load_car_model (c : CarData.t) (model : text) :
  load_car_data (<["model" := PStr model]> (dump_car_data c))
  = Return {| CarData.brand := CarData.brand c; CarData.model := Some model;
              CarData.year := CarData.year c; CarData.mileage := CarData.mileage c |}.
Proof. by destruct c as [[?|] [?|] [?|] [?|]]. Qed.

Lemma load_car_year (c : CarData.t) (year : Z) :
  load_car_data (<["year" := PInt year]> (dump_car_data c))
  = Return {| CarData.brand := CarData.brand c; CarData.model := CarData.model c;
              CarData.year := Some year; CarData.mileage := CarData.mileage c |}.
Proof. by destruct c as [[?|] [?|] [?|] [?|]]. Qed.

Lemma load_car_mileage (c : CarData.t) (mileage : Z) :
  load_car_data (<["mileage" := PInt mileage]> (dump_car_data c))
  = Return {| CarData.brand := CarData.brand c; CarData.model := CarData.model c;
              CarData.year := CarData.year c; CarData.mileage := Some mileage |}.
Proof. by destruct c as [[?|] [?|] [?|] [?|]]. Qed.

Lemma load_personal_empty : load_personal_data ∅ = Return PersonalData.empty.
Proof. reflexivity. Qed.

Lemma load_car_empty : load_car_data ∅ = Return CarData.empty.
Proof. reflexivity. Qed.

(** Completeness of a record is what the decision functions of the graph
    test on its dictionaries. *)
Lemma should_confirm_personal_data_complete (cs : ChatState.t) (user_input : text) :
  _should_confirm_personal_data (turn_state cs user_input)
  = personal_complete (ChatState.personal_data cs).
Proof.
  unfold _should_confirm_personal_data, personal_complete, missing_str, missing_int.
  change (personal_data (turn_state cs user_input))
    with (dump_personal_data (ChatState.personal_data cs)).
  rewrite dump_personal_full_name, dump_personal_birth_year, dump_personal_email.
  by rewrite !negb_involutive.
Qed.

Lemma should_confirm_car_data_complete (cs : ChatState.t) (user_input : text) :
  _should_confirm_car_data (turn_state cs user_input)
  = car_complete (ChatState.car_data cs).
Proof.
  unfold _should_confirm_car_data, car_complete, missing_str, missing_int.
  change (car_data (turn_state cs user_input))
    with (dump_car_data (ChatState.car_data cs)).
  rewrite dump_car_brand, dump_car_model, dump_car_year, dump_car_mileage.
  by rewrite !negb_involutive.
Qed.

(** The first name of a stored full name is what the confirmation and
    completion nodes compute. *)
Lemma split_first_full_name (p : PersonalData.t) (first_name : text) :
  first_name_of p = Some first_name →
  split_first (dict_get_or (dump_personal_data p) "full_name" USUARIO)
  = Return first_name.
Proof.
  rewrite dump_personal_full_name_or. unfold first_name_of.
  destruct (PersonalData.full_name p) as [n|]; [|done]. simpl.
  by destruct (split n) as [|w ws]; intros [= ->].
Qed.

(** ** The confirmation of the personal data *)

Lemma bind_Return {A B} (a : A) (f : A → outcome B) : (Return a ≫= f) = f a.
Proof. reflexivity. Qed.

(** Projections of updated states, and binds of a returned value. *)
Ltac fields_once :=
  cbn [messages conversation_id current_step personal_data car_data
       personal_data_confirmed car_data_confirmed eligibility_result
       last_response
       set_current_step set_personal_data set_car_data
       set_personal_data_confirmed set_car_data_confirmed
       set_eligibility_result set_last_response
       turn_state _chat_state_to_graph_state with_user_message
       _greeting_node _after_confirm_car_data
       ChatState.conversation_id ChatState.current_step
       ChatState.personal_data ChatState.car_data ChatState.messages
       ChatState.personal_data_confirmed ChatState.car_data_confirmed
       ChatState.eligibility_result
       mret outcome_ret response_truthy] in *;
  rewrite ?bind_Return; cbv beta.

Ltac fields := fields_once; repeat (progress fields_once).

Ltac start_turn Hstep :=
  unfold process_message; rewrite invoke_unfold; fields; rewrite Hstep.

Ltac end_turn :=
  fields; unfold _graph_state_to_chat_state; fields;
  rewrite ?load_dump_personal, ?load_dump_car,
    ?load_personal_empty, ?load_car_empty; fields.

Lemma confirm_personal_no (U : unicode) (st : GraphState) (user_input : text) :
  last (messages st) = Some (HumanMessage user_input) →
  negative U user_input →
  _confirm_personal_data_node U st =
  Return (set_last_response (Generated ResponseGenerator.personal_data_reset)
            (set_current_step COLLECTING_PERSONAL_DATA (set_personal_data ∅ st))).
Proof.
  intros [Hin Hmsgs]%last_user_input_eq [Hyes Hno]%negative_says_no.
  unfold _confirm_personal_data_node. by rewrite Hmsgs, Hin, Hyes, Hno.
Qed.

Lemma confirm_car_yes (U : unicode) (st : GraphState) (user_input : text) :
  last (messages st) = Some (HumanMessage user_input) →
  affirmative U user_input →
  _confirm_car_data_node U st =
  Return (set_current_step EVALUATING_ELIGIBILITY (set_car_data_confirmed true st)).
Proof.
  intros [Hin Hmsgs]%last_user_input_eq Hyes%affirmative_says_yes.
  unfold _confirm_car_data_node. by rewrite Hmsgs, Hin, Hyes.
Qed.

Lemma confirm_car_no (U : unicode) (st : GraphState) (user_input : text) :
  last (messages st) = Some (HumanMessage user_input) →
  negative U user_input →
  _confirm_car_data_node U st =
  (first_name ← split_first (dict_get_or (personal_data st) "full_name" USUARIO);
   Return (set_last_response (Generated (ResponseGenerator.car_data_reset first_name))
             (set_current_step COLLECTING_CAR_DATA (set_car_data ∅ st)))).
Proof.
  intros [Hin Hmsgs]%last_user_input_eq [Hyes Hno]%negative_says_no.
  unfold _confirm_car_data_node. by rewrite Hmsgs, Hin, Hyes, Hno.
Qed.

(** C3, as the code has it. In step CONFIRMING_PERSONAL_DATA a negative
    input empties the personal data, brings the step back to
    COLLECTING_PERSONAL_DATA and is answered by the reset message, whatever
    the data were; the confirmation flag is left as it was. *)
Theorem confirm_personal_negative_resets
    (U : unicode) (E : env) (cs : ChatState.t) (user_input : text) :
  ChatState.current_step cs = CONFIRMING_PERSONAL_DATA →
  negative U user_input →
  ∃ cs',
    process_message U E cs user_input
    = Return (cs', Generated ResponseGenerator.personal_data_reset)
    ∧ ChatState.personal_data cs' = PersonalData.empty
    ∧ ChatState.current_step cs' = COLLECTING_PERSONAL_DATA
    ∧ ChatState.personal_data_confirmed cs' = ChatState.personal_data_confirmed cs
    ∧ ChatState.car_data cs' = ChatState.car_data cs
    ∧ ChatState.car_data_confirmed cs' = ChatState.car_data_confirmed cs
    ∧ ChatState.eligibility_result cs' = ChatState.eligibility_result cs.
Proof.
  intros Hstep Hneg. start_turn Hstep.
  rewrite (confirm_personal_no U _ user_input) by (done || apply turn_state_last).
  end_turn. eexists. split; [reflexivity|]. by fields.
Qed.

Lemma negative_no : negative latin1 (txt "no").
Proof. apply negative_says_no. by vm_compute. Qed.

Lemma confirm_personal_negative_resets_witness :
  ∃ cs',
    process_message latin1 demo_env
      (record_at CONFIRMING_PERSONAL_DATA juan CarData.empty true false None)
      (txt "no")
    = Return (cs', Generated ResponseGenerator.personal_data_reset)
    ∧ ChatState.personal_data cs' = PersonalData.empty
    ∧ ChatState.current_step cs' = COLLECTING_PERSONAL_DATA
    ∧ ChatState.personal_data_confirmed cs' = true.
Proof.
  destruct (confirm_personal_negative_resets latin1 demo_env
              (record_at CONFIRMING_PERSONAL_DATA juan CarData.empty true false None)
              (txt "no") eq_refl negative_no)
    as (cs' & Hrun & Hdata & Hstep & Hflag & _).
  exists cs'. auto.
Defined.

(** The claim C3 as it is written fails: on a record of step
    CONFIRMING_PERSONAL_DATA whose flag is set, the answer "no" leaves the
    flag set. *)
Lemma confirm_personal_negative_flag_counterexample :
  ¬ (∀ (U : unicode) (E : env) (cs : ChatState.t) (user_input : text),
       ChatState.current_step cs = CONFIRMING_PERSONAL_DATA →
       negative U user_input →
       ∃ cs',
         process_message U E cs user_input
         = Return (cs', Generated ResponseGenerator.personal_data_reset)
         ∧ ChatState.personal_data cs' = PersonalData.empty
         ∧ ChatState.personal_data_confirmed cs' = false
         ∧ ChatState.current_step cs' = COLLECTING_PERSONAL_DATA).
Proof.
  intros Hclaim.
  destruct (Hclaim latin1 demo_env
              (record_at CONFIRMING_PERSONAL_DATA juan CarData.empty true false None)
              (txt "no") eq_refl negative_no)
    as (cs' & Hrun & _ & Hflag & _).
  vm_compute in Hrun. injection Hrun as <-. discriminate Hflag.
Qed.

(** ** The confirmation flags *)

Ltac node_cases :=
  cbv beta iota delta [mbind outcome_bind mret outcome_ret];
  repeat case_match; intros; simplify_eq; fields; try done.

(** No node lowers a confirmation flag. *)
Lemma run_node_flags (U : unicode) (E : env) (n : node) (st st' : GraphState) :
  run_node U E n st = Return st' →
  (personal_data_confirmed st = true → personal_data_confirmed st' = true)
  ∧ (car_data_confirmed st = true → car_data_confirmed st' = true).
Proof.
  destruct n; cbv beta iota delta [run_node].
  - unfold _router_node. node_cases.
  - unfold _greeting_node. node_cases.
  - unfold _collect_personal_data_node. node_cases.
  - unfold _confirm_personal_data_node. node_cases.
  - unfold _collect_car_data_node. node_cases.
  - unfold _confirm_car_data_node. node_cases.
  - unfold _evaluate_eligibility_node. node_cases.
  - unfold _completed_node. node_cases.
  - node_cases.
Qed.

(** C10. Both confirmation flags are monotone: no node turns one of them
    from true to false. In particular the negative branch of each
    confirmation node empties its dictionary and brings the step back while
    the flag keeps the value it had. *)
Theorem confirmation_flags_monotone (U : unicode) (E : env) (st : GraphState) :
  (∀ n st',
     run_node U E n st = Return st' →
     (personal_data_confirmed st = true → personal_data_confirmed st' = true)
     ∧ (car_data_confirmed st = true → car_data_confirmed st' = true))
  ∧ (∀ user_input st',
       last (messages st) = Some (HumanMessage user_input) →
       negative U user_input →
       _confirm_personal_data_node U st = Return st' →
       personal_data st' = ∅
       ∧ current_step st' = COLLECTING_PERSONAL_DATA
       ∧ personal_data_confirmed st' = personal_data_confirmed st)
  ∧ (∀ user_input st',
       last (messages st) = Some (HumanMessage user_input) →
       negative U user_input →
       _confirm_car_data_node U st = Return st' →
       car_data st' = ∅
       ∧ current_step st' = COLLECTING_CAR_DATA
       ∧ car_data_confirmed st' = car_data_confirmed st).
Proof.
  split; [|split].
  - intros n st'. apply run_node_flags.
  - intros user_input st' Hlast Hneg.
    rewrite (confirm_personal_no U st user_input Hlast Hneg). by intros [= <-].
  - intros user_input st' Hlast Hneg.
    rewrite (confirm_car_no U st user_input Hlast Hneg).
    destruct (split_first _); [|done]. by intros [= <-].
Qed.

Lemma confirmation_flags_monotone_witness :
  ∃ st',
    _confirm_personal_data_node latin1
      (turn_state (record_at CONFIRMING_PERSONAL_DATA juan CarData.empty true false None)
         (txt "no"))
    = Return st'
    ∧ personal_data st' = ∅
    ∧ current_step st' = COLLECTING_PERSONAL_DATA
    ∧ personal_data_confirmed st' = true.
Proof.
  destruct (confirmation_flags_monotone latin1 demo_env
              (turn_state
                 (record_at CONFIRMING_PERSONAL_DATA juan CarData.empty true false None)
                 (txt "no"))) as (_ & Hno & _).
  eexists. split; [vm_compute; reflexivity|].
  apply (Hno (txt "no")); [reflexivity | apply negative_no | vm_compute; reflexivity].
Defined.

(** ** Evaluation and completion *)

Lemma completed_turn (U : unicode) (E : env) (cs : ChatState.t)
    (user_input first_name : text) :
  ChatState.current_step cs = COMPLETED →
  first_name_of (ChatState.personal_data cs) = Some first_name →
  ∃ cs',
    process_message U E cs user_input
    = Return (cs', Generated (ResponseGenerator.eligibility_result
                                (ChatState.eligibility_result cs) first_name))
    ∧ same_data cs cs'.
Proof.
  intros Hstep Hname. start_turn Hstep.
  unfold _completed_node. fields.
  rewrite (split_first_full_name _ first_name Hname). fields. end_turn.
  eexists. split; [reflexivity|]. by repeat split.
Qed.

(** Where the full name has a first word, the completion is idempotent: a
    turn on a record of step COMPLETED answers with the announcement made
    of the stored result and the first name and changes nothing but the
    messages; a further turn on the record obtained does the same. *)
Lemma completed_idempotent (U : unicode) (E1 E2 : env) (cs : ChatState.t)
    (input1 input2 first_name : text) :
  ChatState.current_step cs = COMPLETED →
  first_name_of (ChatState.personal_data cs) = Some first_name →
  ∃ cs1 cs2 announcement,
    announcement = Generated (ResponseGenerator.eligibility_result
                                (ChatState.eligibility_result cs) first_name)
    ∧ process_message U E1 cs input1 = Return (cs1, announcement)
    ∧ process_message U E2 cs1 input2 = Return (cs2, announcement)
    ∧ same_data cs cs1
    ∧ same_data cs cs2.
Proof.
  intros Hstep Hname.
  destruct (completed_turn U E1 cs input1 first_name Hstep Hname)
    as (cs1 & Hrun1 & Hsame1).
  pose proof Hsame1 as (Hid & Hstep1 & Hp & Hc & Hpc & Hcc & Her).
  destruct (completed_turn U E2 cs1 input2 first_name) as (cs2 & Hrun2 & Hsame2);
    [congruence | congruence |].
  eexists cs1, cs2, _. split; [reflexivity|]. split; [done|].
  split; [by rewrite Hrun2, Her|]. split; [done|].
  unfold same_data in *. intuition congruence.
Qed.

Lemma completed_idempotent_witness :
  ∃ cs1 cs2 announcement,
    announcement = Generated (ResponseGenerator.eligibility_result
                                (Some (evaluate_eligibility 2026 1990 2020 45000))
                                (txt "Juan"))
    ∧ process_message latin1 demo_env
        (record_at COMPLETED juan corolla true true
           (Some (evaluate_eligibility 2026 1990 2020 45000)))
        (txt "gracias")
      = Return (cs1, announcement)
    ∧ process_message latin1 failing_env cs1 (txt "hola?") = Return (cs2, announcement)
    ∧ ChatState.current_step cs2 = COMPLETED.
Proof.
  destruct (completed_idempotent latin1 demo_env failing_env
              (record_at COMPLETED juan corolla true true
                 (Some (evaluate_eligibility 2026 1990 2020 45000)))
              (txt "gracias") (txt "hola?") (txt "Juan") eq_refl eq_refl)
    as (cs1 & cs2 & a & Ha & Hrun1 & Hrun2 & _ & Hsame).
  exists cs1, cs2, a. repeat split; try done.
  destruct Hsame as (_ & Hstep & _). by rewrite <- Hstep.
Defined.

(** C9, where the code departs from it. The completion node asks the
    dictionary for the full name with the default "Usuario", but the
    dictionary of a record always has the key: for a record without a name
    it holds [None], the default is not taken, and [split] is called on
    [None]. The turn of a record of step COMPLETED without a name raises
    [AttributeError]; with a name that holds no word, [IndexError]. No
    announcement is made. *)
Theorem completed_without_name_raises :
  dict_get_or (personal_data
                 (turn_state
                    (record_at COMPLETED nameless corolla true true
                       (Some (evaluate_eligibility 2026 1990 2020 45000)))
                    (txt "gracias")))
    "full_name" USUARIO = PNone
  ∧ process_message latin1 demo_env
      (record_at COMPLETED nameless corolla true true
         (Some (evaluate_eligibility 2026 1990 2020 45000)))
      (txt "gracias")
    = Raise AttributeError
  ∧ process_message latin1 demo_env
      (record_at COMPLETED blank_name corolla true true
         (Some (evaluate_eligibility 2026 1990 2020 45000)))
      (txt "gracias")
    = Raise IndexError.
Proof. split; [reflexivity|]. split; vm_compute; reflexivity. Qed.

(** In step EVALUATING_ELIGIBILITY with a datum missing, the evaluation node
    sets the missing-data message and the completion node, which always
    follows it, replaces that message: what the turn reports is the
    announcement of the stored result, which is the generator's own error
    text when no result is stored. *)
Lemma evaluating_missing_data (U : unicode) (E : env) (cs : ChatState.t)
    (user_input first_name : text) :
  ChatState.current_step cs = EVALUATING_ELIGIBILITY →
  missing_int (PersonalData.birth_year (ChatState.personal_data cs))
  || missing_int (CarData.year (ChatState.car_data cs))
  || missing_int (CarData.mileage (ChatState.car_data cs)) = true →
  first_name_of (ChatState.personal_data cs) = Some first_name →
  ∃ cs',
    process_message U E cs user_input
    = Return (cs', Generated (ResponseGenerator.eligibility_result
                                (ChatState.eligibility_result cs) first_name))
    ∧ same_data cs cs'.
Proof.
  intros Hstep Hmissing Hname. start_turn Hstep.
  unfold _evaluate_eligibility_node. fields.
  rewrite dump_personal_birth_year, dump_car_year, dump_car_mileage.
  replace (forallb truthy _) with false; cycle 1.
  { unfold missing_int in Hmissing. cbn [forallb].
    repeat (destruct (truthy _); try done). }
  cbn [negb]. fields. unfold _completed_node. fields.
  rewrite (split_first_full_name _ first_name Hname). fields. end_turn.
  eexists. split; [reflexivity|]. by repeat split.
Qed.

(** C8, where the code departs from it. The record is at step
    EVALUATING_ELIGIBILITY and has no mileage. The turn raises nothing,
    stores no result and leaves the step, but its response is not the
    missing-data message of the evaluation node: the completion node has
    replaced it. *)
Theorem evaluating_missing_mileage_response :
  ∃ cs' response,
    process_message latin1 demo_env
      (record_at EVALUATING_ELIGIBILITY juan corolla_without_mileage true true None)
      (txt "hola")
    = Return (cs', response)
    ∧ ChatState.current_step cs' = EVALUATING_ELIGIBILITY
    ∧ ChatState.eligibility_result cs' = None
    ∧ response = Generated (ResponseGenerator.eligibility_result None (txt "Juan"))
    ∧ response ≠ MISSING_DATA.
Proof. eexists _, _. split; [vm_compute; reflexivity|]. by repeat split. Qed.

(** What the evaluation node alone answers there. *)
Lemma evaluate_node_missing_mileage :
  last_response <$>
    (match _evaluate_eligibility_node demo_env
             (turn_state
                (record_at EVALUATING_ELIGIBILITY juan corolla_without_mileage
                   true true None) (txt "hola")) with
     | Return st => Some st
     | Raise _ => None
     end)
  = Some MISSING_DATA.
Proof. by vm_compute. Qed.

Lemma evaluate_node_complete (E : env) (st : GraphState) (b y m : Z) :
  dict_get (personal_data st) "birth_year" = PInt b →
  dict_get (car_data st) "year" = PInt y →
  dict_get (car_data st) "mileage" = PInt m →
  b ≠ 0 → y ≠ 0 → m ≠ 0 →
  _evaluate_eligibility_node E st =
  Return (set_current_step COMPLETED
            (set_eligibility_result
               (Some (evaluate_eligibility (current_year E) b y m)) st)).
Proof.
  intros Hb Hy Hm Hb0 Hy0 Hm0. unfold _evaluate_eligibility_node.
  rewrite Hb, Hy, Hm. cbn [forallb truthy].
  destruct (Z.eqb_spec b 0), (Z.eqb_spec y 0), (Z.eqb_spec m 0); done.
Qed.

Lemma completed_node_named (st : GraphState) (first_name : text) :
  split_first (dict_get_or (personal_data st) "full_name" USUARIO)
  = Return first_name →
  _completed_node st =
  Return (set_last_response
            (Generated (ResponseGenerator.eligibility_result
                          (eligibility_result st) first_name)) st).
Proof. intros H. unfold _completed_node. by rewrite H. Qed.

Lemma truthy_PInt (z : Z) : truthy (PInt z) = true → z ≠ 0.
Proof. cbn. by destruct (Z.eqb_spec z 0). Qed.

(** The values of a complete record that the eligibility rule reads. *)
Lemma complete_values (p : PersonalData.t) (c : CarData.t) :
  personal_complete p = true → car_complete c = true →
  ∃ b y m,
    PersonalData.birth_year p = Some b
    ∧ CarData.year c = Some y
    ∧ CarData.mileage c = Some m
    ∧ b ≠ 0 ∧ y ≠ 0 ∧ m ≠ 0.
Proof.
  unfold personal_complete, car_complete, missing_str, missing_int.
  intros Hpersonal Hcar.
  destruct (PersonalData.birth_year p) as [b|];
    [|by rewrite andb_false_r in Hpersonal].
  destruct (CarData.year c) as [y|]; [|by rewrite andb_false_r in Hcar].
  destruct (CarData.mileage c) as [m|]; [|by rewrite andb_false_r in Hcar].
  rewrite !negb_involutive in *.
  apply andb_prop in Hpersonal as [[_ Hb%truthy_PInt]%andb_prop _].
  apply andb_prop in Hcar as [[_ Hy%truthy_PInt]%andb_prop Hm%truthy_PInt].
  by exists b, y, m.
Qed.

(** The run of the graph on an affirmative answer to the confirmation of
    the car: the confirmation node, the evaluation node and the completion
    node follow one another. *)
Lemma confirm_car_yes_run (U : unicode) (E : env) (cs : ChatState.t)
    (user_input first_name : text) (b y m : Z) :
  ChatState.current_step cs = CONFIRMING_CAR_DATA →
  affirmative U user_input →
  first_name_of (ChatState.personal_data cs) = Some first_name →
  PersonalData.birth_year (ChatState.personal_data cs) = Some b →
  CarData.year (ChatState.car_data cs) = Some y →
  CarData.mileage (ChatState.car_data cs) = Some m →
  b ≠ 0 → y ≠ 0 → m ≠ 0 →
  invoke U E (turn_state cs user_input) =
  Return
    (set_last_response
       (Generated (ResponseGenerator.eligibility_result
                     (Some (evaluate_eligibility (current_year E) b y m))
                     first_name))
       (set_current_step COMPLETED
          (set_eligibility_result
             (Some (evaluate_eligibility (current_year E) b y m))
             (set_current_step EVALUATING_ELIGIBILITY
                (set_car_data_confirmed true (turn_state cs user_input)))))).
Proof.
  intros Hstep Hyes Hname Hb Hy Hm Hb0 Hy0 Hm0.
  rewrite invoke_unfold.
  change (current_step (turn_state cs user_input))
    with (ChatState.current_step cs).
  rewrite Hstep.
  rewrite (confirm_car_yes U _ user_input) by (done || apply turn_state_last).
  rewrite bind_Return.
  cbn [_after_confirm_car_data car_data_confirmed set_current_step
       set_car_data_confirmed].
  rewrite (evaluate_node_complete E _ b y m); [| | | |done|done|done].
  - rewrite bind_Return. rewrite (completed_node_named _ first_name); [done|].
    fields. by apply split_first_full_name.
  - fields. by rewrite dump_personal_birth_year, Hb.
  - fields. by rewrite dump_car_year, Hy.
  - fields. by rewrite dump_car_mileage, Hm.
Qed.

(** Where every field is truthy and the full name has a first word, the
    affirmative answer goes through: on such a record of step
    CONFIRMING_CAR_DATA one turn with an affirmative input ends at step
    COMPLETED with the car confirmed and the result of the eligibility rule
    stored, and its response is the announcement of that result. *)
Lemma confirming_car_yes_completes (U : unicode) (E : env) (cs : ChatState.t)
    (user_input first_name : text) :
  ChatState.current_step cs = CONFIRMING_CAR_DATA →
  personal_complete (ChatState.personal_data cs) = true →
  car_complete (ChatState.car_data cs) = true →
  first_name_of (ChatState.personal_data cs) = Some first_name →
  affirmative U user_input →
  ∃ cs' birth_year car_year mileage result,
    PersonalData.birth_year (ChatState.personal_data cs) = Some birth_year
    ∧ CarData.year (ChatState.car_data cs) = Some car_year
    ∧ CarData.mileage (ChatState.car_data cs) = Some mileage
    ∧ result = evaluate_eligibility (current_year E) birth_year car_year mileage
    ∧ process_message U E cs user_input
      = Return (cs', Generated (ResponseGenerator.eligibility_result
                                  (Some result) first_name))
    ∧ ChatState.current_step cs' = COMPLETED
    ∧ ChatState.car_data_confirmed cs' = true
    ∧ ChatState.eligibility_result cs' = Some result
    ∧ ChatState.personal_data cs' = ChatState.personal_data cs
    ∧ ChatState.car_data cs' = ChatState.car_data cs
    ∧ ChatState.personal_data_confirmed cs' = ChatState.personal_data_confirmed cs.
Proof.
  intros Hstep Hpersonal Hcar Hname Hyes.
  destruct (complete_values _ _ Hpersonal Hcar)
    as (b & y & m & Hb & Hy & Hm & Hb0 & Hy0 & Hm0).
  eexists _, b, y, m, _. do 4 (split; [done|]).
  unfold process_message.
  rewrite (confirm_car_yes_run U E cs user_input first_name b y m) by done.
  end_turn. split; [reflexivity|]. by repeat split.
Qed.

Lemma confirming_car_yes_completes_witness :
  ∃ cs',
    process_message latin1 demo_env
      (record_at CONFIRMING_CAR_DATA juan corolla true false None) (txt "Sí")
    = Return (cs', Generated (ResponseGenerator.eligibility_result
                                (Some (evaluate_eligibility 2026 1990 2020 45000))
                                (txt "Juan")))
    ∧ ChatState.current_step cs' = COMPLETED.
Proof.
  destruct (confirming_car_yes_completes latin1 demo_env
              (record_at CONFIRMING_CAR_DATA juan corolla true false None)
              (txt "Sí") (txt "Juan") eq_refl eq_refl eq_refl eq_refl)
    as (cs' & b & y & m & result & Hb & Hy & Hm & -> & Hrun & Hstep & _).
  - exists (txt "sí"). split; [apply list_elem_of_here|].
    exists [], []. reflexivity.
  - injection Hb as <-. injection Hy as <-. injection Hm as <-.
    exists cs'. by split.
Defined.

(** C5, where the code departs from it. Every field of the record is
    set and the mileage is 0, which the range test of the collection
    accepts. The evaluation node tests its three values for truth, takes
    the zero for a missing value and does not evaluate: the turn of the
    affirmative answer confirms the car and stops at step
    EVALUATING_ELIGIBILITY, which is stored, with no result, and its
    response is what the generator writes for no result, not an
    announcement. With the mileage 1 the same record completes. With every
    field set and a full name that holds no word, the completion node
    raises [IndexError] and the turn returns nothing. *)
Theorem confirming_car_zero_mileage_not_evaluated :
  (∃ cs',
     process_message latin1 demo_env
       (record_at CONFIRMING_CAR_DATA juan corolla_zero_mileage true false None)
       (txt "sí")
     = Return (cs', Generated (ResponseGenerator.eligibility_result None (txt "Juan")))
     ∧ ChatState.current_step cs' = EVALUATING_ELIGIBILITY
     ∧ ChatState.car_data_confirmed cs' = true
     ∧ ChatState.eligibility_result cs' = None
     ∧ ChatState.car_data cs' = corolla_zero_mileage)
  ∧ (∃ cs',
       process_message latin1 demo_env
         (record_at CONFIRMING_CAR_DATA juan
            {| CarData.brand := Some (txt "Toyota");
               CarData.model := Some (txt "Corolla");
               CarData.year := Some 2020;
               CarData.mileage := Some 1 |} true false None)
         (txt "sí")
       = Return (cs', Generated (ResponseGenerator.eligibility_result
                                   (Some (evaluate_eligibility 2026 1990 2020 1))
                                   (txt "Juan")))
       ∧ ChatState.current_step cs' = COMPLETED)
  ∧ process_message latin1 demo_env
      (record_at CONFIRMING_CAR_DATA blank_name corolla true false None)
      (txt "sí")
    = Raise IndexError.
Proof.
  split; [|split].
  - eexists. split; [vm_compute; reflexivity|]. by repeat split.
  - eexists. split; [vm_compute; reflexivity|]. by repeat split.
  - vm_compute. reflexivity.
Qed.

(** ** The collection of the car data: the mileage *)

Ltac start_collect cs user_input Hstep :=
  unfold process_message; rewrite invoke_unfold;
  change (current_step (turn_state cs user_input))
    with (ChatState.current_step cs);
  rewrite Hstep;
  let Hin := fresh "Hin" in
  let Hmsgs := fresh "Hmsgs" in
  destruct (turn_state_input cs user_input) as [Hin Hmsgs].

(** With brand, model and year set and no mileage yet, the turn stores the
    mileage read from the input when it lies between 1 and 500000 and goes
    on to the confirmation; otherwise it changes nothing and asks again. *)
Lemma collect_car_mileage_turn (U : unicode) (E : env) (cs : ChatState.t)
    (user_input : text) :
  ChatState.current_step cs = COLLECTING_CAR_DATA →
  missing_str (CarData.brand (ChatState.car_data cs)) = false →
  missing_str (CarData.model (ChatState.car_data cs)) = false →
  missing_int (CarData.year (ChatState.car_data cs)) = false →
  missing_int (CarData.mileage (ChatState.car_data cs)) = true →
  ∃ cs' response,
    process_message U E cs user_input = Return (cs', response)
    ∧ match _extract_mileage U user_input with
      | Some m =>
        if (1 <=? m) && (m <=? 500000) then
          ChatState.car_data cs' =
            {| CarData.brand := CarData.brand (ChatState.car_data cs);
               CarData.model := CarData.model (ChatState.car_data cs);
               CarData.year := CarData.year (ChatState.car_data cs);
               CarData.mileage := Some m |}
          ∧ ChatState.current_step cs' = CONFIRMING_CAR_DATA
        else
          ChatState.car_data cs' = ChatState.car_data cs
          ∧ ChatState.current_step cs' = COLLECTING_CAR_DATA
          ∧ response = Generated ResponseGenerator.invalid_mileage
      | None =>
        ChatState.car_data cs' = ChatState.car_data cs
        ∧ ChatState.current_step cs' = COLLECTING_CAR_DATA
        ∧ response = Generated ResponseGenerator.invalid_mileage
      end.
Proof.
  unfold missing_str, missing_int.
  intros Hstep Hbrand Hmodel Hyear Hmileage.
  start_collect cs user_input Hstep.
  unfold _collect_car_data_node. rewrite Hmsgs, Hin.
  change (car_data (turn_state cs user_input))
    with (dump_car_data (ChatState.car_data cs)).
  rewrite dump_car_brand, dump_car_model, dump_car_year, dump_car_mileage.
  rewrite Hbrand, Hmodel, Hyear, Hmileage.
  destruct (_extract_mileage U user_input) as [m|]; cbn [if_int truthy].
  - destruct (Z.eqb_spec m 0) as [->|Hm0]; cbn [negb].
    + fields. end_turn. eexists _, _. split; [reflexivity|]. by cbn.
    + destruct (Z.leb_spec 0 m), (Z.leb_spec 1 m), (Z.leb_spec m 500000);
        try lia; cbn [andb]; fields; end_turn;
        rewrite ?load_car_mileage; fields;
        eexists _, _; (split; [reflexivity|]); by fields.
  - fields. end_turn. eexists _, _. split; [reflexivity|]. by fields.
Qed.

(** C2, where the code departs from it. Brand, model and year are set and
    the user answers "0". The extractor reads the mileage 0, which the range
    test accepts, but the truth test before it refuses zero: nothing is
    stored, the step stays and the user is asked again. *)
Theorem collect_car_rejects_zero_mileage :
  _extract_mileage latin1 (txt "0") = Some 0
  ∧ ∃ cs',
      process_message latin1 demo_env
        (record_at COLLECTING_CAR_DATA juan corolla_without_mileage true false None)
        (txt "0")
      = Return (cs', Generated ResponseGenerator.invalid_mileage)
      ∧ ChatState.car_data cs' = corolla_without_mileage
      ∧ ChatState.current_step cs' = COLLECTING_CAR_DATA.
Proof.
  split; [by vm_compute|].
  eexists. split; [vm_compute; reflexivity|]. by split.
Qed.

(** ** The collection of the personal data *)

Lemma truthy_PStr (s : text) : s ≠ [] → truthy (PStr s) = true.
Proof. intros Hs. cbn. by rewrite bool_decide_eq_false_2. Qed.

Lemma unsafe_message_nonempty (safety_reason : option text) (what : string) :
  unsafe_message safety_reason what ≠ [].
Proof.
  unfold unsafe_message.
  destruct (txt "Tu mensaje contiene contenido inapropiado (") eqn:Hlit;
    [by vm_compute in Hlit | done].
Qed.

Lemma split_nil : split [] = [].
Proof. reflexivity. Qed.

(** What the extraction of the full name can answer: a name of at least two
    words, a safety message, or nothing. *)
Lemma extract_full_name_cases (U : unicode) (E : env) (user_input : text) :
  match _extract_full_name U E user_input with
  | (Some name, safety_error) =>
    safety_error = None ∧ name ≠ [] ∧ (2 ≤ length (split name))%nat
  | (None, Some safety_error) => safety_error ≠ []
  | (None, None) => True
  end.
Proof.
  unfold _extract_full_name.
  destruct (_validate_input_safety U E user_input) as [[|] reason]; cbn [negb].
  - destruct (_extract_with_llm E (FullNamePrompt user_input)) as [result|];
      [|done].
    destruct (negb _ && _) eqn:Hok; [|done].
    apply andb_prop in Hok as [_ Hlen%Nat.leb_le].
    repeat split; [|done]. intros ->. rewrite split_nil in Hlen. simpl in Hlen. lia.
  - apply unsafe_message_nonempty.
Qed.

Lemma split_first_two_words (name : text) :
  (2 ≤ length (split name))%nat → ∃ w, split_first (PStr name) = Return w.
Proof.
  intros Hlen. cbn. destruct (split name) as [|w ws]; [simpl in Hlen; lia|].
  by exists w.
Qed.

(** One turn of the collection of the personal data. *)
Lemma collect_personal_turn (U : unicode) (E : env) (cs : ChatState.t)
    (user_input : text) :
  ChatState.current_step cs = COLLECTING_PERSONAL_DATA →
  ∃ cs' response,
    process_message U E cs user_input = Return (cs', response)
    ∧ ChatState.car_data cs' = ChatState.car_data cs
    ∧ ChatState.personal_data_confirmed cs' = ChatState.personal_data_confirmed cs
    ∧ ChatState.car_data_confirmed cs' = ChatState.car_data_confirmed cs
    ∧ ChatState.eligibility_result cs' = ChatState.eligibility_result cs
    ∧ let p := ChatState.personal_data cs in
      let unchanged :=
        ChatState.personal_data cs' = p
        ∧ ChatState.current_step cs' = COLLECTING_PERSONAL_DATA in
      match first_missing p with
      | Some F_full_name =>
        match fst (_extract_full_name U E user_input) with
        | Some name =>
          ChatState.personal_data cs' =
            {| PersonalData.full_name := Some name;
               PersonalData.birth_year := PersonalData.birth_year p;
               PersonalData.email := PersonalData.email p |}
          ∧ ChatState.current_step cs' = COLLECTING_PERSONAL_DATA
        | None => unchanged
        end
      | Some F_birth_year =>
        match _extract_year U user_input with
        | Some year =>
          if (1900 <=? year) && (year <=? 2010) then
            ChatState.personal_data cs' =
              {| PersonalData.full_name := PersonalData.full_name p;
                 PersonalData.birth_year := Some year;
                 PersonalData.email := PersonalData.email p |}
            ∧ ChatState.current_step cs' = COLLECTING_PERSONAL_DATA
          else unchanged
        | None => unchanged
        end
      | Some F_email =>
        match _extract_email U user_input with
        | Some email =>
          ChatState.personal_data cs' =
            {| PersonalData.full_name := PersonalData.full_name p;
               PersonalData.birth_year := PersonalData.birth_year p;
               PersonalData.email := Some email |}
          ∧ ChatState.current_step cs' = CONFIRMING_PERSONAL_DATA
        | None => unchanged
        end
      | None => unchanged
      end.
Proof.
  intros Hstep. start_collect cs user_input Hstep.
  unfold _collect_personal_data_node. rewrite Hmsgs, Hin.
  change (personal_data (turn_state cs user_input))
    with (dump_personal_data (ChatState.personal_data cs)).
  rewrite dump_personal_full_name, dump_personal_birth_year, dump_personal_email.
  unfold first_missing. cbn [find personal_field_missing].
  unfold missing_str, missing_int.
  destruct (truthy (of_opt_str (PersonalData.full_name _))); cbn [negb].
  - destruct (truthy (of_opt_int (PersonalData.birth_year _))); cbn [negb].
    + destruct (truthy (of_opt_str (PersonalData.email _))); cbn [negb].
      * fields. end_turn. eexists _, _. split; [reflexivity|]. by fields.
      * destruct (_extract_email U user_input) as [email|] eqn:Hemail;
          cbn [if_str].
        -- rewrite (truthy_PStr email) by (by eapply extract_email_nonempty).
           fields. end_turn. rewrite load_personal_email. fields.
           eexists _, _. split; [reflexivity|]. by fields.
        -- fields. end_turn. eexists _, _. split; [reflexivity|]. by fields.
    + destruct (_extract_year U user_input) as [year|]; cbn [if_int truthy].
      * destruct (Z.eqb_spec year 0) as [->|Hyear]; cbn [negb].
        -- fields. end_turn. eexists _, _. split; [reflexivity|]. by cbn.
        -- destruct ((1900 <=? year) && (year <=? 2010));
             fields; end_turn; rewrite ?load_personal_birth_year; fields;
             eexists _, _; (split; [reflexivity|]); by fields.
      * fields. end_turn. eexists _, _. split; [reflexivity|]. by fields.
  - pose proof (extract_full_name_cases U E user_input) as Hcases.
    destruct (_extract_full_name U E user_input) as [[name|] [safety_error|]];
      cbn [fst].
    + by destruct Hcases.
    + destruct Hcases as (_ & Hname & Hwords). cbn [if_str].
      rewrite (truthy_PStr name Hname).
      destruct (split_first_two_words name Hwords) as [w ->].
      fields. end_turn. rewrite load_personal_full_name. fields.
      eexists _, _. split; [reflexivity|]. by fields.
    + cbn [if_str]. rewrite (truthy_PStr safety_error Hcases).
      fields. end_turn. eexists _, _. split; [reflexivity|]. by fields.
    + cbn [if_str]. fields. end_turn.
      eexists _, _. split; [reflexivity|]. by fields.
Qed.

(** C6. In step COLLECTING_PERSONAL_DATA a turn looks for the first missing
    field in the order full name, birth year, e-mail and tries to read that
    field only. When the reading succeeds, that field and no other is
    stored, and the step moves to CONFIRMING_PERSONAL_DATA exactly when the
    field is the e-mail; when it fails, or when no field is missing, the
    data and the step are unchanged. So no field but the first missing one
    ever changes in a turn, and a field that is set is never overwritten. *)
Theorem collect_personal_one_field (U : unicode) (E : env) (cs : ChatState.t)
    (user_input : text) :
  ChatState.current_step cs = COLLECTING_PERSONAL_DATA →
  ∃ cs' response,
    process_message U E cs user_input = Return (cs', response)
    ∧ ChatState.car_data cs' = ChatState.car_data cs
    ∧ ChatState.personal_data_confirmed cs' = ChatState.personal_data_confirmed cs
    ∧ ChatState.car_data_confirmed cs' = ChatState.car_data_confirmed cs
    ∧ ChatState.eligibility_result cs' = ChatState.eligibility_result cs
    ∧ let p := ChatState.personal_data cs in
      let unchanged :=
        ChatState.personal_data cs' = p
        ∧ ChatState.current_step cs' = COLLECTING_PERSONAL_DATA in
      match first_missing p with
      | Some F_full_name =>
        match fst (_extract_full_name U E user_input) with
        | Some name =>
          ChatState.personal_data cs' =
            {| PersonalData.full_name := Some name;
               PersonalData.birth_year := PersonalData.birth_year p;
               PersonalData.email := PersonalData.email p |}
          ∧ ChatState.current_step cs' = COLLECTING_PERSONAL_DATA
        | None => unchanged
        end
      | Some F_birth_year =>
        match _extract_year U user_input with
        | Some year =>
          if (1900 <=? year) && (year <=? 2010) then
            ChatState.personal_data cs' =
              {| PersonalData.full_name := PersonalData.full_name p;
                 PersonalData.birth_year := Some year;
                 PersonalData.email := PersonalData.email p |}
            ∧ ChatState.current_step cs' = COLLECTING_PERSONAL_DATA
          else unchanged
        | None => unchanged
        end
      | Some F_email =>
        match _extract_email U user_input with
        | Some email =>
          ChatState.personal_data cs' =
            {| PersonalData.full_name := PersonalData.full_name p;
               PersonalData.birth_year := PersonalData.birth_year p;
               PersonalData.email := Some email |}
          ∧ ChatState.current_step cs' = CONFIRMING_PERSONAL_DATA
        | None => unchanged
        end
      | None => unchanged
      end
    ∧ (∀ f, first_missing (ChatState.personal_data cs) ≠ Some f →
         personal_field_value (ChatState.personal_data cs') f
         = personal_field_value (ChatState.personal_data cs) f)
    ∧ (ChatState.current_step cs' = CONFIRMING_PERSONAL_DATA ↔
         first_missing (ChatState.personal_data cs) = Some F_email
         ∧ is_Some (_extract_email U user_input)).
Proof.
  intros Hstep.
  destruct (collect_personal_turn U E cs user_input Hstep)
    as (cs' & r & Hrun & Hc & Hpf & Hcf & Her & Hfield).
  exists cs', r. do 5 (split; [done|]). split; [exact Hfield|].
  cbv zeta in Hfield.
  destruct (first_missing (ChatState.personal_data cs)) as [[| |]|].
  - destruct (fst (_extract_full_name U E user_input));
      destruct Hfield as [-> ->]; (split; [by intros [| |]|]);
      (split; [done | by intros [? _]]).
  - destruct (_extract_year U user_input) as [year|];
      [destruct ((1900 <=? year) && (year <=? 2010))|];
      destruct Hfield as [-> ->]; (split; [by intros [| |]|]);
      (split; [done | by intros [? _]]).
  - destruct (_extract_email U user_input) as [email|];
      destruct Hfield as [-> ->]; (split; [by intros [| |]|]).
    + split; [by eauto | done].
    + split; [done | by intros [_ [? ?]]].
  - destruct Hfield as [-> ->]. split; [by intros [| |]|].
    split; [done | by intros [? _]].
Qed.

Lemma collect_personal_one_field_witness :
  ∃ cs' response,
    process_message latin1 demo_env
      (record_at COLLECTING_PERSONAL_DATA
         {| PersonalData.full_name := Some (txt "Juan Pérez");
            PersonalData.birth_year := None;
            PersonalData.email := None |}
         CarData.empty false false None)
      (txt "Nací en 1990, mi correo es juan@x.com")
    = Return (cs', response)
    ∧ ChatState.personal_data cs' =
        {| PersonalData.full_name := Some (txt "Juan Pérez");
           PersonalData.birth_year := Some 1990;
           PersonalData.email := None |}
    ∧ ChatState.current_step cs' = COLLECTING_PERSONAL_DATA.
Proof.
  destruct (collect_personal_one_field latin1 demo_env
              (record_at COLLECTING_PERSONAL_DATA
                 {| PersonalData.full_name := Some (txt "Juan Pérez");
                    PersonalData.birth_year := None;
                    PersonalData.email := None |}
                 CarData.empty false false None)
              (txt "Nací en 1990, mi correo es juan@x.com") eq_refl)
    as (cs' & response & Hrun & _ & _ & _ & _ & Hfield & _).
  exists cs', response. split; [exact Hrun|]. exact Hfield.
Defined.

(** ** The records a conversation reaches *)

Lemma confirm_personal_yes (U : unicode) (st : GraphState) (user_input : text) :
  last (messages st) = Some (HumanMessage user_input) →
  affirmative U user_input →
  _confirm_personal_data_node U st =
  (first_name ← split_first (dict_get_or (personal_data st) "full_name" USUARIO);
   Return (set_last_response
             (Generated (ResponseGenerator.personal_data_confirmed first_name))
             (set_current_step COLLECTING_CAR_DATA
                (set_personal_data_confirmed true st)))).
Proof.
  intros [Hin Hmsgs]%last_user_input_eq Hyes%affirmative_says_yes.
  unfold _confirm_personal_data_node. by rewrite Hmsgs, Hin, Hyes.
Qed.

Lemma confirm_personal_neither (U : unicode) (st : GraphState) (user_input : text) :
  last (messages st) = Some (HumanMessage user_input) →
  ¬ affirmative U user_input → ¬ negative U user_input →
  _confirm_personal_data_node U st =
  Return (set_last_response (Generated ResponseGenerator.invalid_confirmation) st).
Proof.
  intros [Hin Hmsgs]%last_user_input_eq Hyes Hno.
  unfold negative in Hno.
  destruct (neither_says U user_input Hyes) as [Hy Hn]; [tauto|].
  unfold _confirm_personal_data_node. by rewrite Hmsgs, Hin, Hy, Hn.
Qed.

Lemma confirm_car_neither (U : unicode) (st : GraphState) (user_input : text) :
  last (messages st) = Some (HumanMessage user_input) →
  ¬ affirmative U user_input → ¬ negative U user_input →
  _confirm_car_data_node U st =
  Return (set_last_response
            (Generated ResponseGenerator.invalid_car_confirmation) st).
Proof.
  intros [Hin Hmsgs]%last_user_input_eq Hyes Hno.
  unfold negative in Hno.
  destruct (neither_says U user_input Hyes) as [Hy Hn]; [tauto|].
  unfold _confirm_car_data_node. by rewrite Hmsgs, Hin, Hy, Hn.
Qed.

Lemma affirmative_dec (U : unicode) (user_input : text) :
  affirmative U user_input ∨ ¬ affirmative U user_input.
Proof.
  rewrite affirmative_says_yes.
  destruct (says_yes _); [by left | by right].
Qed.

Lemma negative_dec (U : unicode) (user_input : text) :
  negative U user_input ∨ ¬ negative U user_input.
Proof.
  rewrite negative_says_no.
  destruct (says_yes _), (says_no _); intuition congruence.
Qed.

(** A complete section with a well-formed name has a first name. *)
Lemma complete_first_name (p : PersonalData.t) :
  name_ok (PersonalData.full_name p) → personal_complete p = true →
  ∃ first_name, first_name_of p = Some first_name.
Proof.
  unfold name_ok, personal_complete, first_name_of, missing_str.
  destruct (PersonalData.full_name p) as [name|]; [|done].
  intros Hwords _. destruct (split name) as [|w ws]; [simpl in Hwords; lia|].
  by exists w.
Qed.

Lemma greeting_turn (U : unicode) (E : env) (cs : ChatState.t) (user_input : text) :
  ChatState.current_step cs = GREETING →
  ∃ cs',
    process_message U E cs user_input
    = Return (cs', Generated ResponseGenerator.greeting)
    ∧ ChatState.current_step cs' = COLLECTING_PERSONAL_DATA
    ∧ ChatState.personal_data cs' = ChatState.personal_data cs
    ∧ ChatState.car_data cs' = ChatState.car_data cs
    ∧ ChatState.personal_data_confirmed cs' = ChatState.personal_data_confirmed cs
    ∧ ChatState.car_data_confirmed cs' = ChatState.car_data_confirmed cs
    ∧ ChatState.eligibility_result cs' = ChatState.eligibility_result cs.
Proof.
  intros Hstep. start_turn Hstep. end_turn.
  eexists. split; [reflexivity|]. by fields.
Qed.

(** One turn of the confirmation of the personal data. *)
Lemma confirm_personal_turn (U : unicode) (E : env) (cs : ChatState.t)
    (user_input first_name : text) :
  ChatState.current_step cs = CONFIRMING_PERSONAL_DATA →
  first_name_of (ChatState.personal_data cs) = Some first_name →
  ∃ cs' r,
    process_message U E cs user_input = Return (cs', r)
    ∧ ChatState.car_data cs' = ChatState.car_data cs
    ∧ ChatState.car_data_confirmed cs' = ChatState.car_data_confirmed cs
    ∧ ChatState.eligibility_result cs' = ChatState.eligibility_result cs
    ∧ ((ChatState.current_step cs' = COLLECTING_CAR_DATA
        ∧ ChatState.personal_data cs' = ChatState.personal_data cs
        ∧ ChatState.personal_data_confirmed cs' = true)
       ∨ (ChatState.current_step cs' = COLLECTING_PERSONAL_DATA
          ∧ ChatState.personal_data cs' = PersonalData.empty
          ∧ ChatState.personal_data_confirmed cs'
            = ChatState.personal_data_confirmed cs)
       ∨ (ChatState.current_step cs' = CONFIRMING_PERSONAL_DATA
          ∧ ChatState.personal_data cs' = ChatState.personal_data cs
          ∧ ChatState.personal_data_confirmed cs'
            = ChatState.personal_data_confirmed cs)).
Proof.
  intros Hstep Hname. start_turn Hstep.
  destruct (affirmative_dec U user_input) as [Hyes|Hyes];
    [|destruct (negative_dec U user_input) as [Hno|Hno]].
  - rewrite (confirm_personal_yes U _ user_input)
      by (done || apply turn_state_last).
    fields. rewrite (split_first_full_name _ first_name Hname). end_turn.
    eexists _, _. split; [reflexivity|]. fields. auto 10.
  - rewrite (confirm_personal_no U _ user_input)
      by (done || apply turn_state_last).
    end_turn. eexists _, _. split; [reflexivity|]. fields. auto 10.
  - rewrite (confirm_personal_neither U _ user_input)
      by (done || apply turn_state_last).
    end_turn. eexists _, _. split; [reflexivity|]. fields. auto 10.
Qed.

Lemma extract_car_brand_cases (U : unicode) (E : env) (user_input : text) :
  match _extract_car_brand U E user_input with
  | (Some _, Some _) => False
  | (None, Some safety_error) => safety_error ≠ []
  | _ => True
  end.
Proof.
  unfold _extract_car_brand.
  destruct (_validate_input_safety U E user_input) as [[|] reason]; cbn [negb].
  - destruct (_extract_with_llm E (CarBrandPrompt user_input)); [|done].
    by destruct (negb _).
  - apply unsafe_message_nonempty.
Qed.

Lemma extract_car_model_cases (U : unicode) (E : env) (user_input : text)
    (brand : pyval) :
  match _extract_car_model U E user_input brand with
  | (Some _, Some _) => False
  | (None, Some safety_error) => safety_error ≠ []
  | _ => True
  end.
Proof.
  unfold _extract_car_model.
  destruct (_validate_input_safety U E user_input) as [[|] reason]; cbn [negb].
  - destruct (_extract_with_llm E _); [|done]. by destruct (negb _).
  - apply unsafe_message_nonempty.
Qed.

Ltac finish_turn :=
  fields; end_turn;
  rewrite ?load_car_brand, ?load_car_model, ?load_car_year, ?load_car_mileage;
  fields; eexists _, _; (split; [reflexivity|]); fields.

(** One turn of the collection of the car data: nothing but the car data
    and the step changes, and the step moves to the confirmation only with
    the four fields set. *)
Lemma collect_car_turn (U : unicode) (E : env) (cs : ChatState.t)
    (user_input : text) :
  ChatState.current_step cs = COLLECTING_CAR_DATA →
  ∃ cs' r,
    process_message U E cs user_input = Return (cs', r)
    ∧ ChatState.personal_data cs' = ChatState.personal_data cs
    ∧ ChatState.personal_data_confirmed cs' = ChatState.personal_data_confirmed cs
    ∧ ChatState.car_data_confirmed cs' = ChatState.car_data_confirmed cs
    ∧ ChatState.eligibility_result cs' = ChatState.eligibility_result cs
    ∧ (ChatState.current_step cs' = COLLECTING_CAR_DATA
       ∨ (ChatState.current_step cs' = CONFIRMING_CAR_DATA
          ∧ car_complete (ChatState.car_data cs') = true)).
Proof.
  intros Hstep. start_collect cs user_input Hstep.
  unfold _collect_car_data_node. rewrite Hmsgs, Hin.
  change (car_data (turn_state cs user_input))
    with (dump_car_data (ChatState.car_data cs)).
  rewrite dump_car_brand, dump_car_model, dump_car_year, dump_car_mileage.
  destruct (truthy (of_opt_str (CarData.brand _))) eqn:Hbrand; cbn [negb].
  - destruct (truthy (of_opt_str (CarData.model _))) eqn:Hmodel; cbn [negb].
    + destruct (truthy (of_opt_int (CarData.year _))) eqn:Hyear; cbn [negb].
      * destruct (truthy (of_opt_int (CarData.mileage _))); cbn [negb].
        -- finish_turn. auto 10.
        -- destruct (_extract_mileage U user_input) as [m|]; cbn [if_int].
           ++ destruct (truthy (PInt m)) eqn:Hm; [|finish_turn; auto 10].
              destruct ((0 <=? m) && (m <=? 500000)); finish_turn; [|auto 10].
              repeat split; try done. right. split; [done|].
              unfold car_complete, missing_str, missing_int. cbn [CarData.brand
                CarData.model CarData.year CarData.mileage of_opt_int].
              by rewrite Hbrand, Hmodel, Hyear, Hm.
           ++ finish_turn. auto 10.
      * destruct (_extract_year U user_input) as [year|]; cbn [if_int].
        -- destruct (truthy (PInt year)); [|finish_turn; auto 10].
           destruct ((2000 <=? year) && (year <=? 2025)); finish_turn; auto 10.
        -- finish_turn. auto 10.
    + pose proof (extract_car_model_cases U E user_input
                    (of_opt_str (CarData.brand (ChatState.car_data cs)))) as Hcases.
      destruct (_extract_car_model U E user_input _) as [[model|] [safety_error|]];
        cbn [if_str].
      * done.
      * destruct (truthy (PStr model)); finish_turn; auto 10.
      * rewrite (truthy_PStr safety_error Hcases). finish_turn. auto 10.
      * finish_turn. auto 10.
  - pose proof (extract_car_brand_cases U E user_input) as Hcases.
    destruct (_extract_car_brand U E user_input) as [[brand|] [safety_error|]];
      cbn [if_str].
    + done.
    + destruct (truthy (PStr brand)); finish_turn; auto 10.
    + rewrite (truthy_PStr safety_error Hcases). finish_turn. auto 10.
    + finish_turn. auto 10.
Qed.

(** One turn of the confirmation of the car on a record whose data are
    complete and whose car is not confirmed yet. *)
Lemma confirm_car_turn (U : unicode) (E : env) (cs : ChatState.t)
    (user_input first_name : text) :
  ChatState.current_step cs = CONFIRMING_CAR_DATA →
  personal_complete (ChatState.personal_data cs) = true →
  car_complete (ChatState.car_data cs) = true →
  first_name_of (ChatState.personal_data cs) = Some first_name →
  ChatState.car_data_confirmed cs = false →
  ∃ cs' r,
    process_message U E cs user_input = Return (cs', r)
    ∧ ChatState.personal_data cs' = ChatState.personal_data cs
    ∧ ChatState.personal_data_confirmed cs' = ChatState.personal_data_confirmed cs
    ∧ ((ChatState.current_step cs' = COMPLETED
        ∧ ChatState.car_data cs' = ChatState.car_data cs
        ∧ ChatState.car_data_confirmed cs' = true
        ∧ is_Some (ChatState.eligibility_result cs'))
       ∨ (ChatState.current_step cs' = COLLECTING_CAR_DATA
          ∧ ChatState.car_data_confirmed cs' = false)
       ∨ (ChatState.current_step cs' = CONFIRMING_CAR_DATA
          ∧ ChatState.car_data cs' = ChatState.car_data cs
          ∧ ChatState.car_data_confirmed cs' = false)).
Proof.
  intros Hstep Hpersonal Hcar Hname Hflag.
  destruct (affirmative_dec U user_input) as [Hyes|Hyes];
    [|destruct (negative_dec U user_input) as [Hno|Hno]].
  - destruct (complete_values _ _ Hpersonal Hcar)
      as (b & y & m & Hb & Hy & Hm & Hb0 & Hy0 & Hm0).
    unfold process_message.
    rewrite (confirm_car_yes_run U E cs user_input first_name b y m) by done.
    end_turn. eexists _, _. split; [reflexivity|]. fields.
    do 2 (split; [done|]). left. eauto.
  - start_turn Hstep.
    rewrite (confirm_car_no U _ user_input) by (done || apply turn_state_last).
    fields. rewrite (split_first_full_name _ first_name Hname). fields.
    rewrite Hflag. end_turn.
    eexists _, _. split; [reflexivity|]. fields. auto 10.
  - start_turn Hstep.
    rewrite (confirm_car_neither U _ user_input) by (done || apply turn_state_last).
    fields. rewrite Hflag. end_turn.
    eexists _, _. split; [reflexivity|]. fields. auto 10.
Qed.

(** The collection of the personal data keeps the stored name well formed
    and moves to the confirmation only with the three fields set. *)
Lemma collect_personal_turn_summary (U : unicode) (E : env) (cs : ChatState.t)
    (user_input : text) :
  ChatState.current_step cs = COLLECTING_PERSONAL_DATA →
  name_ok (PersonalData.full_name (ChatState.personal_data cs)) →
  ∃ cs' r,
    process_message U E cs user_input = Return (cs', r)
    ∧ ChatState.car_data cs' = ChatState.car_data cs
    ∧ ChatState.personal_data_confirmed cs' = ChatState.personal_data_confirmed cs
    ∧ ChatState.car_data_confirmed cs' = ChatState.car_data_confirmed cs
    ∧ ChatState.eligibility_result cs' = ChatState.eligibility_result cs
    ∧ name_ok (PersonalData.full_name (ChatState.personal_data cs'))
    ∧ (ChatState.current_step cs' = COLLECTING_PERSONAL_DATA
       ∨ (ChatState.current_step cs' = CONFIRMING_PERSONAL_DATA
          ∧ personal_complete (ChatState.personal_data cs') = true)).
Proof.
  intros Hstep Hname.
  destruct (collect_personal_turn U E cs user_input Hstep)
    as (cs' & r & Hrun & Hc & Hpf & Hcf & Her & Hfield).
  exists cs', r. do 5 (split; [done|]). cbv zeta in Hfield.
  unfold first_missing in Hfield. cbn [find personal_field_missing] in Hfield.
  destruct (missing_str (PersonalData.full_name _)) eqn:Hmn.
  - pose proof (extract_full_name_cases U E user_input) as Hcases.
    destruct (_extract_full_name U E user_input) as [[name|] safety_error];
      cbn [fst] in Hfield; destruct Hfield as [-> ->].
    + split; [|by left]. cbn. by destruct Hcases as (_ & _ & Hwords).
    + split; [done | by left].
  - destruct (missing_int (PersonalData.birth_year _)) eqn:Hmb.
    + destruct (_extract_year U user_input) as [year|];
        [destruct ((1900 <=? year) && (year <=? 2010))|];
        destruct Hfield as [-> ->]; (split; [done | by left]).
    + destruct (missing_str (PersonalData.email _)) eqn:Hme;
        [|destruct Hfield as [-> ->]; (split; [done | by left])].
      destruct (_extract_email U user_input) as [email|] eqn:Hemail;
        destruct Hfield as [-> ->]; (split; [done|]); [|by left].
      right. split; [done|]. unfold personal_complete.
      cbn [PersonalData.full_name PersonalData.birth_year PersonalData.email].
      rewrite Hmn, Hmb. unfold missing_str. cbn [of_opt_str].
      by rewrite (truthy_PStr email) by (by eapply extract_email_nonempty).
Qed.

Lemma fresh_consistent (conversation_id : text) :
  consistent (ChatState.fresh conversation_id).
Proof. unfold consistent. cbn. repeat split; (done || lia). Qed.

Ltac consistent_goal :=
  unfold consistent;
  repeat match goal with
         | H : ChatState.current_step _ = _ |- _ => rewrite H
         | H : ChatState.personal_data _ = _ |- _ => rewrite H
         | H : ChatState.car_data _ = _ |- _ => rewrite H
         | H : ChatState.personal_data_confirmed _ = _ |- _ => rewrite H
         | H : ChatState.car_data_confirmed _ = _ |- _ => rewrite H
         | H : ChatState.eligibility_result _ = _ |- _ => rewrite H
         end;
  cbn [stage]; repeat split; intros; try done; try lia; auto.

(** A turn keeps a record consistent. *)
Lemma turn_consistent (U : unicode) (E : env) (cs cs' : ChatState.t)
    (user_input : text) (r : response) :
  consistent cs →
  process_message U E cs user_input = Return (cs', r) →
  consistent cs'.
Proof.
  intros (Hname & Hpersonal & Hcar & Hresult & Hstage & Hpf & Hcf) Hrun.
  destruct (ChatState.current_step cs) eqn:Hstep; cbn [stage] in *.
  - destruct (greeting_turn U E cs user_input Hstep)
      as (cs1 & Hrun1 & Hstep1 & Hp1 & Hc1 & Hpf1 & Hcf1 & Her1).
    rewrite Hrun in Hrun1. injection Hrun1 as <- _.
    rewrite Hpf in Hpf1. rewrite Hcf in Hcf1. clear Hstep. consistent_goal.
  - destruct (collect_personal_turn_summary U E cs user_input Hstep Hname)
      as (cs1 & r1 & Hrun1 & Hc1 & Hpf1 & Hcf1 & Her1 & Hname1 & Hstep1).
    rewrite Hrun in Hrun1. injection Hrun1 as <- _.
    rewrite Hpf in Hpf1. rewrite Hcf in Hcf1. clear Hstep.
    destruct Hstep1 as [Hstep1 | [Hstep1 Hcomplete]]; consistent_goal.
  - destruct (complete_first_name (ChatState.personal_data cs))
      as [first_name Hfirst]; [done | apply Hpersonal; lia |].
    destruct (confirm_personal_turn U E cs user_input first_name Hstep Hfirst)
      as (cs1 & r1 & Hrun1 & Hc1 & Hcf1 & Her1 & Hcases).
    rewrite Hrun in Hrun1. injection Hrun1 as <- _.
    rewrite Hcf in Hcf1. clear Hstep.
    destruct Hcases as [(Hstep1 & Hp1 & Hpf1) | [(Hstep1 & Hp1 & Hpf1)
                                                | (Hstep1 & Hp1 & Hpf1)]];
      rewrite ?Hpf in Hpf1; consistent_goal.
  - destruct (collect_car_turn U E cs user_input Hstep)
      as (cs1 & r1 & Hrun1 & Hp1 & Hpf1 & Hcf1 & Her1 & Hstep1).
    rewrite Hrun in Hrun1. injection Hrun1 as <- _.
    rewrite Hpf in Hpf1. rewrite Hcf in Hcf1. clear Hstep.
    destruct Hstep1 as [Hstep1 | [Hstep1 Hcomplete]].
    + unfold consistent. rewrite Hstep1, Hp1, Hpf1, Hcf1, Her1. cbn [stage].
      repeat split; intros; try done; try lia; auto.
    + unfold consistent. rewrite Hstep1, Hp1, Hpf1, Hcf1, Her1. cbn [stage].
      repeat split; intros; try done; try lia; auto.
  - destruct (complete_first_name (ChatState.personal_data cs))
      as [first_name Hfirst]; [done | apply Hpersonal; lia |].
    destruct (confirm_car_turn U E cs user_input first_name Hstep)
      as (cs1 & r1 & Hrun1 & Hp1 & Hpf1 & Hcases); auto.
    rewrite Hrun in Hrun1. injection Hrun1 as <- _.
    rewrite Hpf in Hpf1. clear Hstep.
    destruct Hcases as [(Hstep1 & Hc1 & Hcf1 & Her1) | [(Hstep1 & Hcf1)
                                                       | (Hstep1 & Hc1 & Hcf1)]].
    + unfold consistent. rewrite Hstep1, Hp1, Hpf1, Hc1, Hcf1. cbn [stage].
      repeat split; intros; try done; try lia; auto.
    + unfold consistent. rewrite Hstep1, Hp1, Hpf1, Hcf1. cbn [stage].
      repeat split; intros; try done; try lia; auto.
    + unfold consistent. rewrite Hstep1, Hp1, Hpf1, Hc1, Hcf1. cbn [stage].
      repeat split; intros; try done; try lia; auto.
  - done.
  - destruct (complete_first_name (ChatState.personal_data cs))
      as [first_name Hfirst]; [done | apply Hpersonal; lia |].
    destruct (completed_turn U E cs user_input first_name Hstep Hfirst)
      as (cs1 & Hrun1 & Hid & Hstep1 & Hp1 & Hc1 & Hpf1 & Hcf1 & Her1).
    rewrite Hrun in Hrun1. injection Hrun1 as <- _.
    unfold consistent. rewrite <- Hstep1, <- Hp1, <- Hc1, <- Hpf1, <- Hcf1, <- Her1.
    rewrite Hstep. cbn [stage]. repeat split; intros; try done; try lia; auto.
Qed.

(** Every record a conversation reaches is consistent. *)
Lemma reachable_consistent (U : unicode) (cs : ChatState.t) :
  reachable U cs → consistent cs.
Proof.
  induction 1 as [conversation_id | E cs cs' user_input r _ IH Hrun].
  - apply fresh_consistent.
  - by eapply turn_consistent.
Qed.

(** On a consistent record a turn raises nothing. *)
Lemma consistent_turn_returns (U : unicode) (E : env) (cs : ChatState.t)
    (user_input : text) :
  consistent cs → ∃ cs' r, process_message U E cs user_input = Return (cs', r).
Proof.
  intros (Hname & Hpersonal & Hcar & Hresult & Hstage & Hpf & Hcf).
  destruct (ChatState.current_step cs) eqn:Hstep; cbn [stage] in *.
  - destruct (greeting_turn U E cs user_input Hstep) as (cs' & Hrun & _). eauto.
  - destruct (collect_personal_turn U E cs user_input Hstep)
      as (cs' & r & Hrun & _). eauto.
  - destruct (complete_first_name (ChatState.personal_data cs))
      as [first_name Hfirst]; [done | apply Hpersonal; lia |].
    destruct (confirm_personal_turn U E cs user_input first_name Hstep Hfirst)
      as (cs' & r & Hrun & _). eauto.
  - destruct (collect_car_turn U E cs user_input Hstep) as (cs' & r & Hrun & _).
    eauto.
  - destruct (complete_first_name (ChatState.personal_data cs))
      as [first_name Hfirst]; [done | apply Hpersonal; lia |].
    destruct (confirm_car_turn U E cs user_input first_name Hstep)
      as (cs' & r & Hrun & _); auto. eauto.
  - done.
  - destruct (complete_first_name (ChatState.personal_data cs))
      as [first_name Hfirst]; [done | apply Hpersonal; lia |].
    destruct (completed_turn U E cs user_input first_name Hstep Hfirst)
      as (cs' & Hrun & _). eauto.
Qed.

(** In a conversation no turn ever raises. *)
Lemma reachable_turn_returns (U : unicode) (E : env) (cs : ChatState.t)
    (user_input : text) :
  reachable U cs → ∃ cs' r, process_message U E cs user_input = Return (cs', r).
Proof. intros Hcs%reachable_consistent. by apply consistent_turn_returns. Qed.

(** EVALUATING_ELIGIBILITY is never the step of a stored record. *)
Lemma reachable_not_evaluating (U : unicode) (cs : ChatState.t) :
  reachable U cs → ChatState.current_step cs ≠ EVALUATING_ELIGIBILITY.
Proof.
  intros (_ & _ & _ & _ & Hstage & _)%reachable_consistent Hstep.
  by rewrite Hstep in Hstage.
Qed.

(** From the confirmation of the personal data on, the record has a first
    name: the hypothesis of the statements about the later steps holds in
    every conversation. *)
Lemma reachable_first_name (U : unicode) (cs : ChatState.t) :
  reachable U cs →
  (2 ≤ stage (ChatState.current_step cs))%nat →
  ∃ first_name, first_name_of (ChatState.personal_data cs) = Some first_name.
Proof.
  intros (Hname & Hpersonal & _)%reachable_consistent Hstage.
  apply complete_first_name; auto.
Qed.

(** A reached record of step COMPLETED holds complete data and a result. *)
Lemma reachable_completed (U : unicode) (cs : ChatState.t) :
  reachable U cs →
  ChatState.current_step cs = COMPLETED →
  personal_complete (ChatState.personal_data cs) = true
  ∧ car_complete (ChatState.car_data cs) = true
  ∧ is_Some (ChatState.eligibility_result cs)
  ∧ ChatState.personal_data_confirmed cs = true
  ∧ ChatState.car_data_confirmed cs = true.
Proof.
  intros (_ & Hpersonal & Hcar & Hresult & _ & Hpf & Hcf)%reachable_consistent Hstep.
  rewrite Hstep in *. cbn [stage] in *.
  repeat split; [apply Hpersonal; lia | apply Hcar; lia | by apply Hresult | done..].
Qed.

(** While the personal data are being confirmed in a conversation, the flag
    is still unset: there the negative answer leaves it unset. *)
Lemma reachable_confirming_personal_flag (U : unicode) (cs : ChatState.t) :
  reachable U cs →
  ChatState.current_step cs = CONFIRMING_PERSONAL_DATA →
  ChatState.personal_data_confirmed cs = false.
Proof.
  intros (_ & _ & _ & _ & _ & Hpf & _)%reachable_consistent Hstep.
  by rewrite Hpf, Hstep.
Qed.

(** The conversation of the specification: ten turns from a fresh record
    end at step COMPLETED with an eligible result. *)
Example happy_path :
  (λ cs, (ChatState.current_step cs, is_eligible <$> ChatState.eligibility_result cs))
    <$> match turns latin1 demo_env (ChatState.fresh (txt "c-1"))
                ["Hola"; "Juan Pérez"; "1990"; "juan@x.com"; "sí";
                 "Toyota"; "Corolla"; "2020"; "45000"; "sí"] with
        | Return cs => Some cs
        | Raise _ => None
        end
  = Some (COMPLETED, Some true).
Proof. by vm_compute. Qed.

(** * Further properties of the code *)

(** ** Words and whitespace *)

Lemma split_go_word (w cur s : text) :
  Forall (λ c, isspace c = false) w →
  split_go cur (w ++ s) = split_go (rev w ++ cur) s.
Proof.
  revert cur; induction w as [|c w IH]; intros cur Hw; [done|].
  inversion Hw as [|? ? Hc Hw']; subst. cbn [app split_go]. rewrite Hc.
  rewrite IH by done. cbn [rev]. by rewrite <- app_assoc.
Qed.

Lemma split_go_words (cur s : text) :
  Forall (λ c, isspace c = false) cur →
  Forall is_word_text (split_go cur s).
Proof.
  assert (Hrev : ∀ cur : text, cur ≠ [] →
            Forall (λ c, isspace c = false) cur → is_word_text (rev cur)).
  { intros cur' Hne Hall. split.
    - intros Hnil. apply Hne. by rewrite <- (rev_involutive cur'), Hnil.
    - apply Forall_forall. intros c Hc%list_elem_of_In%in_rev%list_elem_of_In.
      by eapply (proj1 (Forall_forall _ _) Hall). }
  revert cur; induction s as [|c s IH]; intros cur Hcur; cbn [split_go].
  - destruct cur as [|c0 cur']; [constructor|]. constructor; [|constructor].
    by apply Hrev.
  - destruct (isspace c) eqn:Hc.
    + destruct cur as [|c0 cur']; [by apply IH|].
      constructor; [by apply Hrev | by apply IH].
    + apply IH. by constructor.
Qed.

(** The words of a text are words. *)
Lemma split_words (s : text) : Forall is_word_text (split s).
Proof. by apply split_go_words. Qed.

Lemma split_go_spaces (cur ws : text) :
  Forall (λ c, isspace c = true) ws →
  split_go cur ws = match cur with [] => [] | _ => [rev cur] end.
Proof.
  revert cur; induction ws as [|c ws IH]; intros cur Hws; [done|].
  inversion Hws as [|? ? Hc Hws']; subst. cbn [split_go]. rewrite Hc.
  destruct cur; rewrite IH by done; done.
Qed.

Lemma split_go_trailing (cur s ws : text) :
  Forall (λ c, isspace c = true) ws →
  split_go cur (s ++ ws) = split_go cur s.
Proof.
  intros Hws. revert cur; induction s as [|c s IH]; intros cur.
  - cbn [app]. by rewrite split_go_spaces.
  - cbn [app split_go]. destruct (isspace c); [|by rewrite IH].
    destruct cur; by rewrite IH.
Qed.

Lemma lstrip_decompose (s : text) :
  ∃ ws, s = ws ++ lstrip s ∧ Forall (λ c, isspace c = true) ws.
Proof.
  induction s as [|c s (ws & Hs & Hws)]; [by exists []|].
  cbn [lstrip]. destruct (isspace c) eqn:Hc.
  - exists (c :: ws). split; [by rewrite Hs at 1 | by constructor].
  - by exists [].
Qed.

Lemma rstrip_decompose (s : text) :
  ∃ ws, s = rstrip s ++ ws ∧ Forall (λ c, isspace c = true) ws.
Proof.
  destruct (lstrip_decompose (rev s)) as (ws & Hs & Hws).
  exists (rev ws). split.
  - unfold rstrip. rewrite <- rev_app_distr, <- Hs. by rewrite rev_involutive.
  - apply Forall_forall. intros c Hc%list_elem_of_In%in_rev%list_elem_of_In.
    by eapply (proj1 (Forall_forall _ _) Hws).
Qed.

Lemma split_lstrip (s : text) : split (lstrip s) = split s.
Proof.
  unfold split. induction s as [|c s IH]; [done|].
  cbn [lstrip]. destruct (isspace c) eqn:Hc; cbn [split_go]; by rewrite Hc.
Qed.

Lemma split_rstrip (s : text) : split (rstrip s) = split s.
Proof.
  destruct (rstrip_decompose s) as (ws & Hs & Hws).
  rewrite Hs at 2. unfold split. by rewrite split_go_trailing.
Qed.

(** Trimming a text does not change its words. *)
Lemma split_strip (s : text) : split (strip s) = split s.
Proof. unfold strip. by rewrite split_rstrip, split_lstrip. Qed.

(** Joining words with single spaces and splitting again gives the words
    back. *)
Lemma split_join (ws : list text) :
  Forall is_word_text ws → split (join SPACE ws) = ws.
Proof.
  unfold split. induction ws as [|w ws IH]; [done|].
  intros Hws. inversion Hws as [|? ? [Hne Hw] Hws']; subst.
  assert (Hrev : rev w ≠ []).
  { intros Hnil. apply Hne. by rewrite <- (rev_involutive w), Hnil. }
  destruct ws as [|w2 ws].
  - cbn [join]. rewrite <- (app_nil_r w) at 1. rewrite split_go_word by done.
    rewrite app_nil_r. cbn [split_go].
    destruct (rev w) eqn:Hr; [done|]. by rewrite <- Hr, rev_involutive.
  - change (join SPACE (w :: w2 :: ws))
      with (w ++ 32%N :: join SPACE (w2 :: ws)).
    rewrite split_go_word by done. rewrite app_nil_r. cbn [split_go].
    change (isspace 32) with true. cbv iota.
    destruct (rev w) eqn:Hr; [done|]. rewrite <- Hr, rev_involutive.
    by rewrite IH.
Qed.

Lemma lstrip_head (c : N) (s : text) :
  isspace c = false → lstrip (c :: s) = c :: s.
Proof. intros Hc. cbn [lstrip]. by rewrite Hc. Qed.

Lemma join_head (w : text) (ws : list text) :
  w ≠ [] → head (join SPACE (w :: ws)) = head w.
Proof. destruct w; [done|]. by destruct ws. Qed.

Lemma join_last (ws : list text) (w : text) :
  w ≠ [] → last (join SPACE (ws ++ [w])) = last w.
Proof.
  intros Hw. induction ws as [|w0 ws IH]; [done|].
  cbn [app]. destruct (ws ++ [w]) as [|w1 rest] eqn:Hrest.
  { by destruct ws. }
  change (join SPACE (w0 :: w1 :: rest))
    with (w0 ++ SPACE ++ join SPACE (w1 :: rest)).
  rewrite !last_app, IH.
  destruct (last w) eqn:Hl; [done|].
  destruct w using rev_ind; [done|]. by rewrite last_snoc in Hl.
Qed.

(** A text made of words joined by single spaces has no whitespace at its
    ends. *)
Lemma strip_join (ws : list text) :
  Forall is_word_text ws → strip (join SPACE ws) = join SPACE ws.
Proof.
  intros Hws. destruct ws as [|w ws]; [done|].
  assert (Hl : lstrip (join SPACE (w :: ws)) = join SPACE (w :: ws)).
  { inversion Hws as [|? ? [Hne Hw] _]; subst.
    pose proof (join_head w ws Hne) as Hhead.
    destruct w as [|c w]; [done|]. inversion Hw; subst.
    destruct (join SPACE ((c :: w) :: ws)) as [|c' j]; [done|].
    injection Hhead as ->. by apply lstrip_head. }
  unfold strip. rewrite Hl. unfold rstrip.
  destruct (exists_last (l := w :: ws)) as (ws0 & wl & Hsnoc); [done|].
  rewrite Hsnoc in *. clear Hl Hsnoc.
  apply Forall_app in Hws as [_ Hwl]. inversion Hwl as [|? ? [Hne Hw] _]; subst.
  pose proof (join_last ws0 wl Hne) as Hlast.
  destruct (join SPACE (ws0 ++ [wl])) as [|c j] using rev_ind; [done|].
  rewrite last_snoc in Hlast. rewrite rev_app_distr. cbn [rev app].
  assert (Hc : isspace c = false).
  { destruct wl as [|d wl] using rev_ind; [done|].
    rewrite last_snoc in Hlast. injection Hlast as <-.
    apply Forall_app in Hw as [_ Hd]. by inversion Hd. }
  rewrite lstrip_head by done. cbn [rev]. by rewrite rev_involutive.
Qed.

(** X1. What [_extract_with_llm] hands back is the reply with its words
    separated by single spaces: never the empty string, nothing but the
    words of the reply, and no whitespace at the ends. It hands back nothing
    exactly when the call raises or the reply is blank. *)
Theorem extract_with_llm_normalised (E : env) (p : prompt) :
  match _extract_with_llm E p with
  | Some result =>
    ∃ content,
      llm E p = LLMContent content
      ∧ result = join SPACE (split content)
      ∧ result ≠ []
      ∧ split result = split content
      ∧ strip result = result
  | None =>
    llm E p = LLMFailure
    ∨ ∃ content, llm E p = LLMContent content ∧ split content = []
  end.
Proof.
  unfold _extract_with_llm. destruct (llm E p) as [content|]; [|by left].
  change (txt " ") with SPACE. rewrite split_strip. cbn [if_str truthy].
  pose proof (split_words content) as Hwords.
  case_bool_decide as Hnil; cbn [negb].
  - right. exists content. split; [done|].
    destruct (split content) as [|w ws]; [done|]. exfalso.
    inversion Hwords as [|? ? [Hne _] _]; subst.
    pose proof (join_head w ws Hne) as Hhead. rewrite Hnil in Hhead.
    by destruct w.
  - exists content. repeat split; try done.
    + by apply split_join.
    + by apply strip_join.
Qed.

(** ** What the patterns read *)

Lemma startswith_drop (s lit : text) :
  startswith s lit = true → s = lit ++ drop (length lit) s.
Proof.
  intros [b ->]%startswith_spec. by rewrite drop_app_length.
Qed.

(** A match at a position is a prefix of the text from there on. *)
Lemma match_here_prefix (U : unicode) (re : list atom)
    (prev : option N) (s m : text) :
  match_here U re prev s = Some m → ∃ rest, s = m ++ rest.
Proof.
  revert prev s m; induction re as [|a re IH]; intros prev s m; simpl.
  - intros [= <-]. by exists s.
  - destruct a as [|alts|cls lo hi].
    + destruct (at_boundary U prev (head s)); [apply IH | done].
    + intros [lit [_ Hlit]]%first_some_Some.
      destruct (startswith s lit) eqn:Hstart; [|done].
      apply fmap_Some in Hlit as [m' [[rest Hrest]%IH ->]].
      exists rest. rewrite (startswith_drop s lit Hstart) at 1.
      by rewrite Hrest, app_assoc.
    + intros [k [_ Hk]]%first_some_Some.
      apply fmap_Some in Hk as [m' [[rest Hrest]%IH ->]].
      exists rest. rewrite <- (take_drop k s) at 1.
      by rewrite Hrest, app_assoc.
Qed.

(** What [re.search] finds is a part of the text. *)
Lemma re_search_contains (U : unicode) (re : list atom) (s m : text) :
  re_search U re s = Some m → contains m s.
Proof.
  unfold re_search. generalize (@None N) as prev. revert m.
  induction s as [|c s IH]; intros m prev; simpl.
  - destruct (match_here U re prev []) eqn:Hm; [|done].
    intros [= <-]. apply match_here_prefix in Hm as [rest Hrest].
    by exists [], rest.
  - destruct (match_here U re prev (c :: s)) eqn:Hm.
    + intros [= <-]. apply match_here_prefix in Hm as [rest Hrest].
      by exists [], rest.
    + intros (a & b & ->)%IH. by exists (c :: a), b.
Qed.

Lemma digit_value_range (U : unicode) (c : N) (d : Z) :
  decimal_digits U → digit_value U c = Some d → 0 ≤ d ≤ 9.
Proof.
  intros HU. unfold digit_value, in_range.
  destruct (N.ltb_spec c 128); [|by apply HU].
  destruct (N.leb_spec 48 c), (N.leb_spec c 57); cbn [andb]; try done.
  intros [= <-]. lia.
Qed.

(** The integer read from [n] decimal digits after the value [a]. *)
Lemma py_int_fold (U : unicode) (s : text) (a : Z) :
  decimal_digits U →
  Forall (λ c, is_digit U c = true) s →
  ∃ v,
    foldl (λ acc c,
             match acc, digit_value U c with
             | Some a, Some d => Some (10 * a + d)
             | _, _ => None
             end) (Some a) s
    = Some (a * 10 ^ Z.of_nat (length s) + v)
    ∧ 0 ≤ v < 10 ^ Z.of_nat (length s).
Proof.
  intros HU. revert a; induction s as [|c s IH]; intros a Hs.
  - exists 0. cbn. split; [f_equal; lia | lia].
  - inversion Hs as [|? ? Hc Hs']; subst.
    unfold is_digit in Hc. apply bool_decide_eq_true in Hc as [d Hd].
    pose proof (digit_value_range U c d HU Hd) as Hrange.
    cbn [foldl]. rewrite Hd.
    destruct (IH (10 * a + d) Hs') as (v & -> & Hv).
    exists (d * 10 ^ Z.of_nat (length s) + v).
    cbn [length]. rewrite Nat2Z.inj_succ, Z.pow_succ_r by lia.
    split; [f_equal; lia | nia].
Qed.

Lemma py_int_range (U : unicode) (s : text) :
  decimal_digits U → s ≠ [] →
  Forall (λ c, is_digit U c = true) s →
  ∃ v, py_int U s = Some v ∧ 0 ≤ v < 10 ^ Z.of_nat (length s).
Proof.
  intros HU Hne Hs. unfold py_int. destruct s as [|c s]; [done|].
  destruct (py_int_fold U (c :: s) 0 HU Hs) as (v & Hv & Hrange).
  exists v. by rewrite Hv.
Qed.

Lemma latin1_decimal_digits : decimal_digits latin1.
Proof. by intros c d. Qed.

(** X2. A year that [_extract_year] reads lies between 1900 and 2099 and is
    the value of four digits found in the text. *)
Theorem extract_year_range (U : unicode) (t : text) (year : Z) :
  decimal_digits U →
  _extract_year U t = Some year →
  1900 ≤ year ≤ 2099
  ∧ ∃ m, contains m t ∧ length m = 4%nat ∧ py_int U m = Some year.
Proof.
  intros HU. unfold _extract_year.
  destruct (re_search U (YEAR_RE U) t) as [m|] eqn:Hsearch; [|done].
  intros Hint. pose proof (re_search_contains _ _ _ _ Hsearch) as Hin.
  apply re_search_shaped in Hsearch. simpl in Hsearch.
  destruct Hsearch
    as (lit & m' & Hlit & -> & run & m'' & -> & Hrun & Hlo & Hhi & ->).
  rewrite app_nil_r in *. specialize (Hhi 2%nat eq_refl).
  assert (length run = 2%nat) as Hlen by lia.
  destruct (py_int_fold U run) with (a := 19) as (v19 & H19 & Hv19); [done..|].
  destruct (py_int_fold U run) with (a := 20) as (v20 & H20 & Hv20); [done..|].
  rewrite Hlen in *. change (10 ^ Z.of_nat 2) with 100 in *.
  apply elem_of_cons in Hlit as [->|Hlit];
    [|apply elem_of_cons in Hlit as [->|Hlit]; [|by apply elem_of_nil in Hlit]].
  - split.
    + unfold py_int in Hint. cbn [app] in Hint. rewrite foldl_app in Hint.
      change (foldl _ (Some 0) (txt "19")) with (Some 19) in Hint.
      rewrite H19 in Hint. injection Hint as <-. lia.
    + exists (txt "19" ++ run). repeat split; [done| |done].
      rewrite length_app, Hlen. reflexivity.
  - split.
    + unfold py_int in Hint. cbn [app] in Hint. rewrite foldl_app in Hint.
      change (foldl _ (Some 0) (txt "20")) with (Some 20) in Hint.
      rewrite H20 in Hint. injection Hint as <-. lia.
    + exists (txt "20" ++ run). repeat split; [done| |done].
      rewrite length_app, Hlen. reflexivity.
Qed.

Lemma extract_year_range_witness :
  1900 ≤ 1990 ≤ 2099
  ∧ ∃ m, contains m (txt "Nací en 1990") ∧ length m = 4%nat
         ∧ py_int latin1 m = Some 1990.
Proof.
  apply (extract_year_range latin1 (txt "Nací en 1990") 1990).
  - exact latin1_decimal_digits.
  - reflexivity.
Defined.

(** X3. A mileage that [_extract_mileage] reads lies between 0 and 999999:
    it is the value of one to six digits found in the text once its points
    and commas are taken out. *)
Theorem extract_mileage_range (U : unicode) (t : text) (mileage : Z) :
  decimal_digits U →
  _extract_mileage U t = Some mileage →
  0 ≤ mileage ≤ 999999
  ∧ ∃ m,
      contains m (remove_char 44%N (remove_char 46%N t))
      ∧ (1 ≤ length m ≤ 6)%nat
      ∧ Forall (λ c, is_digit U c = true) m
      ∧ py_int U m = Some mileage.
Proof.
  intros HU. unfold _extract_mileage.
  destruct (re_search U (MILEAGE_RE U) _) as [m|] eqn:Hsearch; [|done].
  intros Hint. pose proof (re_search_contains _ _ _ _ Hsearch) as Hin.
  apply re_search_shaped in Hsearch. simpl in Hsearch.
  destruct Hsearch as (run & m' & -> & Hrun & Hlo & Hhi & ->).
  rewrite app_nil_r in *. specialize (Hhi 6%nat eq_refl).
  destruct (py_int_range U run HU) as (v & Hv & Hrange);
    [by destruct run; [simpl in Hlo; lia|] | done |].
  rewrite Hv in Hint. injection Hint as <-.
  assert (10 ^ Z.of_nat (length run) ≤ 10 ^ 6)
    by (apply Z.pow_le_mono_r; lia).
  split; [lia|]. exists run. repeat split; try done; lia.
Qed.

Lemma extract_mileage_range_witness :
  0 ≤ 45000 ≤ 999999
  ∧ ∃ m,
      contains m (remove_char 44%N (remove_char 46%N (txt "unos 45.000 km")))
      ∧ (1 ≤ length m ≤ 6)%nat
      ∧ Forall (λ c, is_digit latin1 c = true) m
      ∧ py_int latin1 m = Some 45000.
Proof.
  apply (extract_mileage_range latin1 (txt "unos 45.000 km") 45000).
  - exact latin1_decimal_digits.
  - reflexivity.
Defined.

(** X4. An e-mail address that [_extract_email] finds is a part of the text
    of the form local@domain.tld: a non-empty local part, a non-empty
    domain, and at least two characters after the last point, all of them
    from the classes of the pattern, hence ASCII. *)
Theorem extract_email_shape (U : unicode) (t email : text) :
  _extract_email U t = Some email →
  contains email t
  ∧ ∃ local domain tld,
      email = local ++ txt "@" ++ domain ++ txt "." ++ tld
      ∧ local ≠ [] ∧ domain ≠ [] ∧ (2 ≤ length tld)%nat
      ∧ Forall (λ c, ascii_alnum c || one_of "._%+-" c = true) local
      ∧ Forall (λ c, ascii_alnum c || one_of ".-" c = true) domain
      ∧ Forall (λ c, in_range 65 90 c || one_of "|" c || in_range 97 122 c = true)
          tld.
Proof.
  unfold _extract_email. intros Hsearch.
  split; [by eapply re_search_contains|].
  apply re_search_shaped in Hsearch. simpl in Hsearch.
  destruct Hsearch
    as (local & m1 & -> & Hlocal & Hllen & _
        & at_ & m2 & Hat & -> & domain & m3 & -> & Hdomain & Hdlen & _
        & dot & m4 & Hdot & -> & tld & m5 & -> & Htld & Htlen & _ & ->).
  apply list_elem_of_singleton in Hat as ->.
  apply list_elem_of_singleton in Hdot as ->.
  exists local, domain, tld. rewrite app_nil_r.
  repeat split; try done.
  - destruct local; [simpl in Hllen; lia | done].
  - destruct domain; [simpl in Hdlen; lia | done].
Qed.

Lemma extract_email_shape_witness :
  contains (txt "juan@x.com") (txt "mi correo es juan@x.com, gracias").
Proof.
  apply (extract_email_shape latin1 (txt "mi correo es juan@x.com, gracias")
           (txt "juan@x.com")).
  reflexivity.
Defined.

(** ** Bookkeeping of a turn *)

(** No node touches the messages or the identifier. *)
Lemma run_node_frame (U : unicode) (E : env) (n : node) (st st' : GraphState) :
  run_node U E n st = Return st' →
  messages st' = messages st ∧ conversation_id st' = conversation_id st.
Proof.
  destruct n; cbv beta iota delta [run_node].
  - unfold _router_node. node_cases.
  - unfold _greeting_node. node_cases.
  - unfold _collect_personal_data_node. node_cases.
  - unfold _confirm_personal_data_node. node_cases.
  - unfold _collect_car_data_node. node_cases.
  - unfold _confirm_car_data_node. node_cases.
  - unfold _evaluate_eligibility_node. node_cases.
  - unfold _completed_node. node_cases.
  - node_cases.
Qed.

Lemma bind_inv {A B} (m : outcome A) (f : A → outcome B) (b : B) :
  (m ≫= f) = Return b → ∃ a, m = Return a ∧ f a = Return b.
Proof. destruct m as [a|]; [|done]. intros H. by exists a. Qed.

Lemma invoke_frame (U : unicode) (E : env) (st st' : GraphState) :
  invoke U E st = Return st' →
  messages st' = messages st ∧ conversation_id st' = conversation_id st.
Proof.
  rewrite invoke_unfold.
  destruct (current_step st).
  - intros [= <-]. by apply (run_node_frame U E N_greeting).
  - apply (run_node_frame U E N_collect_personal_data).
  - apply (run_node_frame U E N_confirm_personal_data).
  - apply (run_node_frame U E N_collect_car_data).
  - intros (st1 & H1 & Hrest)%bind_inv.
    apply (run_node_frame U E N_confirm_car_data) in H1 as [<- <-].
    destruct (_after_confirm_car_data st1).
    + apply bind_inv in Hrest as (st2 & H2 & H3).
      apply (run_node_frame U E N_evaluate_eligibility) in H2 as [<- <-].
      by apply (run_node_frame U E N_completed) in H3.
    + by injection Hrest as <-.
  - intros (st1 & H1 & H2)%bind_inv.
    apply (run_node_frame U E N_evaluate_eligibility) in H1 as [<- <-].
    by apply (run_node_frame U E N_completed) in H2.
  - apply (run_node_frame U E N_completed).
Qed.

Lemma process_message_inv (U : unicode) (E : env) (cs cs' : ChatState.t)
    (user_input : text) (r : response) :
  process_message U E cs user_input = Return (cs', r) →
  ∃ final,
    invoke U E (turn_state cs user_input) = Return final
    ∧ _graph_state_to_chat_state final = Return cs'
    ∧ r = last_response final.
Proof.
  unfold process_message.
  intros (final & Hfinal & (cs1 & Hcs1 & Hret)%bind_inv)%bind_inv.
  injection Hret as <- <-. by exists final.
Qed.

Lemma graph_state_to_chat_state_inv (final : GraphState) (cs' : ChatState.t) :
  _graph_state_to_chat_state final = Return cs' →
  ∃ p c,
    load_personal_data (personal_data final) = Return p
    ∧ load_car_data (car_data final) = Return c
    ∧ cs' =
        {| ChatState.conversation_id := conversation_id final;
           ChatState.current_step := current_step final;
           ChatState.personal_data := p;
           ChatState.car_data := c;
           ChatState.messages :=
             if response_truthy (last_response final)
             then messages final ++ [AIMessage (last_response final)]
             else messages final;
           ChatState.personal_data_confirmed := personal_data_confirmed final;
           ChatState.car_data_confirmed := car_data_confirmed final;
           ChatState.eligibility_result := eligibility_result final |}.
Proof.
  unfold _graph_state_to_chat_state.
  intros (p & Hp & (c & Hc & Hret)%bind_inv)%bind_inv.
  injection Hret as <-. by exists p, c.
Qed.

(** X5. The messages of a record only grow, and by what the turn says: a
    turn that returns keeps the messages it found, adds the message of the
    user and then, unless it is empty, the response. The identifier of the
    conversation never changes. *)
Theorem turn_appends_messages (U : unicode) (E : env) (cs cs' : ChatState.t)
    (user_input : text) (r : response) :
  process_message U E cs user_input = Return (cs', r) →
  ChatState.messages cs' =
    ChatState.messages cs ++ [HumanMessage user_input]
      ++ (if response_truthy r then [AIMessage r] else [])
  ∧ ChatState.conversation_id cs' = ChatState.conversation_id cs.
Proof.
  intros (final & Hrun & Hback & ->)%process_message_inv.
  apply invoke_frame in Hrun as [Hmsgs Hid].
  apply graph_state_to_chat_state_inv in Hback as (p & c & _ & _ & ->).
  cbn [ChatState.messages ChatState.conversation_id].
  rewrite Hmsgs, Hid. split; [|done].
  cbn [turn_state _chat_state_to_graph_state with_user_message messages
       ChatState.messages].
  destruct (response_truthy _); by rewrite <- ?app_assoc, ?app_nil_r.
Qed.

Lemma turn_appends_messages_witness :
  ∃ cs',
    process_message latin1 demo_env (ChatState.fresh (txt "c-1")) (txt "Hola")
    = Return (cs', Generated ResponseGenerator.greeting)
    ∧ ChatState.messages cs' =
        [HumanMessage (txt "Hola");
         AIMessage (Generated ResponseGenerator.greeting)].
Proof.
  eexists. split; [vm_compute; reflexivity|].
  apply (turn_appends_messages latin1 demo_env (ChatState.fresh (txt "c-1")) _
           (txt "Hola") (Generated ResponseGenerator.greeting)).
  vm_compute. reflexivity.
Defined.

(** ** The steps of a turn *)

Ltac step_cases Hstep :=
  node_cases; rewrite ?Hstep; try done.

Lemma invoke_step (U : unicode) (E : env) (st st' : GraphState) :
  invoke U E st = Return st' →
  step_allowed (current_step st) (current_step st') = true
  ∧ (current_step st = CONFIRMING_PERSONAL_DATA →
     current_step st' = COLLECTING_PERSONAL_DATA → personal_data st' = ∅)
  ∧ (current_step st = CONFIRMING_CAR_DATA →
     current_step st' = COLLECTING_CAR_DATA → car_data st' = ∅).
Proof.
  rewrite invoke_unfold.
  destruct (current_step st) eqn:Hstep.
  - unfold _greeting_node. step_cases Hstep.
  - unfold _collect_personal_data_node. step_cases Hstep.
  - unfold _confirm_personal_data_node. step_cases Hstep.
  - unfold _collect_car_data_node. step_cases Hstep.
  - unfold _confirm_car_data_node, _after_confirm_car_data,
      _evaluate_eligibility_node, _completed_node, invoke_tool.
    step_cases Hstep.
  - unfold _evaluate_eligibility_node, _completed_node, invoke_tool.
    step_cases Hstep.
  - unfold _completed_node. step_cases Hstep.
Qed.

(** X6. A turn leads from a step only to itself or to a step the graph
    links it to. The step goes backwards in two cases only, the refusal of
    the personal data and the refusal of the car data, and then the refused
    data are emptied. A record of step COMPLETED stays there. *)
Theorem turn_step_allowed (U : unicode) (E : env) (cs cs' : ChatState.t)
    (user_input : text) (r : response) :
  process_message U E cs user_input = Return (cs', r) →
  step_allowed (ChatState.current_step cs) (ChatState.current_step cs') = true
  ∧ ((stage (ChatState.current_step cs') < stage (ChatState.current_step cs))%nat →
     (ChatState.current_step cs = CONFIRMING_PERSONAL_DATA
      ∧ ChatState.current_step cs' = COLLECTING_PERSONAL_DATA
      ∧ ChatState.personal_data cs' = PersonalData.empty)
     ∨ (ChatState.current_step cs = CONFIRMING_CAR_DATA
        ∧ ChatState.current_step cs' = COLLECTING_CAR_DATA
        ∧ ChatState.car_data cs' = CarData.empty)).
Proof.
  intros (final & Hrun & Hback & ->)%process_message_inv.
  apply invoke_step in Hrun as (Hallowed & Hpersonal & Hcar).
  apply graph_state_to_chat_state_inv in Hback as (p & c & Hp & Hc & ->).
  cbn [ChatState.current_step ChatState.personal_data ChatState.car_data].
  change (current_step (turn_state cs user_input))
    with (ChatState.current_step cs) in *.
  split; [done|]. intros Hback.
  destruct (ChatState.current_step cs), (current_step final);
    try done; cbn [stage] in Hback; try lia.
  - left. rewrite Hpersonal in Hp by done. rewrite load_personal_empty in Hp.
    by injection Hp as <-.
  - right. rewrite Hcar in Hc by done. rewrite load_car_empty in Hc.
    by injection Hc as <-.
Qed.

Lemma turn_step_allowed_witness :
  ∃ cs',
    process_message latin1 demo_env
      (record_at CONFIRMING_PERSONAL_DATA juan CarData.empty false false None)
      (txt "no")
    = Return (cs', Generated ResponseGenerator.personal_data_reset)
    ∧ step_allowed CONFIRMING_PERSONAL_DATA (ChatState.current_step cs') = true.
Proof.
  eexists. split; [vm_compute; reflexivity|].
  apply (turn_step_allowed latin1 demo_env
           (record_at CONFIRMING_PERSONAL_DATA juan CarData.empty false false None)
           _ (txt "no") (Generated ResponseGenerator.personal_data_reset)).
  vm_compute. reflexivity.
Defined.

(** ** When the language model matters *)

Lemma evaluate_node_year (E1 E2 : env) (st : GraphState) :
  current_year E1 = current_year E2 →
  _evaluate_eligibility_node E1 st = _evaluate_eligibility_node E2 st.
Proof.
  intros Hyear. unfold _evaluate_eligibility_node, invoke_tool. by rewrite Hyear.
Qed.

Lemma not_missing_str (o : option text) :
  missing_str o = false → truthy (of_opt_str o) = true.
Proof. unfold missing_str. by destruct (truthy _). Qed.

(** Where neither the full name nor the brand nor the model is to be read,
    the nodes consult no language model: the runs of the graph under two
    language models are the same, the response being the call made to the
    generator. *)
Lemma turn_without_llm (U : unicode) (E1 E2 : env) (cs : ChatState.t)
    (user_input : text) :
  current_year E1 = current_year E2 →
  (ChatState.current_step cs = COLLECTING_PERSONAL_DATA →
   missing_str (PersonalData.full_name (ChatState.personal_data cs)) = false) →
  (ChatState.current_step cs = COLLECTING_CAR_DATA →
   missing_str (CarData.brand (ChatState.car_data cs)) = false
   ∧ missing_str (CarData.model (ChatState.car_data cs)) = false) →
  process_message U E1 cs user_input = process_message U E2 cs user_input.
Proof.
  intros Hyear Hpersonal Hcar. unfold process_message.
  assert (invoke U E1 (turn_state cs user_input)
          = invoke U E2 (turn_state cs user_input)) as ->; [|done].
  rewrite !invoke_unfold.
  change (current_step (turn_state cs user_input))
    with (ChatState.current_step cs).
  destruct (turn_state_input cs user_input) as [Hin Hmsgs].
  destruct (ChatState.current_step cs) eqn:Hstep; try done.
  - unfold _collect_personal_data_node. rewrite Hmsgs, Hin.
    change (personal_data (turn_state cs user_input))
      with (dump_personal_data (ChatState.personal_data cs)).
    rewrite dump_personal_full_name.
    by rewrite (not_missing_str _ (Hpersonal eq_refl)).
  - unfold _collect_car_data_node. rewrite Hmsgs, Hin.
    change (car_data (turn_state cs user_input))
      with (dump_car_data (ChatState.car_data cs)).
    rewrite dump_car_brand, dump_car_model.
    destruct (Hcar eq_refl) as [Hbrand%not_missing_str Hmodel%not_missing_str].
    by rewrite Hbrand, Hmodel.
  - destruct (_confirm_car_data_node U _) as [st1|]; [|done].
    rewrite !bind_Return. by rewrite (evaluate_node_year E1 E2).
  - by rewrite (evaluate_node_year E1 E2).
Qed.

(** *** The language model is down *)

Lemma validate_llm_down (U : unicode) (E : env) (user_input : text) :
  llm_down E → _validate_input_safety U E user_input = (true, None).
Proof. intros Hdown. unfold _validate_input_safety. by rewrite Hdown. Qed.

Lemma extract_with_llm_down (E : env) (p : prompt) :
  llm_down E → _extract_with_llm E p = None.
Proof. intros Hdown. unfold _extract_with_llm. by rewrite Hdown. Qed.

(** X8. When every call to the language model fails, no exception reaches
    the caller: the turn that was to read the full name, the brand or the
    model stores nothing, stays at its step and asks for that field again. *)
Theorem llm_down_asks_again (U : unicode) (E : env) (cs : ChatState.t)
    (user_input : text) :
  llm_down E →
  (ChatState.current_step cs = COLLECTING_PERSONAL_DATA →
   missing_str (PersonalData.full_name (ChatState.personal_data cs)) = true →
   ∃ cs',
     process_message U E cs user_input
     = Return (cs', Generated ResponseGenerator.invalid_name)
     ∧ same_data cs cs')
  ∧ (ChatState.current_step cs = COLLECTING_CAR_DATA →
     missing_str (CarData.brand (ChatState.car_data cs)) = true →
     ∃ cs',
       process_message U E cs user_input
       = Return (cs', Generated ResponseGenerator.invalid_car_brand)
       ∧ same_data cs cs')
  ∧ (ChatState.current_step cs = COLLECTING_CAR_DATA →
     missing_str (CarData.brand (ChatState.car_data cs)) = false →
     missing_str (CarData.model (ChatState.car_data cs)) = true →
     ∃ cs',
       process_message U E cs user_input
       = Return (cs', Generated (ResponseGenerator.invalid_car_model
                                   (of_opt_str (CarData.brand (ChatState.car_data cs)))))
       ∧ same_data cs cs').
Proof.
  intros Hdown. unfold missing_str. split; [|split].
  - intros Hstep Hname. start_collect cs user_input Hstep.
    unfold _collect_personal_data_node. rewrite Hmsgs, Hin.
    change (personal_data (turn_state cs user_input))
      with (dump_personal_data (ChatState.personal_data cs)).
    rewrite dump_personal_full_name, Hname.
    unfold _extract_full_name.
    rewrite (validate_llm_down U E _ Hdown), (extract_with_llm_down E _ Hdown).
    cbn [negb if_str]. end_turn. eexists. split; [reflexivity|]. by repeat split.
  - intros Hstep Hbrand. start_collect cs user_input Hstep.
    unfold _collect_car_data_node. rewrite Hmsgs, Hin.
    change (car_data (turn_state cs user_input))
      with (dump_car_data (ChatState.car_data cs)).
    rewrite dump_car_brand, Hbrand.
    unfold _extract_car_brand.
    rewrite (validate_llm_down U E _ Hdown), (extract_with_llm_down E _ Hdown).
    cbn [negb if_str]. end_turn. eexists. split; [reflexivity|]. by repeat split.
  - intros Hstep Hbrand Hmodel. start_collect cs user_input Hstep.
    unfold _collect_car_data_node. rewrite Hmsgs, Hin.
    change (car_data (turn_state cs user_input))
      with (dump_car_data (ChatState.car_data cs)).
    rewrite dump_car_brand, dump_car_model, Hbrand, Hmodel.
    unfold _extract_car_model.
    rewrite (validate_llm_down U E _ Hdown), (extract_with_llm_down E _ Hdown).
    cbn [negb if_str]. end_turn. eexists. split; [reflexivity|]. by repeat split.
Qed.

Lemma llm_down_asks_again_witness :
  ∃ cs',
    process_message latin1 failing_env
      (record_at COLLECTING_PERSONAL_DATA PersonalData.empty CarData.empty
         false false None)
      (txt "Juan Pérez")
    = Return (cs', Generated ResponseGenerator.invalid_name)
    ∧ same_data
        (record_at COLLECTING_PERSONAL_DATA PersonalData.empty CarData.empty
           false false None) cs'.
Proof.
  apply (llm_down_asks_again latin1 failing_env
           (record_at COLLECTING_PERSONAL_DATA PersonalData.empty CarData.empty
              false false None) (txt "Juan Pérez")).
  - by intros p.
  - reflexivity.
  - reflexivity.
Defined.

(** *** The safety filter flags the input *)

Lemma validate_flagged (U : unicode) (E : env) (user_input : text) :
  flagged U E user_input →
  ∃ reason, _validate_input_safety U E user_input = (false, Some reason).
Proof.
  intros (content & Hllm & Hunsafe). unfold _validate_input_safety.
  rewrite Hllm, (unsafe_marker_not_safe _ Hunsafe), Hunsafe. eauto.
Qed.

(** X9. When the safety filter flags the input, the turn that was to read
    the full name, the brand or the model reads nothing: whatever the
    language model would extract, nothing is stored, the step stays, and the
    response is the warning that carries the reason of the filter and names
    the field expected. *)
Theorem flagged_input_is_refused (U : unicode) (E : env) (cs : ChatState.t)
    (user_input : text) :
  flagged U E user_input →
  ∃ reason,
    _validate_input_safety U E user_input = (false, Some reason)
    ∧ (ChatState.current_step cs = COLLECTING_PERSONAL_DATA →
       missing_str (PersonalData.full_name (ChatState.personal_data cs)) = true →
       ∃ cs',
         process_message U E cs user_input
         = Return (cs', Literal (unsafe_message (Some reason) "tu nombre completo"))
         ∧ same_data cs cs')
    ∧ (ChatState.current_step cs = COLLECTING_CAR_DATA →
       missing_str (CarData.brand (ChatState.car_data cs)) = true →
       ∃ cs',
         process_message U E cs user_input
         = Return (cs', Literal (unsafe_message (Some reason) "la marca de tu auto"))
         ∧ same_data cs cs')
    ∧ (ChatState.current_step cs = COLLECTING_CAR_DATA →
       missing_str (CarData.brand (ChatState.car_data cs)) = false →
       missing_str (CarData.model (ChatState.car_data cs)) = true →
       ∃ cs',
         process_message U E cs user_input
         = Return (cs', Literal (unsafe_message (Some reason) "el modelo de tu auto"))
         ∧ same_data cs cs').
Proof.
  intros [reason Hvalidate]%validate_flagged. exists reason.
  split; [done|]. unfold missing_str. split; [|split].
  - intros Hstep Hname. start_collect cs user_input Hstep.
    unfold _collect_personal_data_node. rewrite Hmsgs, Hin.
    change (personal_data (turn_state cs user_input))
      with (dump_personal_data (ChatState.personal_data cs)).
    rewrite dump_personal_full_name, Hname.
    unfold _extract_full_name. rewrite Hvalidate. cbn [negb if_str].
    rewrite (truthy_PStr _ (unsafe_message_nonempty _ _)).
    end_turn. eexists. split; [reflexivity|]. by repeat split.
  - intros Hstep Hbrand. start_collect cs user_input Hstep.
    unfold _collect_car_data_node. rewrite Hmsgs, Hin.
    change (car_data (turn_state cs user_input))
      with (dump_car_data (ChatState.car_data cs)).
    rewrite dump_car_brand, Hbrand.
    unfold _extract_car_brand. rewrite Hvalidate. cbn [negb if_str].
    rewrite (truthy_PStr _ (unsafe_message_nonempty _ _)).
    end_turn. eexists. split; [reflexivity|]. by repeat split.
  - intros Hstep Hbrand Hmodel. start_collect cs user_input Hstep.
    unfold _collect_car_data_node. rewrite Hmsgs, Hin.
    change (car_data (turn_state cs user_input))
      with (dump_car_data (ChatState.car_data cs)).
    rewrite dump_car_brand, dump_car_model, Hbrand, Hmodel.
    unfold _extract_car_model. rewrite Hvalidate. cbn [negb if_str].
    rewrite (truthy_PStr _ (unsafe_message_nonempty _ _)).
    end_turn. eexists. split; [reflexivity|]. by repeat split.
Qed.

Lemma flagged_input_is_refused_witness :
  ∃ reason,
    _validate_input_safety latin1 strict_env (txt "eres un imbécil")
    = (false, Some reason)
    ∧ reason = txt "INSULTO".
Proof.
  destruct (flagged_input_is_refused latin1 strict_env
              (record_at COLLECTING_PERSONAL_DATA PersonalData.empty CarData.empty
                 false false None) (txt "eres un imbécil"))
    as (reason & Hvalidate & _).
  - exists (txt "inseguro| insulto "). by split.
  - exists reason. split; [done|].
    vm_compute in Hvalidate. by injection Hvalidate as <-.
Defined.

(** ** The collection of the car data, field by field *)

(** One turn of the collection of the car data, as the node decides it. *)
Lemma collect_car_fields_turn (U : unicode) (E : env) (cs : ChatState.t)
    (user_input : text) :
  ChatState.current_step cs = COLLECTING_CAR_DATA →
  ∃ cs' r,
    process_message U E cs user_input = Return (cs', r)
    ∧ ChatState.personal_data cs' = ChatState.personal_data cs
    ∧ ChatState.personal_data_confirmed cs' = ChatState.personal_data_confirmed cs
    ∧ ChatState.car_data_confirmed cs' = ChatState.car_data_confirmed cs
    ∧ ChatState.eligibility_result cs' = ChatState.eligibility_result cs
    ∧ let c := ChatState.car_data cs in
      let unchanged :=
        ChatState.car_data cs' = c
        ∧ ChatState.current_step cs' = COLLECTING_CAR_DATA in
      match first_missing_car c with
      | Some F_brand =>
        match if_str (fst (_extract_car_brand U E user_input)) with
        | Some brand =>
          ChatState.car_data cs' =
            {| CarData.brand := Some brand; CarData.model := CarData.model c;
               CarData.year := CarData.year c; CarData.mileage := CarData.mileage c |}
          ∧ ChatState.current_step cs' = COLLECTING_CAR_DATA
        | None => unchanged
        end
      | Some F_model =>
        match if_str (fst (_extract_car_model U E user_input
                             (of_opt_str (CarData.brand c)))) with
        | Some model =>
          ChatState.car_data cs' =
            {| CarData.brand := CarData.brand c; CarData.model := Some model;
               CarData.year := CarData.year c; CarData.mileage := CarData.mileage c |}
          ∧ ChatState.current_step cs' = COLLECTING_CAR_DATA
        | None => unchanged
        end
      | Some F_year =>
        match _extract_year U user_input with
        | Some year =>
          if (2000 <=? year) && (year <=? 2025) then
            ChatState.car_data cs' =
              {| CarData.brand := CarData.brand c; CarData.model := CarData.model c;
                 CarData.year := Some year; CarData.mileage := CarData.mileage c |}
            ∧ ChatState.current_step cs' = COLLECTING_CAR_DATA
          else unchanged
        | None => unchanged
        end
      | Some F_mileage =>
        match _extract_mileage U user_input with
        | Some mileage =>
          if negb (mileage =? 0) && ((0 <=? mileage) && (mileage <=? 500000)) then
            ChatState.car_data cs' =
              {| CarData.brand := CarData.brand c; CarData.model := CarData.model c;
                 CarData.year := CarData.year c; CarData.mileage := Some mileage |}
            ∧ ChatState.current_step cs' = CONFIRMING_CAR_DATA
          else unchanged
        | None => unchanged
        end
      | None => unchanged
      end.
Proof.
  intros Hstep. start_collect cs user_input Hstep.
  unfold _collect_car_data_node. rewrite Hmsgs, Hin.
  change (car_data (turn_state cs user_input))
    with (dump_car_data (ChatState.car_data cs)).
  rewrite dump_car_brand, dump_car_model, dump_car_year, dump_car_mileage.
  unfold first_missing_car. cbn [find car_field_missing].
  unfold missing_str, missing_int.
  destruct (truthy (of_opt_str (CarData.brand _))); cbn [negb].
  - destruct (truthy (of_opt_str (CarData.model _))); cbn [negb].
    + destruct (truthy (of_opt_int (CarData.year _))); cbn [negb].
      * destruct (truthy (of_opt_int (CarData.mileage _))); cbn [negb].
        -- finish_turn. done.
        -- destruct (_extract_mileage U user_input) as [m|];
             cbn [if_int truthy]; [|finish_turn; done].
           destruct (negb (m =? 0)); cbn [andb]; [|finish_turn; done].
           destruct ((0 <=? m) && (m <=? 500000)); finish_turn; done.
      * destruct (_extract_year U user_input) as [year|];
          cbn [if_int truthy]; [|finish_turn; done].
        destruct (Z.eqb_spec year 0) as [->|Hyear]; cbn [negb].
        -- finish_turn. done.
        -- destruct ((2000 <=? year) && (year <=? 2025)); finish_turn; done.
    + pose proof (extract_car_model_cases U E user_input
                    (of_opt_str (CarData.brand (ChatState.car_data cs)))) as Hcases.
      destruct (_extract_car_model U E user_input _) as [[model|] [safety_error|]];
        cbn [fst if_str].
      * done.
      * destruct (truthy (PStr model)); finish_turn; done.
      * rewrite (truthy_PStr safety_error Hcases). finish_turn. done.
      * finish_turn. done.
  - pose proof (extract_car_brand_cases U E user_input) as Hcases.
    destruct (_extract_car_brand U E user_input) as [[brand|] [safety_error|]];
      cbn [fst if_str].
    + done.
    + destruct (truthy (PStr brand)); finish_turn; done.
    + rewrite (truthy_PStr safety_error Hcases). finish_turn. done.
    + finish_turn. done.
Qed.

(** X10. In step COLLECTING_CAR_DATA a turn tries to read the first missing
    field in the order brand, model, year, mileage, and that field only: no
    other field changes, a field that is set is never overwritten, and
    neither the personal data nor the flags move. A year is stored when it
    lies between 2000 and 2025; a mileage from 1 to 500000 is stored and
    brings the step to CONFIRMING_CAR_DATA, to which no other turn of this
    step leads; a mileage above 500000 is not stored. *)
Theorem collect_car_one_field (U : unicode) (E : env) (cs : ChatState.t)
    (user_input : text) :
  ChatState.current_step cs = COLLECTING_CAR_DATA →
  ∃ cs' r,
    process_message U E cs user_input = Return (cs', r)
    ∧ ChatState.personal_data cs' = ChatState.personal_data cs
    ∧ ChatState.personal_data_confirmed cs' = ChatState.personal_data_confirmed cs
    ∧ ChatState.car_data_confirmed cs' = ChatState.car_data_confirmed cs
    ∧ ChatState.eligibility_result cs' = ChatState.eligibility_result cs
    ∧ (let c := ChatState.car_data cs in
       let unchanged :=
         ChatState.car_data cs' = c
         ∧ ChatState.current_step cs' = COLLECTING_CAR_DATA in
       match first_missing_car c with
       | Some F_brand =>
         match if_str (fst (_extract_car_brand U E user_input)) with
         | Some brand =>
           ChatState.car_data cs' =
             {| CarData.brand := Some brand; CarData.model := CarData.model c;
                CarData.year := CarData.year c;
                CarData.mileage := CarData.mileage c |}
           ∧ ChatState.current_step cs' = COLLECTING_CAR_DATA
         | None => unchanged
         end
       | Some F_model =>
         match if_str (fst (_extract_car_model U E user_input
                              (of_opt_str (CarData.brand c)))) with
         | Some model =>
           ChatState.car_data cs' =
             {| CarData.brand := CarData.brand c; CarData.model := Some model;
                CarData.year := CarData.year c;
                CarData.mileage := CarData.mileage c |}
           ∧ ChatState.current_step cs' = COLLECTING_CAR_DATA
         | None => unchanged
         end
       | Some F_year =>
         match _extract_year U user_input with
         | Some year =>
           if (2000 <=? year) && (year <=? 2025) then
             ChatState.car_data cs' =
               {| CarData.brand := CarData.brand c; CarData.model := CarData.model c;
                  CarData.year := Some year;
                  CarData.mileage := CarData.mileage c |}
             ∧ ChatState.current_step cs' = COLLECTING_CAR_DATA
           else unchanged
         | None => unchanged
         end
       | Some F_mileage =>
         match _extract_mileage U user_input with
         | Some mileage =>
           (1 ≤ mileage ≤ 500000 →
            ChatState.car_data cs' =
              {| CarData.brand := CarData.brand c; CarData.model := CarData.model c;
                 CarData.year := CarData.year c; CarData.mileage := Some mileage |}
            ∧ ChatState.current_step cs' = CONFIRMING_CAR_DATA)
           ∧ (500000 < mileage → unchanged)
         | None => unchanged
         end
       | None => unchanged
       end)
    ∧ (∀ f, first_missing_car (ChatState.car_data cs) ≠ Some f →
         car_field_value (ChatState.car_data cs') f
         = car_field_value (ChatState.car_data cs) f)
    ∧ (ChatState.current_step cs' = CONFIRMING_CAR_DATA →
         first_missing_car (ChatState.car_data cs) = Some F_mileage
         ∧ is_Some (_extract_mileage U user_input)).
Proof.
  intros Hstep.
  destruct (collect_car_fields_turn U E cs user_input Hstep)
    as (cs' & r & Hrun & Hp & Hpf & Hcf & Her & Hfield).
  exists cs', r. do 5 (split; [done|]). cbv zeta in *.
  destruct (first_missing_car (ChatState.car_data cs)) as [[| | |]|].
  - destruct (if_str (fst (_extract_car_brand U E user_input)));
      destruct Hfield as [Hc Hs]; rewrite Hc, Hs;
      (split; [done|]); (split; [by intros [| | |] | done]).
  - destruct (if_str (fst (_extract_car_model U E user_input _)));
      destruct Hfield as [Hc Hs]; rewrite Hc, Hs;
      (split; [done|]); (split; [by intros [| | |] | done]).
  - destruct (_extract_year U user_input) as [year|];
      [destruct ((2000 <=? year) && (year <=? 2025))|];
      destruct Hfield as [Hc Hs]; rewrite Hc, Hs;
      (split; [done|]); (split; [by intros [| | |] | done]).
  - destruct (_extract_mileage U user_input) as [m|].
    + destruct (Z.eqb_spec m 0) as [Hm0|Hm0]; cbn [negb andb] in Hfield.
      * destruct Hfield as [Hc Hs]. rewrite Hc, Hs.
        split; [split; [lia | done]|]. split; [by intros [| | |] | done].
      * destruct (Z.leb_spec 0 m), (Z.leb_spec m 500000);
          cbn [andb] in Hfield; destruct Hfield as [Hc Hs]; rewrite Hc, Hs;
          (split; [split; intros; (done || lia)|]);
          (split; [by intros [| | |] | by eauto]).
    + destruct Hfield as [Hc Hs]. rewrite Hc, Hs.
      split; [done|]. split; [by intros [| | |] | done].
  - destruct Hfield as [Hc Hs]. rewrite Hc, Hs.
    split; [done|]. split; [by intros [| | |] | done].
Qed.

Lemma collect_car_one_field_witness :
  ∃ cs' r,
    process_message latin1 demo_env
      (record_at COLLECTING_CAR_DATA juan
         {| CarData.brand := Some (txt "Toyota"); CarData.model := Some (txt "Corolla");
            CarData.year := None; CarData.mileage := None |}
         true false None)
      (txt "es del 1990")
    = Return (cs', r)
    ∧ ChatState.car_data cs' =
        {| CarData.brand := Some (txt "Toyota"); CarData.model := Some (txt "Corolla");
           CarData.year := None; CarData.mileage := None |}
    ∧ ChatState.current_step cs' = COLLECTING_CAR_DATA.
Proof.
  destruct (collect_car_one_field latin1 demo_env
              (record_at COLLECTING_CAR_DATA juan
                 {| CarData.brand := Some (txt "Toyota");
                    CarData.model := Some (txt "Corolla");
                    CarData.year := None; CarData.mileage := None |}
                 true false None)
              (txt "es del 1990") eq_refl)
    as (cs' & r & Hrun & _ & _ & _ & _ & Hfield & _).
  exists cs', r. split; [exact Hrun|]. exact Hfield.
Defined.

(** ** What a conversation stores *)

(** One turn of the confirmation of the car, with what becomes of the data
    and of the result. *)
Lemma confirm_car_turn_result (U : unicode) (E : env) (cs : ChatState.t)
    (user_input first_name : text) :
  ChatState.current_step cs = CONFIRMING_CAR_DATA →
  personal_complete (ChatState.personal_data cs) = true →
  car_complete (ChatState.car_data cs) = true →
  first_name_of (ChatState.personal_data cs) = Some first_name →
  ChatState.car_data_confirmed cs = false →
  ∃ cs' r,
    process_message U E cs user_input = Return (cs', r)
    ∧ ChatState.personal_data cs' = ChatState.personal_data cs
    ∧ ((ChatState.current_step cs' = COMPLETED
        ∧ ChatState.car_data cs' = ChatState.car_data cs
        ∧ ∃ b y m,
            PersonalData.birth_year (ChatState.personal_data cs) = Some b
            ∧ CarData.year (ChatState.car_data cs) = Some y
            ∧ CarData.mileage (ChatState.car_data cs) = Some m
            ∧ ChatState.eligibility_result cs'
              = Some (evaluate_eligibility (current_year E) b y m))
       ∨ (ChatState.current_step cs' = COLLECTING_CAR_DATA
          ∧ ChatState.car_data cs' = CarData.empty
          ∧ ChatState.eligibility_result cs' = ChatState.eligibility_result cs)
       ∨ (ChatState.current_step cs' = CONFIRMING_CAR_DATA
          ∧ ChatState.car_data cs' = ChatState.car_data cs
          ∧ ChatState.eligibility_result cs' = ChatState.eligibility_result cs)).
Proof.
  intros Hstep Hpersonal Hcar Hname Hflag.
  destruct (affirmative_dec U user_input) as [Hyes|Hyes];
    [|destruct (negative_dec U user_input) as [Hno|Hno]].
  - destruct (complete_values _ _ Hpersonal Hcar)
      as (b & y & m & Hb & Hy & Hm & Hb0 & Hy0 & Hm0).
    unfold process_message.
    rewrite (confirm_car_yes_run U E cs user_input first_name b y m) by done.
    end_turn. eexists _, _. split; [reflexivity|]. fields.
    split; [done|]. left. do 2 (split; [done|]). by exists b, y, m.
  - start_turn Hstep.
    rewrite (confirm_car_no U _ user_input) by (done || apply turn_state_last).
    fields. rewrite (split_first_full_name _ first_name Hname). fields.
    rewrite Hflag. end_turn.
    eexists _, _. split; [reflexivity|]. fields. auto 10.
  - start_turn Hstep.
    rewrite (confirm_car_neither U _ user_input) by (done || apply turn_state_last).
    fields. rewrite Hflag. end_turn.
    eexists _, _. split; [reflexivity|]. fields. auto 10.
Qed.

Lemma valid_personal_empty : valid_personal PersonalData.empty.
Proof. by repeat split. Qed.

Lemma valid_car_empty : valid_car CarData.empty.
Proof. by repeat split. Qed.

Lemma if_str_nonempty (o : option text) (s : text) : if_str o = Some s → s ≠ [].
Proof.
  destruct o as [s'|]; [|done]. cbn. case_bool_decide; cbn; [done|].
  by intros [= <-].
Qed.

(** A turn on a consistent record keeps the stored values valid. *)
Ltac valid_goal :=
  split; [split; [|split] | split; [split; [|split; [|split]]|]];
  cbn; eauto; try done.

Lemma turn_valid (U : unicode) (E : env) (cs cs' : ChatState.t)
    (user_input : text) (r : response) :
  consistent cs → valid cs →
  process_message U E cs user_input = Return (cs', r) →
  valid cs'.
Proof.
  intros (Hname & Hpersonal & Hcar & Hresult & Hstage & Hpf & Hcf)
    ((Hvn & Hvb & Hve) & (Hcb & Hcm & Hcy & Hck) & Hdec) Hrun.
  unfold valid, decided in *.
  destruct (ChatState.current_step cs) eqn:Hstep; cbn [stage] in *.
  - destruct (greeting_turn U E cs user_input Hstep)
      as (cs1 & Hrun1 & Hstep1 & Hp1 & Hc1 & _ & _ & Her1).
    rewrite Hrun in Hrun1. injection Hrun1 as <- _.
    rewrite Hp1, Hc1, Her1, Hstep1.
    destruct (ChatState.eligibility_result cs); [by destruct Hdec | done].
  - destruct (collect_personal_turn U E cs user_input Hstep)
      as (cs1 & r1 & Hrun1 & Hc1 & _ & _ & Her1 & Hfield).
    rewrite Hrun in Hrun1. injection Hrun1 as <- _.
    rewrite Hc1, Her1.
    destruct (ChatState.eligibility_result cs); [by destruct Hdec|].
    cbv zeta in Hfield.
    destruct (first_missing (ChatState.personal_data cs)) as [[| |]|].
    + pose proof (extract_full_name_cases U E user_input) as Hcases.
      destruct (_extract_full_name U E user_input) as [[name|] safety_error];
        cbn [fst] in Hfield; destruct Hfield as [-> ->]; [|done].
      destruct Hcases as (_ & _ & Hwords). by valid_goal.
    + destruct (_extract_year U user_input) as [year|]; [|by destruct Hfield as [-> ->]].
      destruct (Z.leb_spec 1900 year), (Z.leb_spec year 2010);
        cbn [andb] in Hfield; destruct Hfield as [-> ->]; try done.
      valid_goal. all: intros b [= <-]; lia.
    + destruct (_extract_email U user_input) as [email|] eqn:Hemail;
        destruct Hfield as [-> ->]; [|done].
      valid_goal. all: intros e [= <-]; by eapply extract_email_nonempty.
    + by destruct Hfield as [-> ->].
  - destruct (complete_first_name (ChatState.personal_data cs))
      as [first_name Hfirst]; [done | apply Hpersonal; lia |].
    destruct (confirm_personal_turn U E cs user_input first_name Hstep Hfirst)
      as (cs1 & r1 & Hrun1 & Hc1 & _ & Her1 & Hcases).
    rewrite Hrun in Hrun1. injection Hrun1 as <- _.
    rewrite Hc1, Her1.
    destruct (ChatState.eligibility_result cs); [by destruct Hdec|].
    destruct Hcases as [(-> & -> & _) | [(-> & -> & _) | (-> & -> & _)]];
      valid_goal.
  - destruct (collect_car_fields_turn U E cs user_input Hstep)
      as (cs1 & r1 & Hrun1 & Hp1 & _ & _ & Her1 & Hfield).
    rewrite Hrun in Hrun1. injection Hrun1 as <- _.
    rewrite Hp1, Her1.
    destruct (ChatState.eligibility_result cs); [by destruct Hdec|].
    cbv zeta in Hfield.
    destruct (first_missing_car (ChatState.car_data cs)) as [[| | |]|].
    + destruct (if_str (fst (_extract_car_brand U E user_input)))
        as [brand|] eqn:Hbrand; destruct Hfield as [-> ->]; [|done].
      valid_goal. all: intros b [= <-]; by eapply if_str_nonempty.
    + destruct (if_str (fst (_extract_car_model U E user_input _)))
        as [model|] eqn:Hmodel; destruct Hfield as [-> ->]; [|done].
      valid_goal. all: intros b [= <-]; by eapply if_str_nonempty.
    + destruct (_extract_year U user_input) as [year|]; [|by destruct Hfield as [-> ->]].
      destruct (Z.leb_spec 2000 year), (Z.leb_spec year 2025);
        cbn [andb] in Hfield; destruct Hfield as [-> ->]; try done.
      valid_goal. all: intros b [= <-]; lia.
    + destruct (_extract_mileage U user_input) as [m|];
        [|by destruct Hfield as [-> ->]].
      destruct (negb (m =? 0)); cbn [andb] in Hfield;
        [|by destruct Hfield as [-> ->]].
      destruct (Z.leb_spec 0 m), (Z.leb_spec m 500000);
        cbn [andb] in Hfield; destruct Hfield as [-> ->]; try done.
      valid_goal. all: intros b [= <-]; lia.
    + by destruct Hfield as [-> ->].
  - destruct (complete_first_name (ChatState.personal_data cs))
      as [first_name Hfirst]; [done | apply Hpersonal; lia |].
    destruct (confirm_car_turn_result U E cs user_input first_name Hstep)
      as (cs1 & r1 & Hrun1 & Hp1 & Hcases);
      [apply Hpersonal; lia | apply Hcar; lia | done | by rewrite Hcf |].
    rewrite Hrun in Hrun1. injection Hrun1 as <- _. rewrite Hp1.
    destruct (ChatState.eligibility_result cs); [by destruct Hdec|].
    destruct Hcases as [(-> & -> & b & y & m & Hb & Hy & Hm & ->)
                       | [(-> & -> & ->) | (-> & -> & ->)]].
    + valid_goal. split; [done|]. by exists (current_year E), b, y, m.
    + valid_goal.
    + valid_goal.
  - done.
  - destruct (complete_first_name (ChatState.personal_data cs))
      as [first_name Hfirst]; [done | apply Hpersonal; lia |].
    destruct (completed_turn U E cs user_input first_name Hstep Hfirst)
      as (cs1 & Hrun1 & _ & Hstep1 & Hp1 & Hc1 & _ & _ & Her1).
    rewrite Hrun in Hrun1. injection Hrun1 as <- _.
    by rewrite <- Hp1, <- Hc1, <- Her1, <- Hstep1, Hstep.
Qed.

Lemma reachable_valid (U : unicode) (cs : ChatState.t) :
  reachable U cs → valid cs.
Proof.
  induction 1 as [conversation_id | E cs cs' user_input r Hcs IH Hrun].
  - by repeat split.
  - eapply turn_valid; [by eapply reachable_consistent | done | done].
Qed.

(** The decision of the eligibility rule. *)
Lemma evaluate_eligibility_decision (year b y m : Z) :
  is_eligible (evaluate_eligibility year b y m) = true
  ↔ 18 ≤ year - b ∧ 2015 ≤ y ∧ m < 100000.
Proof.
  unfold evaluate_eligibility. cbn [is_eligible].
  rewrite !andb_true_iff, !Z.geb_le, Z.ltb_lt. tauto.
Qed.

Lemma turns_cons (U : unicode) (E : env) (cs : ChatState.t)
    (user_input : string) (inputs : list string) :
  turns U E cs (user_input :: inputs) =
  ('(cs', _) ← process_message U E cs (txt user_input); turns U E cs' inputs).
Proof. reflexivity. Qed.

(** A conversation continued from a reached record reaches the record it
    returns. *)
Lemma turns_reachable (U : unicode) (E : env) (inputs : list string)
    (cs cs' : ChatState.t) :
  reachable U cs → turns U E cs inputs = Return cs' → reachable U cs'.
Proof.
  revert cs; induction inputs as [|user_input inputs IH]; intros cs Hcs Hrun.
  - by injection Hrun as <-.
  - rewrite turns_cons in Hrun.
    destruct (process_message U E cs (txt user_input)) as [[cs1 r]|e] eqn:Hturn;
      [|done].
    rewrite bind_Return in Hrun. eapply IH; [|exact Hrun].
    by eapply reachable_turn.
Qed.



(** X12. In a conversation the flags and the completeness of the data
    follow the step: the personal data are confirmed exactly from step
    COLLECTING_CAR_DATA on and complete from their confirmation on, the car
    is confirmed exactly at step COMPLETED and its data are complete from
    their confirmation on, and no stored record is at step
    EVALUATING_ELIGIBILITY. *)
Theorem reachable_flags_follow_step (U : unicode) (cs : ChatState.t) :
  reachable U cs →
  let step := ChatState.current_step cs in
  step ≠ EVALUATING_ELIGIBILITY
  ∧ (ChatState.personal_data_confirmed cs = true
     ↔ step = COLLECTING_CAR_DATA ∨ step = CONFIRMING_CAR_DATA ∨ step = COMPLETED)
  ∧ (ChatState.car_data_confirmed cs = true ↔ step = COMPLETED)
  ∧ (step ≠ GREETING → step ≠ COLLECTING_PERSONAL_DATA →
     personal_complete (ChatState.personal_data cs) = true)
  ∧ (step = CONFIRMING_CAR_DATA ∨ step = COMPLETED →
     car_complete (ChatState.car_data cs) = true).
Proof.
  intros (_ & Hpersonal & Hcar & _ & Hstage & Hpf & Hcf)%reachable_consistent.
  cbv zeta. rewrite Hpf, Hcf.
  destruct (ChatState.current_step cs); cbn [stage] in *;
    repeat split; try done; try (intros; (apply Hpersonal || apply Hcar); lia);
    try (intros [|[|]]; done); try (intros [|]; done); auto.
Qed.

Lemma reachable_flags_follow_step_witness :
  ∃ cs,
    turns latin1 demo_env (ChatState.fresh (txt "c-1"))
      ["Hola"; "Juan Pérez"; "1990"; "juan@x.com"; "sí";
       "Toyota"; "Corolla"; "2020"; "45000"; "sí"]
    = Return cs
    ∧ ChatState.current_step cs = COMPLETED
    ∧ ChatState.personal_data_confirmed cs = true
    ∧ ChatState.car_data_confirmed cs = true
    ∧ let step := ChatState.current_step cs in
      step ≠ EVALUATING_ELIGIBILITY
      ∧ (ChatState.personal_data_confirmed cs = true
         ↔ step = COLLECTING_CAR_DATA ∨ step = CONFIRMING_CAR_DATA
           ∨ step = COMPLETED)
      ∧ (ChatState.car_data_confirmed cs = true ↔ step = COMPLETED)
      ∧ (step ≠ GREETING → step ≠ COLLECTING_PERSONAL_DATA →
         personal_complete (ChatState.personal_data cs) = true)
      ∧ (step = CONFIRMING_CAR_DATA ∨ step = COMPLETED →
         car_complete (ChatState.car_data cs) = true).
Proof.
  eexists. split; [vm_compute; reflexivity|].
  do 3 (split; [reflexivity|]).
  apply (reachable_flags_follow_step latin1).
  eapply (turns_reachable latin1 demo_env
            ["Hola"; "Juan Pérez"; "1990"; "juan@x.com"; "sí";
             "Toyota"; "Corolla"; "2020"; "45000"; "sí"]);
    [apply reachable_fresh | vm_compute; reflexivity].
Defined.

(** X13. The data a conversation stores are the data the nodes accept: a
    full name of at least two words, a birth year between 1900 and 2010, a
    non-empty e-mail address, a non-empty brand and model, a car year
    between 2000 and 2025 and a mileage between 0 and 500000. *)
Theorem reachable_data_in_range (U : unicode) (cs : ChatState.t) :
  reachable U cs →
  valid_personal (ChatState.personal_data cs)
  ∧ valid_car (ChatState.car_data cs).
Proof.
  intros Hcs. destruct (reachable_valid U cs Hcs) as (Hp & Hc & _). by split.
Qed.

Lemma reachable_data_in_range_witness :
  ∃ cs, turns latin1 demo_env (ChatState.fresh (txt "c-1"))
          ["Hola"; "Juan Pérez"; "1890"; "1990"; "juan@x.com"; "sí";
           "Toyota"; "Corolla"; "1999"; "2020"; "600000"; "45000"]
        = Return cs
        ∧ valid_personal (ChatState.personal_data cs)
        ∧ valid_car (ChatState.car_data cs).
Proof.
  eexists. split; [vm_compute; reflexivity|].
  apply (reachable_data_in_range latin1).
  eapply (turns_reachable latin1 demo_env
            ["Hola"; "Juan Pérez"; "1890"; "1990"; "juan@x.com"; "sí";
             "Toyota"; "Corolla"; "1999"; "2020"; "600000"; "45000"]);
    [apply reachable_fresh | vm_compute; reflexivity].
Defined.

Lemma reachable_in_reachable (U : unicode) (year : Z) (cs : ChatState.t) :
  reachable_in U year cs → reachable U cs.
Proof.
  induction 1 as [conversation_id | E cs cs' user_input r _ IH _ Hrun].
  - apply reachable_fresh.
  - by eapply reachable_turn.
Qed.

(** A turn whose clock shows [year] keeps the stored result the one of
    that year: only the affirmative answer to the confirmation of the car
    stores a result, and it stores the one of the clock of that turn. *)
Lemma turn_decided_in (U : unicode) (E : env) (cs cs' : ChatState.t)
    (user_input : text) (r : response) :
  consistent cs → decided_in (current_year E) cs →
  process_message U E cs user_input = Return (cs', r) →
  decided_in (current_year E) cs'.
Proof.
  intros Hcons Hdec Hrun.
  pose proof (turn_consistent U E cs cs' user_input r Hcons Hrun)
    as (_ & _ & _ & Hresult' & _).
  assert (Hnone : ChatState.current_step cs ≠ COMPLETED →
                  ChatState.eligibility_result cs' = ChatState.eligibility_result cs →
                  decided_in (current_year E) cs').
  { intros Hstep Her. unfold decided_in in *. rewrite Her.
    destruct (ChatState.eligibility_result cs) as [result|] eqn:Hcs;
      [by destruct Hdec|].
    intros Hdone. rewrite Hdone in Hresult'. cbn [stage] in Hresult'.
    rewrite Her in Hresult'. by destruct (Hresult' eq_refl). }
  destruct Hcons as (Hname & Hpersonal & Hcar & _ & Hstage & _ & Hcf).
  destruct (ChatState.current_step cs) eqn:Hstep; cbn [stage] in *.
  - destruct (greeting_turn U E cs user_input Hstep)
      as (cs1 & Hrun1 & _ & _ & _ & _ & _ & Her1).
    rewrite Hrun in Hrun1. injection Hrun1 as <- _. by apply Hnone.
  - destruct (collect_personal_turn U E cs user_input Hstep)
      as (cs1 & r1 & Hrun1 & _ & _ & _ & Her1 & _).
    rewrite Hrun in Hrun1. injection Hrun1 as <- _. by apply Hnone.
  - destruct (complete_first_name (ChatState.personal_data cs))
      as [first_name Hfirst]; [done | apply Hpersonal; lia |].
    destruct (confirm_personal_turn U E cs user_input first_name Hstep Hfirst)
      as (cs1 & r1 & Hrun1 & _ & _ & Her1 & _).
    rewrite Hrun in Hrun1. injection Hrun1 as <- _. by apply Hnone.
  - destruct (collect_car_fields_turn U E cs user_input Hstep)
      as (cs1 & r1 & Hrun1 & _ & _ & _ & Her1 & _).
    rewrite Hrun in Hrun1. injection Hrun1 as <- _. by apply Hnone.
  - destruct (complete_first_name (ChatState.personal_data cs))
      as [first_name Hfirst]; [done | apply Hpersonal; lia |].
    destruct (confirm_car_turn_result U E cs user_input first_name Hstep)
      as (cs1 & r1 & Hrun1 & Hp1 & Hcases);
      [apply Hpersonal; lia | apply Hcar; lia | done | by rewrite Hcf |].
    rewrite Hrun in Hrun1. injection Hrun1 as <- _.
    destruct Hcases as [(Hstep' & Hc' & b & y & m & Hb & Hy & Hm & Her')
                       | [(_ & _ & Her') | (_ & _ & Her')]];
      [|by apply Hnone..].
    unfold decided_in. rewrite Her', Hp1, Hc'. split; [done|].
    by exists b, y, m.
  - done.
  - destruct (complete_first_name (ChatState.personal_data cs))
      as [first_name Hfirst]; [done | apply Hpersonal; lia |].
    destruct (completed_turn U E cs user_input first_name Hstep Hfirst)
      as (cs1 & Hrun1 & _ & Hstep1 & Hp1 & Hc1 & _ & _ & Her1).
    rewrite Hrun in Hrun1. injection Hrun1 as <- _.
    unfold decided_in in *. by rewrite <- Hp1, <- Hc1, <- Her1, <- Hstep1.
Qed.

Lemma reachable_in_decided (U : unicode) (year : Z) (cs : ChatState.t) :
  reachable_in U year cs → decided_in year cs.
Proof.
  induction 1 as [conversation_id | E cs cs' user_input r Hcs IH <- Hrun].
  - done.
  - eapply turn_decided_in; [|done|done].
    by eapply reachable_consistent, reachable_in_reachable.
Qed.

Lemma turns_reachable_in (U : unicode) (E : env) (inputs : list string)
    (cs cs' : ChatState.t) :
  reachable_in U (current_year E) cs → turns U E cs inputs = Return cs' →
  reachable_in U (current_year E) cs'.
Proof.
  revert cs; induction inputs as [|user_input inputs IH]; intros cs Hcs Hrun.
  - by injection Hrun as <-.
  - rewrite turns_cons in Hrun.
    destruct (process_message U E cs (txt user_input)) as [[cs1 r]|e] eqn:Hturn;
      [|done].
    rewrite bind_Return in Hrun. eapply IH; [|exact Hrun].
    by eapply reachable_in_turn.
Qed.

(** X14. In a conversation during which the clock shows one year, a result
    is stored exactly at step COMPLETED, and the stored result is the one
    the eligibility rule gives for that year on the stored birth year, car
    year and mileage: the client is eligible exactly when they are 18 that
    year, the car is of 2015 or later and the mileage is below 100000. *)
Theorem reachable_decision (U : unicode) (year : Z) (cs : ChatState.t) :
  reachable_in U year cs →
  match ChatState.eligibility_result cs with
  | Some result =>
    ChatState.current_step cs = COMPLETED
    ∧ ∃ b y m,
        PersonalData.birth_year (ChatState.personal_data cs) = Some b
        ∧ CarData.year (ChatState.car_data cs) = Some y
        ∧ CarData.mileage (ChatState.car_data cs) = Some m
        ∧ result = evaluate_eligibility year b y m
        ∧ (is_eligible result = true ↔ 18 ≤ year - b ∧ 2015 ≤ y ∧ m < 100000)
  | None => ChatState.current_step cs ≠ COMPLETED
  end.
Proof.
  intros Hdec%reachable_in_decided. unfold decided_in in Hdec.
  destruct (ChatState.eligibility_result cs) as [result|]; [|done].
  destruct Hdec as (Hstep & b & y & m & Hb & Hy & Hm & ->).
  split; [done|]. exists b, y, m. do 4 (split; [done|]).
  apply evaluate_eligibility_decision.
Qed.

Lemma reachable_decision_witness :
  ∃ cs, turns latin1 demo_env (ChatState.fresh (txt "c-1"))
          ["Hola"; "Juan Pérez"; "1990"; "juan@x.com"; "sí";
           "Toyota"; "Corolla"; "2010"; "45000"; "sí"]
        = Return cs
        ∧ ChatState.eligibility_result cs
          = Some (evaluate_eligibility 2026 1990 2010 45000)
        ∧ match ChatState.eligibility_result cs with
          | Some result =>
            ChatState.current_step cs = COMPLETED
            ∧ ∃ b y m,
                PersonalData.birth_year (ChatState.personal_data cs) = Some b
                ∧ CarData.year (ChatState.car_data cs) = Some y
                ∧ CarData.mileage (ChatState.car_data cs) = Some m
                ∧ result = evaluate_eligibility 2026 b y m
                ∧ (is_eligible result = true
                   ↔ 18 ≤ 2026 - b ∧ 2015 ≤ y ∧ m < 100000)
          | None => ChatState.current_step cs ≠ COMPLETED
          end.
Proof.
  eexists. split; [vm_compute; reflexivity|]. split; [vm_compute; reflexivity|].
  apply (reachable_decision latin1 2026).
  eapply (turns_reachable_in latin1 demo_env
            ["Hola"; "Juan Pérez"; "1990"; "juan@x.com"; "sí";
             "Toyota"; "Corolla"; "2010"; "45000"; "sí"]);
    [apply reachable_in_fresh | vm_compute; reflexivity].
Defined.

(** ** The database *)

Lemma dict_get_exclude_none (d : gmap string pyval) (k : string) :
  dict_get (exclude_none d) k = dict_get d k.
Proof.
  unfold dict_get, exclude_none. rewrite map_lookup_filter.
  destruct (d !! k) as [v|]; [|done]. cbn.
  case_guard as Hv; [done|]. cbn. by destruct v.
Qed.

Lemma load_personal_exclude_none (d : gmap string pyval) :
  load_personal_data (exclude_none d) = load_personal_data d.
Proof. unfold load_personal_data. by rewrite !dict_get_exclude_none. Qed.

Lemma load_car_exclude_none (d : gmap string pyval) :
  load_car_data (exclude_none d) = load_car_data d.
Proof. unfold load_car_data. by rewrite !dict_get_exclude_none. Qed.

(** Only the record without any field has nothing to dump. *)
Lemma exclude_none_empty_personal (p : PersonalData.t) :
  exclude_none (dump_personal_data p) = ∅ → p = PersonalData.empty.
Proof.
  intros Hempty.
  pose proof (load_personal_exclude_none (dump_personal_data p)) as Hload.
  rewrite Hempty, load_dump_personal, load_personal_empty in Hload.
  by injection Hload.
Qed.

Lemma exclude_none_empty_car (c : CarData.t) :
  exclude_none (dump_car_data c) = ∅ → c = CarData.empty.
Proof.
  intros Hempty.
  pose proof (load_car_exclude_none (dump_car_data c)) as Hload.
  rewrite Hempty, load_dump_car, load_car_empty in Hload.
  by injection Hload.
Qed.

(** What [save_conversation] writes for a dictionary is either nothing,
    when the dictionary is empty, or a token that decrypts to it. *)
Lemma decrypt_encrypt (L : libraries) (iv : N) (d : gmap string pyval) :
  sound L →
  let encrypted :=
    if dict_truthy d then Database._encrypt_pii L iv d else None in
  (d = ∅ ∧ column_truthy encrypted = false)
  ∨ (column_truthy encrypted = true ∧ Database._decrypt_pii L encrypted = Some d).
Proof.
  intros (Hjson & _ & Hcipher & Hb64 & Htoken & _). cbv zeta.
  unfold Database._encrypt_pii, Database._decrypt_pii, dict_truthy.
  case_bool_decide as Hd; cbn [negb]; [by left|]. right.
  assert (column_truthy (Some (b64encode L (cipher_encrypt L iv (json_dumps L d))))
          = true) as Htruthy.
  { cbn. case_bool_decide as Hnil; [|done]. by apply Htoken in Hnil. }
  rewrite Htruthy. split; [done|]. cbn [negb from_option id].
  rewrite Hb64. cbn. rewrite Hcipher. cbn. apply Hjson.
Qed.

Lemma filter_conversation (conversation_id id : text) (l : list message) :
  filter (λ m : text * message, m.1 = id) ((λ msg, (conversation_id, msg)) <$> l)
  = if decide (conversation_id = id)
    then (λ msg, (conversation_id, msg)) <$> l else [].
Proof.
  induction l as [|msg l IH]; [by destruct (decide _)|].
  rewrite fmap_cons, filter_cons, IH. cbn [fst].
  by destruct (decide (conversation_id = id)).
Qed.

(** The messages of a conversation after a save: those of the record that
    come after the stored ones are added, for the conversation saved. *)
Lemma messages_of_save (L : libraries) (db : Database.t) (iv1 iv2 : N)
    (cs : ChatState.t) (id : text) :
  Database.messages_of (Database.save_conversation L db iv1 iv2 cs) id
  = Database.messages_of db id
    ++ (if decide (ChatState.conversation_id cs = id)
        then drop (length (Database.messages_of db id)) (ChatState.messages cs)
        else []).
Proof.
  unfold Database.messages_of, Database.save_conversation.
  cbn [Database.messages].
  rewrite filter_app, fmap_app, filter_conversation.
  destruct (decide (ChatState.conversation_id cs = id)) as [->|]; [|done].
  f_equal. rewrite <- list_fmap_compose. apply list_fmap_id.
Qed.

Lemma bool_of_int_flag (b : bool) : bool_of_int (if b then 1 else 0)%Z = b.
Proof. by destruct b. Qed.

(** The record read back after a save. *)
Lemma load_save (L : libraries) (db : Database.t) (iv1 iv2 : N)
    (cs : ChatState.t) :
  sound L →
  Database.load_conversation L (Database.save_conversation L db iv1 iv2 cs)
    (ChatState.conversation_id cs)
  = Database.Found
      {| ChatState.conversation_id := ChatState.conversation_id cs;
         ChatState.current_step := ChatState.current_step cs;
         ChatState.personal_data := ChatState.personal_data cs;
         ChatState.car_data := ChatState.car_data cs;
         ChatState.messages :=
           Database.messages_of db (ChatState.conversation_id cs)
           ++ drop (length (Database.messages_of db (ChatState.conversation_id cs)))
                (ChatState.messages cs);
         ChatState.personal_data_confirmed := ChatState.personal_data_confirmed cs;
         ChatState.car_data_confirmed := ChatState.car_data_confirmed cs;
         ChatState.eligibility_result := ChatState.eligibility_result cs |}.
Proof.
  intros HL. unfold Database.load_conversation.
  rewrite messages_of_save. rewrite decide_True by done.
  unfold Database.save_conversation at 1. cbn [Database.conversations].
  rewrite lookup_insert_eq.
  cbn [Database.current_step Database.encrypted_personal_data
       Database.encrypted_car_data Database.personal_data_confirmed
       Database.car_data_confirmed Database.eligibility_result].
  rewrite !bool_of_int_flag.
  assert (Hpersonal :
    (if column_truthy
          (if dict_truthy (exclude_none (dump_personal_data (ChatState.personal_data cs)))
           then Database._encrypt_pii L iv1
                  (exclude_none (dump_personal_data (ChatState.personal_data cs)))
           else None)
     then d ← Database._decrypt_pii L
                (if dict_truthy (exclude_none (dump_personal_data (ChatState.personal_data cs)))
                 then Database._encrypt_pii L iv1
                        (exclude_none (dump_personal_data (ChatState.personal_data cs)))
                 else None);
          option_of_outcome (load_personal_data d)
     else Some PersonalData.empty) = Some (ChatState.personal_data cs)).
  { destruct (decrypt_encrypt L iv1
                (exclude_none (dump_personal_data (ChatState.personal_data cs))) HL)
      as [[Hempty ->] | [-> ->]].
    - by rewrite (exclude_none_empty_personal _ Hempty).
    - cbn. by rewrite load_personal_exclude_none, load_dump_personal. }
  assert (Hcar :
    (if column_truthy
          (if dict_truthy (exclude_none (dump_car_data (ChatState.car_data cs)))
           then Database._encrypt_pii L iv2
                  (exclude_none (dump_car_data (ChatState.car_data cs)))
           else None)
     then d ← Database._decrypt_pii L
                (if dict_truthy (exclude_none (dump_car_data (ChatState.car_data cs)))
                 then Database._encrypt_pii L iv2
                        (exclude_none (dump_car_data (ChatState.car_data cs)))
                 else None);
          option_of_outcome (load_car_data d)
     else Some CarData.empty) = Some (ChatState.car_data cs)).
  { destruct (decrypt_encrypt L iv2
                (exclude_none (dump_car_data (ChatState.car_data cs))) HL)
      as [[Hempty ->] | [-> ->]].
    - by rewrite (exclude_none_empty_car _ Hempty).
    - cbn. by rewrite load_car_exclude_none, load_dump_car. }
  rewrite Hpersonal, Hcar. cbn [mbind option_bind].
  destruct HL as (_ & Hresult & _ & _ & _ & Hjson).
  destruct (ChatState.eligibility_result cs) as [result|]; [|done].
  cbn [column_truthy truthy from_option id].
  rewrite bool_decide_eq_false_2 by apply Hjson. cbn [negb].
  by rewrite Hresult.
Qed.

Lemma chat_state_eta (cs : ChatState.t) :
  {| ChatState.conversation_id := ChatState.conversation_id cs;
     ChatState.current_step := ChatState.current_step cs;
     ChatState.personal_data := ChatState.personal_data cs;
     ChatState.car_data := ChatState.car_data cs;
     ChatState.messages := ChatState.messages cs;
     ChatState.personal_data_confirmed := ChatState.personal_data_confirmed cs;
     ChatState.car_data_confirmed := ChatState.car_data_confirmed cs;
     ChatState.eligibility_result := ChatState.eligibility_result cs |} = cs.
Proof. by destruct cs. Qed.

(** A record that continues the stored messages is read back as it is. *)
Lemma load_save_extends (L : libraries) (db : Database.t) (iv1 iv2 : N)
    (cs : ChatState.t) (added : list message) :
  sound L →
  ChatState.messages cs
  = Database.messages_of db (ChatState.conversation_id cs) ++ added →
  Database.load_conversation L (Database.save_conversation L db iv1 iv2 cs)
    (ChatState.conversation_id cs) = Database.Found cs.
Proof.
  intros HL Hmsgs. rewrite load_save by done.
  rewrite Hmsgs, drop_app_length, <- Hmsgs.
  by rewrite chat_state_eta.
Qed.

(** A record that is found has the identifier asked for and the stored
    messages. *)
Lemma load_found (L : libraries) (db : Database.t) (id : text) (cs : ChatState.t) :
  Database.load_conversation L db id = Database.Found cs →
  ChatState.conversation_id cs = id
  ∧ ChatState.messages cs = Database.messages_of db id
  ∧ is_Some (Database.conversations db !! id).
Proof.
  unfold Database.load_conversation.
  destruct (Database.conversations db !! id) as [row|]; [|done].
  destruct (_ ≫= _) as [state|] eqn:Hstate; [|done].
  intros [= <-].
  apply bind_Some in Hstate as (p & _ & Hstate).
  apply bind_Some in Hstate as (c & _ & Hstate).
  apply bind_Some in Hstate as (e & _ & Hstate).
  injection Hstate as <-. by eauto.
Qed.

Lemma load_not_found (L : libraries) (db : Database.t) (id : text) :
  Database.load_conversation L db id = Database.NotFound
  ↔ Database.conversations db !! id = None.
Proof.
  unfold Database.load_conversation.
  destruct (Database.conversations db !! id) as [row|]; [|done].
  split; [|done]. by destruct (_ ≫= _).
Qed.

(** A save leaves the other conversations as they are. *)
Lemma load_save_other (L : libraries) (db : Database.t) (iv1 iv2 : N)
    (cs : ChatState.t) (id : text) :
  id ≠ ChatState.conversation_id cs →
  Database.load_conversation L (Database.save_conversation L db iv1 iv2 cs) id
  = Database.load_conversation L db id.
Proof.
  intros Hid. unfold Database.load_conversation.
  rewrite messages_of_save, decide_False, app_nil_r by done.
  unfold Database.save_conversation. cbn [Database.conversations].
  by rewrite lookup_insert_ne.
Qed.

Lemma messages_of_delete (db : Database.t) (id id' : text) :
  Database.messages_of (Database.delete_conversation db id').1 id
  = if decide (id = id') then [] else Database.messages_of db id.
Proof.
  unfold Database.messages_of, Database.delete_conversation.
  cbn [fst Database.messages].
  induction (Database.messages db) as [|[i msg] l IH]; [by destruct (decide _)|].
  rewrite !filter_cons. cbn [fst].
  destruct (decide (id = id')) as [->|Hne].
  - destruct (decide (i ≠ id')) as [Hi|Hi]; [|done].
    rewrite filter_cons. cbn [fst]. by rewrite decide_False.
  - destruct (decide (i ≠ id')) as [Hi|Hi%dec_stable].
    + rewrite filter_cons. cbn [fst].
      destruct (decide (i = id)); [|done]. by rewrite !fmap_cons, IH.
    + subst i. by rewrite decide_False.
Qed.

Lemma no_orphans_save (L : libraries) (db : Database.t) (iv1 iv2 : N)
    (cs : ChatState.t) :
  no_orphans db → no_orphans (Database.save_conversation L db iv1 iv2 cs).
Proof.
  intros Hdb id Hnone. rewrite messages_of_save.
  unfold Database.save_conversation in Hnone. cbn [Database.conversations] in Hnone.
  apply lookup_insert_None in Hnone as [Hnone Hne].
  by rewrite decide_False, app_nil_r, Hdb.
Qed.

Lemma no_orphans_delete (db : Database.t) (id : text) :
  no_orphans db → no_orphans (Database.delete_conversation db id).1.
Proof.
  intros Hdb id' Hnone. rewrite messages_of_delete.
  destruct (decide (id' = id)) as [->|Hne]; [done|]. apply Hdb.
  cbn in Hnone. by rewrite lookup_delete_ne in Hnone.
Qed.

Lemma no_orphans_empty : no_orphans Database.empty.
Proof. by intros id _. Qed.

Lemma plain_libraries_sound : sound plain_libraries.
Proof.
  repeat split; try done.
  - intros d. cbn. apply decode_encode.
  - intros result. cbn. by rewrite decode_encode.
Qed.

(** What a turn adds to the messages, and that it keeps the identifier. *)
Lemma turn_extends (U : unicode) (E : env) (cs cs' : ChatState.t)
    (user_input : text) (r : response) :
  process_message U E cs user_input = Return (cs', r) →
  ChatState.conversation_id cs' = ChatState.conversation_id cs
  ∧ ChatState.messages cs'
    = ChatState.messages cs
      ++ HumanMessage user_input :: (if response_truthy r then [AIMessage r] else []).
Proof.
  intros (final & Hrun & Hback & ->)%process_message_inv.
  apply invoke_frame in Hrun as [Hmsgs Hid].
  apply graph_state_to_chat_state_inv in Hback as (p & c & _ & _ & ->).
  cbn [ChatState.messages ChatState.conversation_id].
  rewrite Hmsgs, Hid. split; [done|].
  cbn [turn_state _chat_state_to_graph_state with_user_message messages
       ChatState.messages].
  destruct (response_truthy _); by rewrite <- ?app_assoc, ?app_nil_r.
Qed.

Lemma load_delete_other (L : libraries) (db : Database.t) (id id' : text) :
  id ≠ id' →
  Database.load_conversation L (Database.delete_conversation db id').1 id
  = Database.load_conversation L db id.
Proof.
  intros Hid. unfold Database.load_conversation.
  rewrite messages_of_delete, decide_False by done.
  cbn [Database.delete_conversation fst Database.conversations].
  by rewrite lookup_delete_ne.
Qed.

(** X15. What is saved is read back. After a save, the load of the
    conversation finds the record that was saved, with the messages the
    table held before followed by those of the record beyond their number:
    the step, the data, the flags and the result come back through the
    cipher and the JSON as they were, and a record whose messages continue
    the stored ones comes back unchanged. *)
Theorem save_then_load (L : libraries) (db : Database.t) (iv_personal iv_car : N)
    (cs : ChatState.t) :
  sound L →
  let id := ChatState.conversation_id cs in
  let stored := Database.messages_of db id in
  ∃ cs',
    Database.load_conversation L
      (Database.save_conversation L db iv_personal iv_car cs) id
    = Database.Found cs'
    ∧ same_data cs cs'
    ∧ ChatState.messages cs'
      = stored ++ drop (length stored) (ChatState.messages cs)
    ∧ ((∃ added, ChatState.messages cs = stored ++ added) → cs' = cs).
Proof.
  intros HL id stored. eexists. split; [by apply load_save|].
  split; [by repeat split|]. split; [done|].
  intros [added Hadded]. subst id stored.
  rewrite Hadded, drop_app_length, <- Hadded. apply chat_state_eta.
Qed.

Lemma save_then_load_witness :
  let cs := record_at COMPLETED juan corolla true true
              (Some (evaluate_eligibility 2026 1990 2020 45000)) in
  ∃ cs',
    Database.load_conversation plain_libraries
      (Database.save_conversation plain_libraries Database.empty 7 8 cs)
      (txt "c-1")
    = Database.Found cs'
    ∧ same_data cs cs'
    ∧ ChatState.messages cs' = []
    ∧ ((∃ added, ChatState.messages cs = [] ++ added) → cs' = cs).
Proof.
  apply (save_then_load plain_libraries Database.empty 7 8
           (record_at COMPLETED juan corolla true true
              (Some (evaluate_eligibility 2026 1990 2020 45000)))).
  apply plain_libraries_sound.
Defined.

(** X16. A save and a deletion touch one conversation only: the load of
    any other identifier gives what it gave before. *)
Theorem storage_keeps_other_conversations (L : libraries) (db : Database.t)
    (iv_personal iv_car : N) (cs : ChatState.t) (id : text) :
  id ≠ ChatState.conversation_id cs →
  Database.load_conversation L
    (Database.save_conversation L db iv_personal iv_car cs) id
  = Database.load_conversation L db id
  ∧ Database.load_conversation L
      (Database.delete_conversation db (ChatState.conversation_id cs)).1 id
    = Database.load_conversation L db id.
Proof.
  intros Hid. split; [by apply load_save_other | by apply load_delete_other].
Qed.

Lemma storage_keeps_other_conversations_witness :
  let db := Database.save_conversation plain_libraries Database.empty 1 2
              (ChatState.fresh (txt "c-2")) in
  let cs := record_at COLLECTING_CAR_DATA juan CarData.empty true false None in
  Database.load_conversation plain_libraries
    (Database.save_conversation plain_libraries db 7 8 cs) (txt "c-2")
  = Database.load_conversation plain_libraries db (txt "c-2")
  ∧ Database.load_conversation plain_libraries
      (Database.delete_conversation db (txt "c-1")).1 (txt "c-2")
    = Database.load_conversation plain_libraries db (txt "c-2").
Proof.
  apply (storage_keeps_other_conversations plain_libraries
           (Database.save_conversation plain_libraries Database.empty 1 2
              (ChatState.fresh (txt "c-2")))
           7 8
           (record_at COLLECTING_CAR_DATA juan CarData.empty true false None)
           (txt "c-2")).
  vm_compute. discriminate.
Defined.



(** X18. The repository is transparent to a turn. On a database without
    orphan messages and for an identifier that can be encoded, take the
    turn on the record the database holds for the identifier, or on a fresh
    record when it holds none. When the message of the user and the text of
    the response can be encoded, the turn of the chatbot answers what that
    turn answers, and the database it leaves holds the record that turn
    returns, still has no orphan message and holds for every other
    identifier what it held. When one of them cannot be encoded, the turn
    of the chatbot raises. An absent or empty identifier is replaced by the
    one drawn. *)
Theorem stored_turn (U : unicode) (E : env) (G : Render.generator)
    (L : libraries) (db : Database.t)
    (iv_personal iv_car : N) (uuid4 user_input : text)
    (conversation_id : option text) (start cs' : ChatState.t) (r : response) :
  let id := if negb (column_truthy conversation_id) then uuid4
            else default [] conversation_id in
  let said :=
    HumanMessage user_input :: (if response_truthy r then [AIMessage r] else []) in
  sound L →
  no_orphans db →
  encodable id = true →
  Database.load_conversation L db id = Database.Found start
  ∨ (Database.load_conversation L db id = Database.NotFound
     ∧ start = ChatState.fresh id) →
  process_message U E start user_input = Return (cs', r) →
  (forallb (SQLiteConversationRepository.binds U G) said = true →
   ∃ db',
     EligibilityChatbot.process_message U E G L db iv_personal iv_car uuid4
       user_input conversation_id
     = Some (db', r, id)
     ∧ Database.load_conversation L db' id = Database.Found cs'
     ∧ no_orphans db'
     ∧ ∀ id', id' ≠ id →
         Database.load_conversation L db' id'
         = Database.load_conversation L db id')
  ∧ (forallb (SQLiteConversationRepository.binds U G) said = false →
     EligibilityChatbot.process_message U E G L db iv_personal iv_car uuid4
       user_input conversation_id
     = None).
Proof.
  intros id said HL Hdb Hencodable Hstart Hturn.
  assert (ChatState.conversation_id start = id
          ∧ ChatState.messages start = Database.messages_of db id) as [Hid Hmsgs].
  { destruct Hstart as [Hfound | [Hnone ->]].
    - by apply load_found in Hfound as (? & ? & _).
    - split; [done|]. symmetry. by apply Hdb, (load_not_found L). }
  destruct (turn_extends U E start cs' user_input r Hturn) as [Hid' Hsaid].
  fold said in Hsaid.
  assert (EligibilityChatbot.process_message U E G L db iv_personal iv_car uuid4
            user_input conversation_id
          = if forallb (SQLiteConversationRepository.binds U G) said
            then Some (Database.save_conversation L db iv_personal iv_car cs', r, id)
            else None) as Hcall.
  { unfold EligibilityChatbot.process_message. fold id.
    unfold SQLiteConversationRepository.load_conversation. rewrite Hencodable.
    assert (SQLiteConversationRepository.save_conversation U G L db
              iv_personal iv_car cs'
            = if forallb (SQLiteConversationRepository.binds U G) said
              then Some (Database.save_conversation L db iv_personal iv_car cs')
              else None) as Hsave.
    { unfold SQLiteConversationRepository.save_conversation.
      rewrite Hid', Hid, Hencodable, Hsaid, Hmsgs, drop_app_length.
      cbn [andb]. done. }
    destruct Hstart as [-> | [-> ->]]; rewrite Hturn, Hsave;
      by destruct (forallb _ said). }
  rewrite Hcall. split; intros ->; [|done].
  exists (Database.save_conversation L db iv_personal iv_car cs').
  split; [done|]. split; [|split].
  - rewrite <- Hid, <- Hid'.
    apply (load_save_extends L db _ _ cs' said); [done|].
    by rewrite Hid', Hid, <- Hmsgs.
  - by apply no_orphans_save.
  - intros id' Hne. apply load_save_other. by rewrite Hid', Hid.
Qed.

Lemma stored_turn_witness :
  ∃ cs',
    process_message latin1 demo_env (ChatState.fresh (txt "c-1")) (txt "Hola")
    = Return (cs', Generated ResponseGenerator.greeting)
    ∧ ∃ db',
        EligibilityChatbot.process_message latin1 demo_env templates
          plain_libraries Database.empty 7 8 (txt "u-1") (txt "Hola")
          (Some (txt "c-1"))
        = Some (db', Generated ResponseGenerator.greeting, txt "c-1")
        ∧ Database.load_conversation plain_libraries db' (txt "c-1")
          = Database.Found cs'
        ∧ no_orphans db'
        ∧ ∀ id', id' ≠ txt "c-1" →
            Database.load_conversation plain_libraries db' id'
            = Database.load_conversation plain_libraries Database.empty id'.
Proof.
  eexists. split; [vm_compute; reflexivity|].
  refine (proj1 (stored_turn latin1 demo_env templates plain_libraries
                   Database.empty 7 8 (txt "u-1") (txt "Hola") (Some (txt "c-1"))
                   (ChatState.fresh (txt "c-1")) _
                   (Generated ResponseGenerator.greeting)
                   plain_libraries_sound no_orphans_empty _
                   (or_intror (conj eq_refl eq_refl)) _) _);
    vm_compute; reflexivity.
Defined.

(** A message of the user that holds a lone surrogate cannot be stored:
    the turn of the chatbot raises and the database stays as it was. *)
Example surrogate_turn_raises :
  EligibilityChatbot.process_message latin1 demo_env templates plain_libraries
    Database.empty 7 8 (txt "u-1") [55296%N] (Some (txt "c-1"))
  = None.
Proof. vm_compute. reflexivity. Qed.

(** ** The texts of the generator *)

Lemma app_nonempty_l (a b : text) : a ≠ [] → a ++ b ≠ [].
Proof. by destruct a. Qed.

(** [_generate_with_llm] answers its default, or the trimmed reply of the
    language model when there is one that is not empty. *)
Lemma generate_with_llm_cases (G : Render.generator) (context default : text) :
  Render._generate_with_llm G context default = default
  ∨ (Render._generate_with_llm G context default ≠ []
     ∧ ∃ invoke content,
         Render.use_llm_responses G = true
         ∧ Render.llm_provider G = Some invoke
         ∧ invoke (Render.generation_prompt context) = LLMContent content
         ∧ Render._generate_with_llm G context default = strip content).
Proof.
  unfold Render._generate_with_llm.
  destruct (Render.use_llm_responses G); [|by left].
  destruct (Render.llm_provider G) as [invoke|]; [|by left]. cbn [negb orb].
  rewrite bool_decide_eq_true_2 by done. cbn [negb].
  destruct (invoke _) as [content|] eqn:Hreply; [|by left].
  cbn [truthy]. case_bool_decide as Hempty; cbn [negb]; [by left|].
  right. split; [done|]. by exists invoke, content.
Qed.

Lemma generate_nonempty (G : Render.generator) (context default : text) :
  default ≠ [] → Render._generate_with_llm G context default ≠ [].
Proof.
  intros Hdefault.
  destruct (generate_with_llm_cases G context default) as [-> | [Hne _]]; done.
Qed.

Lemma generate_silent (G : Render.generator) (context default : text) :
  silent G → Render._generate_with_llm G context default = default.
Proof.
  intros Hsilent.
  destruct (generate_with_llm_cases G context default)
    as [H | (Hne & invoke & content & Huse & Hprovider & Hreply & Hgen)]; [done|].
  destruct Hsilent as [Hoff | [Hnone | (invoke' & Hsome & Hblank)]];
    [congruence | congruence |].
  rewrite Hprovider in Hsome. injection Hsome as <-.
  specialize (Hblank (Render.generation_prompt context)).
  rewrite Hreply in Hblank. by rewrite Hgen, Hblank in Hne.
Qed.

(** Two generators that fall back on their templates write the same. *)
Lemma render_silent (U : unicode) (G1 G2 : Render.generator)
    (c : ResponseGenerator.call) :
  silent G1 → silent G2 → Render.render U G1 c = Render.render U G2 c.
Proof.
  intros H1 H2.
  destruct c as [| first_name | | data | first_name | | brand | brand model |
                 | data | first_name | result first_name | | | | | brand
                 | | | |];
    cbn [Render.render]; try done; f_equal.
  - unfold Render.greeting. by rewrite !generate_silent.
  - unfold Render.ask_birth_year.
    destruct (truthy (PStr first_name)); by rewrite !generate_silent.
  - unfold Render.ask_email. by rewrite !generate_silent.
  - unfold Render.confirm_personal_data. by rewrite !generate_silent.
  - unfold Render.personal_data_confirmed. by rewrite !generate_silent.
  - unfold Render.eligibility_result. destruct result as [result|]; [|done].
    destruct (is_eligible result); by rewrite !generate_silent.
Qed.

Lemma content_silent (U : unicode) (G1 G2 : Render.generator) (msg : message) :
  silent G1 → silent G2 →
  SQLiteConversationRepository.content U G1 msg
  = SQLiteConversationRepository.content U G2 msg.
Proof.
  intros H1 H2. destruct msg as [s | [s | c]]; cbn; try done.
  by apply render_silent.
Qed.

Lemma lstrip_snoc_nonempty (s : text) (c : N) :
  isspace c = false → lstrip (s ++ [c]) ≠ [].
Proof.
  intros Hc. induction s as [|x s IH]; cbn [app lstrip].
  - by rewrite Hc.
  - by destruct (isspace x).
Qed.

(** A text that starts with a character that is not a space keeps it. *)
Lemma strip_nonempty (c : N) (s : text) :
  isspace c = false → strip (c :: s) ≠ [].
Proof.
  intros Hc. unfold strip. rewrite lstrip_head by done.
  unfold rstrip. cbn [rev]. intros Hnil.
  apply (f_equal (@rev N)) in Hnil. rewrite rev_involutive in Hnil.
  by apply lstrip_snoc_nonempty in Hnil.
Qed.

Lemma strip_literal_nonempty (lit rest : text) (c : N) (lit' : text) :
  lit = c :: lit' → isspace c = false → strip (lit ++ rest) ≠ [].
Proof. intros -> Hc. by apply strip_nonempty. Qed.

(** The loop that adds a line for each reason. *)
Lemma foldl_lines (f : text → text) (l : list text) (init : text) :
  foldl (λ acc r, acc ++ f r) init l = init ++ concat (f <$> l).
Proof.
  revert init; induction l as [|r l IH]; intros init; cbn.
  - by rewrite app_nil_r.
  - by rewrite IH, app_assoc.
Qed.

Ltac literal_nonempty :=
  repeat match goal with
         | |- Render._generate_with_llm _ _ _ ≠ [] => apply generate_nonempty
         | |- _ ++ _ ≠ [] => apply app_nonempty_l
         end;
  by vm_compute.

(** X19. The generator never answers with the empty text, whatever the
    language model does: every call the graph makes to it is rendered, when
    it is rendered at all, as a text that is not empty, so that the turn
    records it as a message of the assistant. *)
Theorem render_nonempty (U : unicode) (G : Render.generator)
    (c : ResponseGenerator.call) (s : text) :
  Render.render U G c = Some s → s ≠ [].
Proof.
  destruct c as [| first_name | | data | first_name | | brand | brand model |
                 | data | first_name | result first_name | | | | | brand
                 | | | |];
    cbn [Render.render]; try (intros <-%(inj Some)).
  - unfold Render.greeting. literal_nonempty.
  - unfold Render.ask_birth_year. destruct (truthy _); literal_nonempty.
  - unfold Render.ask_email. literal_nonempty.
  - unfold Render.confirm_personal_data. literal_nonempty.
  - unfold Render.personal_data_confirmed. literal_nonempty.
  - by vm_compute.
  - unfold Render.ask_car_brand.
    destruct (truthy (PStr brand)); [|intros <-%(inj Some); by vm_compute].
    destruct (Render._get_model_examples U (PStr brand)) as [[examples|]|];
      [| |done];
      cbn [mbind option_bind]; [destruct (truthy (PStr examples))|];
      intros <-%(inj Some); literal_nonempty.
  - unfold Render.ask_car_model. destruct (truthy _); literal_nonempty.
  - by vm_compute.
  - unfold Render.confirm_car_data.
    destruct (dict_get_or data "mileage" _); [done|done|].
    intros <-%(inj Some). literal_nonempty.
  - unfold Render.car_data_reset. literal_nonempty.
  - unfold Render.eligibility_result. destruct result as [result|]; [|by vm_compute].
    destruct (is_eligible result); [literal_nonempty|].
    apply generate_nonempty.
    rewrite (foldl_lines (λ reason, txt "- " ++ reason ++ Render.NEWLINE)).
    rewrite <- !app_assoc.
    eapply strip_literal_nonempty; [vm_compute; reflexivity | reflexivity].
  - by vm_compute.
  - by vm_compute.
  - by vm_compute.
  - by vm_compute.
  - unfold Render.invalid_car_model.
    destruct (truthy brand); [|intros <-%(inj Some); by vm_compute].
    destruct (Render._get_model_examples U brand) as [[examples|]|];
      [| |done];
      cbn [mbind option_bind]; [destruct (truthy (PStr examples))|];
      intros <-%(inj Some); literal_nonempty.
  - by vm_compute.
  - by vm_compute.
  - by vm_compute.
  - by vm_compute.
Qed.

Lemma render_nonempty_witness :
  Render.confirm_car_data (dump_car_data corolla)
  = Some (txt "Perfecto! Toyota Corolla del 2020 con 45.000km, correcto?")
  ∧ txt "Perfecto! Toyota Corolla del 2020 con 45.000km, correcto?" ≠ [].
Proof.
  split; [vm_compute; reflexivity|].
  apply (render_nonempty latin1 templates
           (ResponseGenerator.confirm_car_data (dump_car_data corolla))).
  vm_compute. reflexivity.
Defined.

Lemma templates_silent : silent templates.
Proof. by left. Qed.

(** X20. A generator whose language model is disabled, missing, failing or
    answering with whitespace only renders every call as the generator of
    the default configuration does: the failure of the language model is
    never seen in a response. *)
Theorem render_falls_back (U : unicode) (G : Render.generator)
    (c : ResponseGenerator.call) :
  silent G → Render.render U G c = Render.render U templates c.
Proof.
  intros HG. pose proof templates_silent as HT.
  destruct c as [| first_name | | data | first_name | | brand | brand model |
                 | data | first_name | result first_name | | | | | brand
                 | | | |];
    cbn [Render.render]; try done; f_equal.
  - unfold Render.greeting. by rewrite !generate_silent.
  - unfold Render.ask_birth_year.
    destruct (truthy (PStr first_name)); by rewrite !generate_silent.
  - unfold Render.ask_email. by rewrite !generate_silent.
  - unfold Render.confirm_personal_data. by rewrite !generate_silent.
  - unfold Render.personal_data_confirmed. by rewrite !generate_silent.
  - unfold Render.eligibility_result. destruct result as [result|]; [|done].
    destruct (is_eligible result); by rewrite !generate_silent.
Qed.

Lemma render_falls_back_witness :
  let unreachable :=
    {| Render.use_llm_responses := true;
       Render.llm_provider := Some (λ _, LLMFailure) |} in
  Render.render latin1 unreachable (ResponseGenerator.ask_birth_year (txt "Juan"))
  = Render.render latin1 templates (ResponseGenerator.ask_birth_year (txt "Juan")).
Proof.
  apply (render_falls_back latin1
           {| Render.use_llm_responses := true;
              Render.llm_provider := Some (λ _, LLMFailure) |}
           (ResponseGenerator.ask_birth_year (txt "Juan"))).
  right. right. eexists. split; [reflexivity|]. intros p. exact I.
Defined.

(** *** The language model and the texts *)

(** X7. The nodes consult the language model to read the full name, the
    brand and the model, and for nothing else. At every other point of the
    dialogue, under two language models and the same year, a turn raises
    the same exception or returns records with the same step, data, flags
    and result, after asking the response generator for the same response:
    the same method with the same arguments. With generators that fall
    back on their templates, which is the default configuration, the texts
    of the messages of the two records are the same as well. With
    [use_llm_responses] a generator asks the language model for the text
    of some of its responses: that text is what the model writes, and the
    statement says nothing of it. *)
Theorem llm_only_reads_free_text (U : unicode) (E1 E2 : env) (cs : ChatState.t)
    (user_input : text) :
  current_year E1 = current_year E2 →
  (ChatState.current_step cs = COLLECTING_PERSONAL_DATA →
   missing_str (PersonalData.full_name (ChatState.personal_data cs)) = false) →
  (ChatState.current_step cs = COLLECTING_CAR_DATA →
   missing_str (CarData.brand (ChatState.car_data cs)) = false
   ∧ missing_str (CarData.model (ChatState.car_data cs)) = false) →
  match process_message U E1 cs user_input,
        process_message U E2 cs user_input with
  | Return (cs1, r1), Return (cs2, r2) =>
    same_data cs1 cs2 ∧ r1 = r2
    ∧ ∀ G1 G2, silent G1 → silent G2 →
        map (SQLiteConversationRepository.content U G1) (ChatState.messages cs1)
        = map (SQLiteConversationRepository.content U G2) (ChatState.messages cs2)
  | Raise e1, Raise e2 => e1 = e2
  | _, _ => False
  end.
Proof.
  intros Hyear Hpersonal Hcar.
  rewrite (turn_without_llm U E1 E2 cs user_input Hyear Hpersonal Hcar).
  destruct (process_message U E2 cs user_input) as [[cs2 r2]|e2]; [|done].
  split; [by repeat split|]. split; [done|].
  intros G1 G2 H1 H2. apply List.map_ext. intros msg. by apply content_silent.
Qed.

Lemma llm_only_reads_free_text_witness :
  ∃ cs1 cs2 r,
    process_message latin1 demo_env
      (record_at COLLECTING_PERSONAL_DATA
         {| PersonalData.full_name := Some (txt "Juan Pérez");
            PersonalData.birth_year := None;
            PersonalData.email := None |}
         CarData.empty false false None)
      (txt "eres un imbécil, 1990")
    = Return (cs1, r)
    ∧ process_message latin1 strict_env
        (record_at COLLECTING_PERSONAL_DATA
           {| PersonalData.full_name := Some (txt "Juan Pérez");
              PersonalData.birth_year := None;
              PersonalData.email := None |}
           CarData.empty false false None)
        (txt "eres un imbécil, 1990")
      = Return (cs2, r)
    ∧ same_data cs1 cs2
    ∧ PersonalData.birth_year (ChatState.personal_data cs2) = Some 1990
    ∧ map (SQLiteConversationRepository.content latin1 templates)
        (ChatState.messages cs1)
      = map (SQLiteConversationRepository.content latin1 templates)
          (ChatState.messages cs2).
Proof.
  pose proof (llm_only_reads_free_text latin1 demo_env strict_env
                (record_at COLLECTING_PERSONAL_DATA
                   {| PersonalData.full_name := Some (txt "Juan Pérez");
                      PersonalData.birth_year := None;
                      PersonalData.email := None |}
                   CarData.empty false false None)
                (txt "eres un imbécil, 1990")
                eq_refl (λ _, eq_refl) ltac:(discriminate)) as Hsame.
  destruct (process_message latin1 demo_env _ _) as [[cs1 r1]|e1];
    destruct (process_message latin1 strict_env _ _) as [[cs2 r2]|e2] eqn:Hrun;
    try done.
  destruct Hsame as (Hsame & -> & Htexts). exists cs1, cs2, r2.
  do 3 (split; [done|]). split.
  - vm_compute in Hrun. by injection Hrun as <- _.
  - apply Htexts; apply templates_silent.
Defined.

(** *** The announcement of the result *)

Lemma filter_unmet_cons (r : text) (l : list text) :
  filter (λ r, ¬ startswith r CHECK_MARK) (r :: l)
  = if has_check_mark r then filter (λ r, ¬ startswith r CHECK_MARK) l
    else r :: filter (λ r, ¬ startswith r CHECK_MARK) l.
Proof.
  rewrite filter_cons. unfold has_check_mark.
  destruct (startswith r CHECK_MARK).
  - by rewrite decide_False by (intros H; apply H; exact I).
  - by rewrite decide_True by (intros []).
Qed.

Lemma rstrip_app_nonempty (a b : text) : rstrip b ≠ [] → rstrip (a ++ b) ≠ [].
Proof.
  unfold rstrip. rewrite rev_app_distr. intros Hb Hnil. apply Hb.
  apply (f_equal (@rev N)) in Hnil. rewrite rev_involutive in Hnil. cbn in Hnil.
  destruct (lstrip_decompose (rev b ++ rev a)) as (ws & Hws & Hspace).
  rewrite Hnil, app_nil_r in Hws.
  destruct (lstrip_decompose (rev b)) as (ws' & Hws' & _).
  assert (Hall : Forall (λ c, isspace c = true) (rev b)).
  { apply (Forall_app _ (rev b) (rev a)). by rewrite Hws. }
  assert (lstrip (rev b) = []) as ->; [|done].
  clear -Hall. induction (rev b) as [|c l IH]; [done|].
  inversion Hall as [|? ? Hc Hl]; subst. cbn. rewrite Hc. by apply IH.
Qed.

(** Trailing whitespace is only looked for at the end. *)
Lemma rstrip_app_keep (a b : text) : rstrip b ≠ [] → rstrip (a ++ b) = a ++ rstrip b.
Proof.
  unfold rstrip. rewrite rev_app_distr. intros Hb.
  assert (Hl : ∀ x y : text, lstrip x ≠ [] → lstrip (x ++ y) = lstrip x ++ y).
  { intros x y. induction x as [|c x IH]; [done|]. cbn.
    destruct (isspace c); [apply IH | done]. }
  rewrite Hl.
  - by rewrite rev_app_distr, rev_involutive.
  - intros Hnil. apply Hb. by rewrite Hnil.
Qed.

Lemma lstrip_literal (lit rest : text) (c : N) (lit' : text) :
  lit = c :: lit' → isspace c = false → lstrip (lit ++ rest) = lit ++ rest.
Proof. intros -> Hc. cbn. by rewrite Hc. Qed.

(** The end of a text of lines: the last newline goes, the rest stays. *)
Ltac rstrip_side :=
  lazymatch goal with
  | |- rstrip (txt _ ++ Render.NEWLINE) ≠ [] => by vm_compute
  | |- rstrip (_ ++ _) ≠ [] => apply rstrip_app_nonempty; rstrip_side
  end.

Ltac strip_lines :=
  unfold strip;
  erewrite lstrip_literal by (vm_compute; reflexivity);
  repeat (rewrite rstrip_app_keep by rstrip_side);
  match goal with
  | |- context [rstrip (txt ?lit ++ Render.NEWLINE)] =>
    replace (rstrip (txt lit ++ Render.NEWLINE)) with (txt lit)
      by (vm_compute; reflexivity)
  end.

(** X21. The announcement names the criteria that are not met, and only
    them. For the result of the eligibility rule and a generator that
    answers with its templates, the announcement is the good news when the
    client is eligible; otherwise it is the regret followed by one line for
    each criterion that is not met, in the order age, car, mileage, with the
    reason the rule gave for it, and there is at least one such line. *)
Theorem eligibility_result_names_unmet_criteria (G : Render.generator)
    (year b y m : Z) (first_name : text) :
  silent G →
  let result := evaluate_eligibility year b y m in
  ∃ r_age r_car r_mileage,
    reasons result = [r_age; r_car; r_mileage]
    ∧ let unmet :=
        (if (year - b >=? 18)%Z then [] else [r_age])
        ++ (if (y >=? 2015)%Z then [] else [r_car])
        ++ (if (m <? 100000)%Z then [] else [r_mileage]) in
      (is_eligible result = true ↔ unmet = [])
      ∧ Render.eligibility_result G (Some result) first_name
        = if is_eligible result
          then txt "¡Buenas noticias, " ++ first_name
               ++ txt "! Basado en los criterios iniciales, eres elegible para nuestro producto!"
          else txt "Lamentablemente, " ++ first_name
               ++ txt ", no cumples con los criterios de elegibilidad:"
               ++ concat ((λ r, Render.NEWLINE ++ txt "- " ++ r) <$> unmet).
Proof.
  intros HG. unfold evaluate_eligibility; cbv zeta.
  unfold Render.eligibility_result.
  cbn [is_eligible reasons].
  destruct (year - b >=? 18)%Z, (y >=? 2015)%Z, (m <? 100000)%Z;
    cbn [negb andb app];
    eexists _, _, _; (split; [reflexivity|]); (split; [done|]);
    rewrite generate_silent by done; try reflexivity;
    rewrite !filter_unmet_cons, filter_nil;
    repeat check_mark;
    cbn [foldl fmap list_fmap concat app];
    rewrite <- ?app_assoc; strip_lines;
    by rewrite ?app_nil_r, <- ?app_assoc.
Qed.

Lemma eligibility_result_names_unmet_criteria_witness :
  let result := evaluate_eligibility 2026 2010 2010 45000 in
  ∃ r_age r_car r_mileage,
    reasons result = [r_age; r_car; r_mileage]
    ∧ let unmet :=
        (if (2026 - 2010 >=? 18)%Z then [] else [r_age])
        ++ (if (2010 >=? 2015)%Z then [] else [r_car])
        ++ (if (45000 <? 100000)%Z then [] else [r_mileage]) in
      (is_eligible result = true ↔ unmet = [])
      ∧ Render.eligibility_result templates (Some result) (txt "Ana")
        = if is_eligible result
          then txt "¡Buenas noticias, " ++ txt "Ana"
               ++ txt "! Basado en los criterios iniciales, eres elegible para nuestro producto!"
          else txt "Lamentablemente, " ++ txt "Ana"
               ++ txt ", no cumples con los criterios de elegibilidad:"
               ++ concat ((λ r, Render.NEWLINE ++ txt "- " ++ r) <$> unmet).
Proof.
  apply (eligibility_result_names_unmet_criteria templates 2026 2010 2010 45000
           (txt "Ana")).
  by left.
Defined.

(** ** What is shown is read back *)

Lemma txt_String_ascii (c : ascii) (s : string) :
  (N_of_ascii c < 128)%N → txt (String c s) = N_of_ascii c :: txt s.
Proof.
  intros Hc. unfold txt, bytes_of_string.
  cbn [list_ascii_of_string map utf8_decode].
  by rewrite (proj2 (N.ltb_lt _ _) Hc).
Qed.

Lemma pretty_N_char_code (k : N) :
  (k < 10)%N → N_of_ascii (pretty_N_char k) = (48 + k)%N.
Proof.
  intros Hk.
  assert (k = 0 ∨ k = 1 ∨ k = 2 ∨ k = 3 ∨ k = 4 ∨ k = 5 ∨ k = 6 ∨ k = 7
          ∨ k = 8 ∨ k = 9)%N as Hcases by lia.
  repeat destruct Hcases as [-> | Hcases]; try reflexivity. by subst.
Qed.

Lemma ascii_digit_value (U : unicode) (k : N) :
  (k < 10)%N → digit_value U (48 + k)%N = Some (Z.of_N k).
Proof.
  intros Hk. unfold digit_value, in_range.
  rewrite (proj2 (N.ltb_lt _ _)) by lia.
  rewrite !(proj2 (N.leb_le _ _)) by lia. cbn [andb]. f_equal. lia.
Qed.

(** The decimal writing of a natural number: digits, no leading zero, and
    the number is their value. *)
Lemma pretty_N_go_decimal (x : N) (s : string) :
  ∃ ds : text,
    txt (pretty_N_go x s) = ds ++ txt s
    ∧ Forall (λ c, in_range 48%N 57%N c = true) ds
    ∧ (∀ U a,
         foldl (λ acc c,
                  match acc, digit_value U c with
                  | Some a, Some d => Some (10 * a + d)
                  | _, _ => None
                  end) (Some a) ds
         = Some (a * 10 ^ Z.of_nat (length ds) + Z.of_N x))
    ∧ (x = 0%N → ds = [])
    ∧ ((0 < x)%N → ds ≠ [] ∧ 10 ^ Z.of_nat (length ds - 1) ≤ Z.of_N x).
Proof.
  revert s. induction (N.lt_wf_0 x) as [x _ IH]; intros s.
  destruct (N.eq_dec x 0%N) as [->|Hx].
  - exists []. rewrite pretty_N_go_0. repeat split; try done; try lia.
    intros U a. cbn. f_equal. lia.
  - assert (0 < x)%N as Hpos by lia.
    pose proof (N.div_mod x 10%N ltac:(done)) as Hdm.
    pose proof (N.mod_lt x 10%N ltac:(done)) as Hmod.
    pose proof (N.div_lt x 10%N Hpos eq_refl) as Hdiv.
    rewrite pretty_N_go_step by done.
    generalize dependent (x `mod` 10)%N. intros k Hdm Hk.
    generalize dependent (x `div` 10)%N. intros q Hq Hdm.
    destruct (IH q Hq (String (pretty_N_char k) s))
      as (ds & Htxt & Hdigits & Hvalue & Hzero & Hlow).
    exists (ds ++ [(48 + k)%N]).
    split; [|split; [|split; [|split]]].
    + rewrite Htxt, txt_String_ascii, pretty_N_char_code, <- app_assoc; try done.
      rewrite pretty_N_char_code by done. lia.
    + apply Forall_app. split; [done|]. constructor; [|done].
      unfold in_range. rewrite !(proj2 (N.leb_le _ _)) by lia. done.
    + intros U a. rewrite foldl_app, Hvalue. cbn [foldl].
      rewrite ascii_digit_value by done. f_equal.
      rewrite length_app. cbn [length].
      replace (Z.of_nat (length ds + 1)) with (Z.succ (Z.of_nat (length ds))) by lia.
      rewrite Z.pow_succ_r by lia. lia.
    + done.
    + intros _. split; [by destruct ds|].
      rewrite length_app. cbn [length].
      replace (length ds + 1 - 1)%nat with (length ds) by lia.
      destruct (N.eq_dec q 0%N) as [Hsmall|Hbig].
      * rewrite (Hzero Hsmall). cbn. lia.
      * destruct Hlow as [Hne Hlow]; [lia|].
        destruct ds as [|d ds]; [done|]. cbn [length] in *.
        replace (S (length ds) - 1)%nat with (length ds) in Hlow by lia.
        replace (Z.of_nat (S (length ds))) with (Z.succ (Z.of_nat (length ds))) by lia.
        rewrite Z.pow_succ_r by lia. lia.
Qed.

(** [str(n)] for a natural number, as [int] reads it back. *)
Lemma str_of_int_decimal (n : Z) :
  0 ≤ n →
  str_of_int n ≠ []
  ∧ Forall (λ c, in_range 48%N 57%N c = true) (str_of_int n)
  ∧ (∀ U, py_int U (str_of_int n) = Some n)
  ∧ (n ≤ 999999 → (length (str_of_int n) ≤ 6)%nat).
Proof.
  intros Hn. destruct n as [|p|p]; [|clear Hn|lia].
  - assert (str_of_int 0 = [48%N]) as -> by (by vm_compute).
    split; [done|]. split; [by repeat constructor|]. split; [done|].
    intros _. cbn. lia.
  - unfold str_of_int.
    change (pretty (Z.pos p)) with (pretty_N_go (N.pos p) "").
    destruct (pretty_N_go_decimal (N.pos p) "")
      as (ds & -> & Hdigits & Hvalue & _ & Hlow).
    destruct Hlow as [Hne Hlow]; [lia|].
    change (txt "") with (@nil N). rewrite app_nil_r.
    split; [done|]. split; [done|]. split.
    + intros U. unfold py_int. destruct ds as [|d ds]; [done|].
      by rewrite Hvalue.
    + intros Hmax. destruct (decide (length ds ≤ 6)%nat) as [|Hlong]; [done|].
      assert (10 ^ 6 ≤ 10 ^ Z.of_nat (length ds - 1)) as Hpow.
      { apply Z.pow_le_mono_r; lia. }
      change (Z.of_N (N.pos p)) with (Z.pos p) in Hlow. lia.
Qed.

Lemma ascii_digit_not_separator (c : N) :
  in_range 48%N 57%N c = true → c ≠ 44%N ∧ c ≠ 46%N.
Proof.
  unfold in_range. intros [H1%N.leb_le H2]%andb_prop. lia.
Qed.

Lemma ascii_digit_is_digit (U : unicode) (c : N) :
  in_range 48%N 57%N c = true → is_digit U c = true ∧ is_word U c = true.
Proof.
  intros Hc. pose proof Hc as [H1%N.leb_le H2%N.leb_le]%andb_prop.
  unfold is_digit, is_word, digit_value.
  rewrite (proj2 (N.ltb_lt _ _)) by lia. rewrite Hc. split; [|done].
  by apply bool_decide_eq_true.
Qed.

Lemma rev_is_reverse {A} (l : list A) : rev l = reverse l.
Proof. unfold reverse. apply rev_alt. Qed.

(** Taking the separators out of a grouped number. *)
Lemma ungroup_cons (c : N) (s : text) :
  c ≠ 44%N → c ≠ 46%N →
  remove_char 44%N (remove_char 46%N (Render.replace_commas (c :: s)))
  = c :: remove_char 44%N (remove_char 46%N (Render.replace_commas s)).
Proof.
  intros H44 H46. unfold remove_char, Render.replace_commas.
  rewrite fmap_cons. rewrite (proj2 (N.eqb_neq _ _) H44).
  by rewrite !filter_cons_True.
Qed.

Lemma ungroup_separator (s : text) :
  remove_char 44%N (remove_char 46%N (Render.replace_commas (44%N :: s)))
  = remove_char 44%N (remove_char 46%N (Render.replace_commas s)).
Proof.
  unfold remove_char, Render.replace_commas.
  rewrite fmap_cons. cbn [N.eqb Pos.eqb]. by rewrite filter_cons_False by tauto.
Qed.

Lemma ungroup_plain (l : text) :
  Forall (λ c, in_range 48%N 57%N c = true) l →
  remove_char 44%N (remove_char 46%N (Render.replace_commas l)) = l.
Proof.
  induction 1 as [|c l [H44 H46]%ascii_digit_not_separator _ IH]; [done|].
  by rewrite ungroup_cons, IH.
Qed.

Lemma group_thousands_step (a b c d : N) (rest : text) :
  Render.group_thousands (a :: b :: c :: d :: rest)
  = a :: b :: c :: 44%N :: Render.group_thousands (d :: rest).
Proof. reflexivity. Qed.

Lemma ungroup_thousands (l : text) :
  Forall (λ c, in_range 48%N 57%N c = true) l →
  remove_char 44%N (remove_char 46%N (Render.replace_commas (Render.group_thousands l)))
  = l.
Proof.
  remember (length l) as n eqn:Hn. revert l Hn.
  induction n as [n IH] using lt_wf_ind. intros l Hn Hl.
  destruct l as [|a [|b [|c [|d rest]]]]; try by apply ungroup_plain.
  rewrite group_thousands_step.
  inversion Hl as [|? ? [??]%ascii_digit_not_separator Hl1]; subst.
  inversion Hl1 as [|? ? [??]%ascii_digit_not_separator Hl2]; subst.
  inversion Hl2 as [|? ? [??]%ascii_digit_not_separator Hl3]; subst.
  rewrite !ungroup_cons, ungroup_separator by done.
  rewrite (IH (length (d :: rest))); [done | | done | done].
  cbn [length]. lia.
Qed.

(** Points and commas out of the text shown for a mileage: its digits. *)
Lemma format_thousands_digits (n : Z) :
  0 ≤ n →
  remove_char 44%N (remove_char 46%N (Render.replace_commas (Render.format_thousands n)))
  = str_of_int n.
Proof.
  intros Hn. destruct (str_of_int_decimal n Hn) as (_ & Hdigits & _).
  unfold Render.format_thousands.
  rewrite (proj2 (Z.ltb_ge _ _)) by done. rewrite Z.abs_eq by done.
  cbn [app]. rewrite !rev_is_reverse.
  unfold remove_char, Render.replace_commas.
  rewrite fmap_reverse, !filter_reverse.
  fold (Render.replace_commas (Render.group_thousands (reverse (str_of_int n)))).
  fold (remove_char 46%N (Render.replace_commas
                          (Render.group_thousands (reverse (str_of_int n))))).
  fold (remove_char 44%N
          (remove_char 46%N (Render.replace_commas
                             (Render.group_thousands (reverse (str_of_int n)))))).
  rewrite ungroup_thousands; [apply reverse_involutive|].
  by apply Forall_reverse.
Qed.

Lemma run_length_all (cls : N → bool) (s : text) :
  Forall (λ c, cls c = true) s → run_length cls s = length s.
Proof.
  induction 1 as [|c s Hc _ IH]; [done|]. cbn. by rewrite Hc, IH.
Qed.

(** The pattern of the mileage on one to six digits alone: all of them. *)
Lemma mileage_re_digits (U : unicode) (ds : text) :
  ds ≠ [] → (length ds ≤ 6)%nat →
  Forall (λ c, in_range 48%N 57%N c = true) ds →
  re_search U (MILEAGE_RE U) ds = Some ds.
Proof.
  intros Hne Hlen Hdigits.
  assert (Forall (λ c, is_digit U c = true) ds) as Hd.
  { eapply Forall_impl; [done|]. intros c Hc. by apply ascii_digit_is_digit. }
  assert (match_here U (MILEAGE_RE U) None ds = Some ds) as Hmatch.
  { unfold MILEAGE_RE. cbn [match_here].
    assert (at_boundary U None (head ds) = true) as ->.
    { destruct ds as [|c ds']; [done|]. inversion Hdigits; subst.
      unfold at_boundary. cbn [head from_option].
      by rewrite (proj2 (ascii_digit_is_digit U c ltac:(done))). }
    rewrite run_length_all by done.
    unfold rep_counts. rewrite Nat.min_r by done.
    destruct (length ds) as [|k] eqn:Hk; [by destruct ds|].
    replace (S (S k) - 1)%nat with (S k) by lia.
    rewrite seq_S, rev_app_distr. cbn [rev app first_some].
    replace (1 + k)%nat with (length ds) by lia.
    rewrite firstn_all, skipn_all. cbn [head].
    assert (at_boundary U (last_read None ds) None = true) as ->.
    { unfold last_read. destruct (last ds) as [c|] eqn:Hlast.
      - apply last_Some in Hlast as [l' ->].
        apply Forall_app in Hdigits as [_ Hc]. inversion Hc; subst.
        unfold at_boundary. cbn [from_option].
        by rewrite (proj2 (ascii_digit_is_digit U c ltac:(done))).
      - by apply last_None in Hlast. }
    cbn. by rewrite app_nil_r. }
  unfold re_search. destruct ds as [|c ds']; [done|].
  cbn [search_from]. by rewrite Hmatch.
Qed.

(** X22. The mileage the confirmation shows is one the chatbot reads back:
    for a mileage from 0 to 999999, the text [confirm_car_data] writes for
    it, with its thousands separated by points, and its plain decimal
    writing are both read by [_extract_mileage] as that mileage. *)
Theorem shown_mileage_is_read_back (U : unicode) (mileage : Z) :
  0 ≤ mileage ≤ 999999 →
  _extract_mileage U (Render.replace_commas (Render.format_thousands mileage))
  = Some mileage
  ∧ _extract_mileage U (str_of_int mileage) = Some mileage.
Proof.
  intros [Hlow Hhigh].
  destruct (str_of_int_decimal mileage Hlow) as (Hne & Hdigits & Hvalue & Hlen).
  unfold _extract_mileage; cbv zeta. split.
  - rewrite format_thousands_digits by done.
    rewrite mileage_re_digits by auto. apply Hvalue.
  - assert (remove_char 44%N (remove_char 46%N (str_of_int mileage))
            = str_of_int mileage) as ->.
    { unfold remove_char. clear -Hdigits.
      induction Hdigits as [|c l [??]%ascii_digit_not_separator _ IH]; [done|].
      rewrite (filter_cons_True _ c) by done.
      rewrite (filter_cons_True _ c) by done. by rewrite IH. }
    rewrite mileage_re_digits by auto. apply Hvalue.
Qed.

Lemma shown_mileage_is_read_back_witness :
  _extract_mileage latin1 (Render.replace_commas (Render.format_thousands 45000))
  = Some 45000
  ∧ _extract_mileage latin1 (str_of_int 45000) = Some 45000.
Proof. apply (shown_mileage_is_read_back latin1 45000). lia. Defined.

(** X23. Every year from 1900 to 2099, written in decimal, is read by
    [_extract_year] as itself: with the range of what it reads, these are
    exactly the years the chatbot can read. *)
Theorem written_year_is_read_back (U : unicode) (year : Z) :
  1900 ≤ year ≤ 2099 → _extract_year U (str_of_int year) = Some year.
Proof.
  intros Hyear.
  assert (Forall (λ y, _extract_year U (str_of_int y) = Some y) (seqZ 1900 200))
    as Hall.
  { apply (bool_decide_unpack _). by vm_compute. }
  apply (proj1 (Forall_forall _ _) Hall). apply elem_of_seqZ. lia.
Qed.

Lemma written_year_is_read_back_witness :
  _extract_year latin1 (str_of_int 1990) = Some 1990.
Proof. apply (written_year_is_read_back latin1 1990). lia. Defined.
